(** * tsinfer: the ancestor builder and the Threader binding

    A shallow embedding of [ancestor_builder.c] (pattern de-duplication,
    finalisation into ancestor descriptors, consensus propagation in
    [make_ancestor]) and of the control flow of [Threader_run] in
    [_tsinfermodule.c].

    Conventions.
    - [allele_t] values are integers ([Z]); bytes are compared unsigned by
      [memcmp] and summed into a 64-bit [size_t] with the wrap-around
      written out.
    - Site identifiers, sizes and array positions are [nat]; sample
      identifiers are [Z] because the code marks removed samples with [-1].
    - A C function yields an [outcome]: [Ok] with its result, [Fail] with
      the error code it returns, or [Undef] when an enabled assertion
      fails or memory is read or written out of bounds.
    - [NDEBUG] tells whether assertions are compiled out. *)

From stdpp Require Import base option list numbers strings sorting.

Local Open Scope Z_scope.

(** ** Outcomes of C calls *)

Inductive error_code : Type :=
| TSI_ERR_NO_MEMORY.

Inductive outcome (A : Type) : Type :=
| Ok (a : A)
| Fail (e : error_code)
| Undef.

Arguments Ok {A} a.
Arguments Fail {A} e.
Arguments Undef {A}.

#[global] Instance outcome_ret : MRet outcome := λ A a, Ok a.

#[global] Instance outcome_bind : MBind outcome := λ A B f m,
  match m with
  | Ok a => f a
  | Fail e => Fail e
  | Undef => Undef
  end.

(** An array read or a pointer dereference: undefined when absent. *)
Definition defined {A : Type} (o : option A) : outcome A :=
  match o with
  | Some a => Ok a
  | None => Undef
  end.

(** [assert(cond)]: a no-op under [NDEBUG], otherwise aborts on failure. *)
Definition assert (NDEBUG : bool) (cond : bool) : outcome unit :=
  if NDEBUG || cond then Ok () else Undef.

(** ** Scalar types *)

Abbreviation allele_t := Z (only parsing).      (* int8_t *)
Abbreviation site_id_t := nat (only parsing).   (* int32_t, never negative here *)
Abbreviation node_id_t := Z (only parsing).     (* int32_t *)

(** The byte that stores an allele, and the allele a stored byte denotes
    ([allele_t] is a signed 8-bit integer). *)
Definition byte_of_allele (a : allele_t) : Z := a `mod` 256.
Definition allele_of_byte (b : Z) : allele_t :=
  if b `mod` 256 <? 128 then b `mod` 256 else b `mod` 256 - 256.

Definition UNKNOWN : allele_t := allele_of_byte 255.

(** [size_t] arithmetic wraps modulo 2^64. *)
Definition SIZE_MOD : Z := 2 ^ 64.
Definition size_wrap (x : Z) : Z := x `mod` SIZE_MOD.

(** ** [memcmp] and the pattern comparison *)

(** [memcmp a b n]: the difference of the first pair of differing bytes
    among the first [n], compared as unsigned bytes; [0] when there is
    none. Reading past the end of a buffer is undefined. *)
Fixpoint memcmp (a b : list allele_t) (n : nat) {struct n} : outcome Z :=
  match n with
  | O => Ok 0
  | S n' =>
      match a, b with
      | x :: a', y :: b' =>
          if byte_of_allele x =? byte_of_allele y
          then memcmp a' b' n'
          else Ok (byte_of_allele x - byte_of_allele y)
      | _, _ => Undef
      end
  end.

(** ** Arena *)

(** Modelled from the spec: the block allocator ([block_allocator_get])
    is not among the sources. A request either returns fresh storage or
    fails when the system allocator fails; nothing is reused or freed
    individually. [chunk_ok i] tells whether request number [i]
    succeeds. The arena owns the genotype buffers and the focal-site
    arrays handed out, addressed by their position. *)
Record block_allocator_t : Type := mk_allocator {
  chunk_ok : nat → bool;
  requests : nat;
  genotype_bufs : list (list allele_t);
  site_arrays : list (list site_id_t)
}.

Definition block_allocator_get (a : block_allocator_t)
  : bool * block_allocator_t :=
  (chunk_ok a (requests a),
   mk_allocator (chunk_ok a) (S (requests a)) (genotype_bufs a) (site_arrays a)).

Definition store_genotypes (a : block_allocator_t) (g : list allele_t)
  : nat * block_allocator_t :=
  (length (genotype_bufs a),
   mk_allocator (chunk_ok a) (requests a) (genotype_bufs a ++ [g]) (site_arrays a)).

Definition store_site_array (a : block_allocator_t) (s : list site_id_t)
  : nat * block_allocator_t :=
  (length (site_arrays a),
   mk_allocator (chunk_ok a) (requests a) (genotype_bufs a) (site_arrays a ++ [s])).

Definition write_site_array (a : block_allocator_t) (p : nat) (s : list site_id_t)
  : block_allocator_t :=
  mk_allocator (chunk_ok a) (requests a) (genotype_bufs a) (<[p := s]> (site_arrays a)).

(** ** Builder data *)

Record site_t : Type := mk_site {
  frequency : nat;
  genotypes : option nat          (* NULL, or a genotype buffer of the arena *)
}.

Record pattern_map_t : Type := mk_pattern_map {
  pm_genotypes : nat;             (* the canonical genotype buffer *)
  pm_num_samples : nat;
  pm_sites : list site_id_t;      (* the linked list, head first *)
  pm_num_sites : nat
}.

(** Modelled from the spec: the ordered pattern map ([avl.h]) is not among
    the sources. It is an ordered map whose traversal from [head] along
    [next] visits the items from the smallest key to the largest; it is
    kept here as the list of its items in traversal order. *)
Abbreviation avl_tree_t := (list pattern_map_t) (only parsing).

Record ancestor_descriptor_t : Type := mk_descriptor {
  d_frequency : nat;
  d_focal_sites : option (nat * nat);  (* NULL, or array and offset into it *)
  d_num_focal_sites : Z
}.

Record ancestor_builder_t : Type := mk_builder {
  num_samples : nat;
  num_sites : nat;
  flags : Z;
  sites : list site_t;
  frequency_map : list avl_tree_t;
  descriptors : list ancestor_descriptor_t;
  num_ancestors : nat;
  allocator : block_allocator_t
}.

Definition set_sites (self : ancestor_builder_t) (s : list site_t) :=
  mk_builder (num_samples self) (num_sites self) (flags self) s
    (frequency_map self) (descriptors self) (num_ancestors self) (allocator self).

Definition set_frequency_map (self : ancestor_builder_t) (m : list avl_tree_t) :=
  mk_builder (num_samples self) (num_sites self) (flags self) (sites self)
    m (descriptors self) (num_ancestors self) (allocator self).

Definition set_descriptors (self : ancestor_builder_t)
    (d : list ancestor_descriptor_t) :=
  mk_builder (num_samples self) (num_sites self) (flags self) (sites self)
    (frequency_map self) d (num_ancestors self) (allocator self).

Definition set_num_ancestors (self : ancestor_builder_t) (n : nat) :=
  mk_builder (num_samples self) (num_sites self) (flags self) (sites self)
    (frequency_map self) (descriptors self) n (allocator self).

Definition set_allocator (self : ancestor_builder_t) (a : block_allocator_t) :=
  mk_builder (num_samples self) (num_sites self) (flags self) (sites self)
    (frequency_map self) (descriptors self) (num_ancestors self) a.

(** The buffer a genotype pointer refers to. *)
Definition load_genotypes (self : ancestor_builder_t) (p : nat)
  : outcome (list allele_t) :=
  defined (genotype_bufs (allocator self) !! p).

(** [self->sites[l].genotypes], dereferenced. *)
Definition site_genotypes (self : ancestor_builder_t) (l : site_id_t)
  : outcome (list allele_t) :=
  site ← defined (sites self !! l);
  p ← defined (genotypes site);
  load_genotypes self p.

(** ** The ordered pattern map *)

(** [cmp_pattern_map]: compares [ia->num_samples] bytes of the two
    genotype buffers. *)
Definition cmp_pattern_map (ia_genotypes : list allele_t) (ia_num_samples : nat)
    (ib_genotypes : list allele_t) : outcome Z :=
  memcmp ia_genotypes ib_genotypes (ia_num_samples * 1).

(** [avl_search]: the position of the item that compares equal to the
    key, or [None] (NULL). *)
Fixpoint avl_search (self : ancestor_builder_t) (tree : avl_tree_t)
    (key : list allele_t) (key_num_samples : nat) : outcome (option nat) :=
  match tree with
  | [] => Ok None
  | item :: rest =>
      g ← load_genotypes self (pm_genotypes item);
      c ← cmp_pattern_map key key_num_samples g;
      if c =? 0 then Ok (Some O)
      else
        r ← avl_search self rest key key_num_samples;
        Ok (option_map S r)
  end.

(** [avl_insert_node]: links the item at its place in key order and
    gives its position; [None] (NULL) when an equal key is present, in
    which case the tree is unchanged. *)
Fixpoint avl_insert_node (self : ancestor_builder_t) (tree : avl_tree_t)
    (node : pattern_map_t) : outcome (option (nat * avl_tree_t)) :=
  match tree with
  | [] => Ok (Some (O, [node]))
  | item :: rest =>
      gn ← load_genotypes self (pm_genotypes node);
      gi ← load_genotypes self (pm_genotypes item);
      c ← cmp_pattern_map gn (pm_num_samples node) gi;
      if c =? 0 then Ok None
      else if c <? 0 then Ok (Some (O, node :: item :: rest))
      else
        r ← avl_insert_node self rest node;
        Ok (option_map (λ '(i, t), (S i, item :: t)) r)
  end.

(** The state of the loop of [compute_older_sites], and how an iteration
    ends. *)
Record older_state : Type := mk_older_state {
  os_ancestor : list allele_t;
  os_sample_set : list node_id_t;   (* its first [sample_set_size] entries *)
  os_disagree : list bool;
  os_last_site : site_id_t
}.

Inductive loop_step (A : Type) : Type :=
| Break
| Continue (a : A).

Arguments Break {A}.
Arguments Continue {A} a.

(** ** The ancestor builder *)

Section AncestorBuilder.

(** Whether assertions are compiled out. *)
Variable NDEBUG : bool.

(** [ancestor_builder_alloc]. [calloc_ok] tells whether the three
    [calloc] calls succeed, [arena_ok] whether [block_allocator_alloc]
    does; [oracle] is the fate of the arena's later requests. *)
Definition ancestor_builder_alloc (num_samples num_sites : nat) (flags : Z)
    (calloc_ok arena_ok : bool) (oracle : nat → bool)
  : outcome ancestor_builder_t :=
  _ ← assert NDEBUG (1 <? num_samples)%nat;
  if negb calloc_ok then Fail TSI_ERR_NO_MEMORY
  else if negb arena_ok then Fail TSI_ERR_NO_MEMORY
  else
    Ok (mk_builder num_samples num_sites flags
          (replicate num_sites (mk_site O None))
          (replicate (num_samples + 1) [])
          (replicate num_sites (mk_descriptor O None 0))
          O
          (mk_allocator oracle O [] [])).

(** [ancestor_builder_get_consistent_samples]: the samples that carry
    allele 1 at [site], in increasing order. *)
Fixpoint consistent_samples_loop (genotypes : list allele_t) (j : nat)
    (count : nat) : outcome (list node_id_t) :=
  match count with
  | O => Ok []
  | S count' =>
      g ← defined (genotypes !! j);
      rest ← consistent_samples_loop genotypes (S j) count';
      Ok (if g =? 1 then Z.of_nat j :: rest else rest)
  end.

Definition ancestor_builder_get_consistent_samples (self : ancestor_builder_t)
    (site : site_id_t) : outcome (list node_id_t) :=
  genotypes ← site_genotypes self site;
  consistent_samples_loop genotypes O (num_samples self).

(** The item of the pattern map [frequency] at position [i], updated in
    place through its pointer. *)
Definition update_map_elem (self : ancestor_builder_t) (frequency i : nat)
    (f : pattern_map_t → pattern_map_t) : outcome ancestor_builder_t :=
  pattern_map ← defined (frequency_map self !! frequency);
  map_elem ← defined (pattern_map !! i);
  Ok (set_frequency_map self
        (<[frequency := <[i := f map_elem]> pattern_map]> (frequency_map self))).

Definition set_site (self : ancestor_builder_t) (l : site_id_t)
    (f : site_t → site_t) : outcome ancestor_builder_t :=
  site ← defined (sites self !! l);
  Ok (set_sites self (<[l := f site]> (sites self))).

(** [ancestor_builder_add_site]. The builder left behind by a call that
    fails with an error code is not described. *)
Definition ancestor_builder_add_site (self : ancestor_builder_t) (l : site_id_t)
    (frequency : nat) (genotypes : list allele_t) : outcome ancestor_builder_t :=
  _ ← assert NDEBUG (frequency <=? num_samples self)%nat;
  _ ← assert NDEBUG (l <? num_sites self)%nat;
  self ← set_site self l (λ '(mk_site _ g), mk_site frequency g);
  if (1 <? frequency)%nat then
    pattern_map ← defined (frequency_map self !! frequency);
    avl_node ← avl_search self pattern_map genotypes (num_samples self);
    '(self, i) ←
      match avl_node with
      | None =>
          let '(avl_node_ok, a) := block_allocator_get (allocator self) in
          let '(map_elem_ok, a) := block_allocator_get a in
          let '(genotypes_ok, a) := block_allocator_get a in
          if negb (avl_node_ok && map_elem_ok && genotypes_ok)
          then Fail TSI_ERR_NO_MEMORY
          else
            (* memcpy of num_samples alleles into the new buffer *)
            _ ← (if (num_samples self <=? length genotypes)%nat
                 then Ok () else Undef);
            let '(p, a) := store_genotypes a (take (num_samples self) genotypes) in
            let self := set_allocator self a in
            self ← set_site self l (λ '(mk_site f _), mk_site f (Some p));
            let map_elem := mk_pattern_map p (num_samples self) [] O in
            r ← avl_insert_node self pattern_map map_elem;
            match r with
            | None => Undef   (* an equal key is present: not reached after
                                 a failed search *)
            | Some (i, tree) =>
                Ok (set_frequency_map self
                      (<[frequency := tree]> (frequency_map self)), i)
            end
      | Some i =>
          map_elem ← defined (pattern_map !! i);
          self ← set_site self l
                   (λ '(mk_site f _), mk_site f (Some (pm_genotypes map_elem)));
          Ok (self, i)
      end;
    self ← update_map_elem self frequency i
             (λ m, mk_pattern_map (pm_genotypes m) (pm_num_samples m)
                     (pm_sites m) (S (pm_num_sites m)));
    let '(list_node_ok, a) := block_allocator_get (allocator self) in
    let self := set_allocator self a in
    if negb list_node_ok then Fail TSI_ERR_NO_MEMORY
    else
      update_map_elem self frequency i
        (λ m, mk_pattern_map (pm_genotypes m) (pm_num_samples m)
                (l :: pm_sites m) (pm_num_sites m))
  else Ok self.


(** The focal sites a descriptor designates: [num_focal_sites] entries
    from its pointer on. *)
Definition descriptor_focal_sites (self : ancestor_builder_t)
    (d : ancestor_descriptor_t) : outcome (list site_id_t) :=
  '(p, off) ← defined (d_focal_sites d);
  array ← defined (site_arrays (allocator self) !! p);
  if (0 <=? d_num_focal_sites d)
     && (off + Z.to_nat (d_num_focal_sites d) <=? length array)%nat
  then Ok (take (Z.to_nat (d_num_focal_sites d)) (drop off array))
  else Undef.

Definition update_descriptor (self : ancestor_builder_t) (i : nat)
    (f : ancestor_descriptor_t → ancestor_descriptor_t)
  : outcome ancestor_builder_t :=
  d ← defined (descriptors self !! i);
  Ok (set_descriptors self (<[i := f d]> (descriptors self))).

(** [focal_sites[k] = s->site; k--] along the linked list. *)
Fixpoint fill_focal_sites (focal_sites : list site_id_t) (k : Z)
    (s : list site_id_t) : outcome (list site_id_t) :=
  match s with
  | [] => Ok focal_sites
  | site :: next =>
      if (0 <=? k) && (Z.to_nat k <? length focal_sites)%nat
      then fill_focal_sites (<[Z.to_nat k := site]> focal_sites) (k - 1) next
      else Undef
  end.

(** The loop that splits the descriptor of an entry after each of its
    focal sites; [descriptor] is the position of the current
    descriptor, [p] the array of the entry. *)
Fixpoint split_descriptors (self : ancestor_builder_t) (j : nat)
    (map_elem : pattern_map_t) (p : nat) (descriptor : nat) (ks : list nat)
  : outcome ancestor_builder_t :=
  match ks with
  | [] => Ok self
  | k :: ks' =>
      cur ← defined (descriptors self !! descriptor);
      '(_, off) ← defined (d_focal_sites cur);
      self ← update_descriptor self descriptor
               (λ d, mk_descriptor (d_frequency d) (d_focal_sites d)
                       (Z.of_nat (k + 1) - Z.of_nat off));
      let descriptor := num_ancestors self in
      let self := set_num_ancestors self (S (num_ancestors self)) in
      self ← update_descriptor self descriptor
               (λ d, mk_descriptor j (Some (p, (k + 1)%nat))
                       (Z.of_nat (pm_num_sites map_elem) - Z.of_nat k - 1));
      split_descriptors self j map_elem p descriptor ks'
  end.

(** The body of the inner loop of [ancestor_builder_finalise], for one
    item of the pattern map of frequency [j]. *)
Definition finalise_entry (self : ancestor_builder_t) (j : nat)
    (map_elem : pattern_map_t) : outcome ancestor_builder_t :=
  let descriptor := num_ancestors self in
  let self := set_num_ancestors self (S (num_ancestors self)) in
  self ← update_descriptor self descriptor
           (λ d, mk_descriptor j (d_focal_sites d) (d_num_focal_sites d));
  let '(focal_sites_ok, a) := block_allocator_get (allocator self) in
  let self := set_allocator self a in
  if negb focal_sites_ok then Fail TSI_ERR_NO_MEMORY
  else
    let '(p, a) := store_site_array a (replicate (pm_num_sites map_elem) O) in
    let self := set_allocator self a in
    self ← update_descriptor self descriptor
             (λ d, mk_descriptor (d_frequency d) (Some (p, O))
                     (Z.of_nat (pm_num_sites map_elem)));
    focal_sites ← fill_focal_sites (replicate (pm_num_sites map_elem) O)
                    (Z.of_nat (pm_num_sites map_elem) - 1) (pm_sites map_elem);
    let self := set_allocator self (write_site_array (allocator self) p focal_sites) in
    _ ← (if (1 <? pm_num_sites map_elem)%nat
         then
           site ← defined (focal_sites !! O);
           consistent_samples ← ancestor_builder_get_consistent_samples self site;
           assert NDEBUG (length consistent_samples =? j)%nat
         else Ok ());
    (* [num_sites - 1] wraps around for an empty entry and the loop then
       overruns the descriptor array *)
    if (pm_num_sites map_elem =? 0)%nat then Undef
    else
      split_descriptors self j map_elem p descriptor
        (seq 0 (pm_num_sites map_elem - 1)).

Fixpoint finalise_entries (self : ancestor_builder_t) (j : nat)
    (a : list pattern_map_t) : outcome ancestor_builder_t :=
  match a with
  | [] => Ok self
  | map_elem :: next =>
      self ← finalise_entry self j map_elem;
      finalise_entries self j next
  end.

(** The outer loop: [js] lists the frequencies still to visit. *)
Fixpoint finalise_frequencies (self : ancestor_builder_t) (js : list nat)
  : outcome ancestor_builder_t :=
  match js with
  | [] => Ok self
  | j :: js' =>
      head ← defined (frequency_map self !! j);
      self ← finalise_entries self j head;
      finalise_frequencies self js'
  end.

(** [ancestor_builder_finalise]; [malloc_ok] tells whether the scratch
    buffer [consistent_samples] can be allocated. *)
Definition ancestor_builder_finalise (self : ancestor_builder_t)
    (malloc_ok : bool) : outcome ancestor_builder_t :=
  if negb malloc_ok then Fail TSI_ERR_NO_MEMORY
  else
    let self := set_num_ancestors self O in
    finalise_frequencies self (rev (seq 2 (num_samples self - 1))).

(** The descriptors emitted by finalisation. *)
Definition emitted_descriptors (self : ancestor_builder_t)
  : list ancestor_descriptor_t :=
  take (num_ancestors self) (descriptors self).

(** A sequence of [add_site] calls, each of which must succeed. *)
Fixpoint add_sites (self : ancestor_builder_t)
    (calls : list (site_id_t * nat * list allele_t)) : outcome ancestor_builder_t :=
  match calls with
  | [] => Ok self
  | (l, frequency, genotypes) :: calls' =>
      self ← ancestor_builder_add_site self l frequency genotypes;
      add_sites self calls'
  end.


(** *** Consensus propagation *)

(** [a[u]] for a sample identifier [u]. *)
Definition read_sample {A : Type} (a : list A) (u : node_id_t) : outcome A :=
  if u <? 0 then Undef else defined (a !! Z.to_nat u).

(** [ones += genotypes[sample_set[k]]] over the sample set, in [size_t]. *)
Fixpoint count_ones (genotypes : list allele_t) (sample_set : list node_id_t)
    (ones : Z) : outcome Z :=
  match sample_set with
  | [] => Ok ones
  | u :: rest =>
      g ← read_sample genotypes u;
      count_ones genotypes rest (size_wrap (ones + g))
  end.

(** The consensus allele at a site whose genotypes are [genotypes]. *)
Definition site_consensus (genotypes : list allele_t)
    (sample_set : list node_id_t) : outcome allele_t :=
  ones ← count_ones genotypes sample_set 0;
  let zeros := size_wrap (Z.of_nat (length sample_set) - ones) in
  Ok (if zeros <=? ones then 1 else 0).

(** Samples that disagreed last time and disagree again become [-1]. *)
Fixpoint mark_removed (disagree : list bool) (genotypes : list allele_t)
    (consensus : allele_t) (sample_set : list node_id_t)
  : outcome (list node_id_t) :=
  match sample_set with
  | [] => Ok []
  | u :: rest =>
      d ← read_sample disagree u;
      u' ← (if (d : bool)
            then g ← read_sample genotypes u;
                 Ok (if g =? consensus then u else -1)
            else Ok u);
      rest' ← mark_removed disagree genotypes consensus rest;
      Ok (u' :: rest')
  end.

(** Repacking keeps the entries that are not [-1], in order. *)
Definition repack (sample_set : list node_id_t) : list node_id_t :=
  filter (λ u, u ≠ -1) sample_set.

(** [disagree[u] = genotypes[u] != consensus] for the remaining samples. *)
Fixpoint set_disagree (disagree : list bool) (genotypes : list allele_t)
    (consensus : allele_t) (sample_set : list node_id_t) : outcome (list bool) :=
  match sample_set with
  | [] => Ok disagree
  | u :: rest =>
      g ← read_sample genotypes u;
      _ ← read_sample disagree u;
      set_disagree (<[Z.to_nat u := negb (g =? consensus)]> disagree)
        genotypes consensus rest
  end.

(** The working sample set after the removal pass and the repack at a
    site. *)
Definition repacked_sample_set (genotypes : list allele_t) (st : older_state)
  : outcome (list node_id_t) :=
  consensus ← site_consensus genotypes (os_sample_set st);
  marked ← mark_removed (os_disagree st) genotypes consensus (os_sample_set st);
  Ok (repack marked).

(** One iteration of the loop of [ancestor_builder_compute_older_sites],
    at the older site [l]. *)
Definition older_site_step (self : ancestor_builder_t)
    (min_sample_set_size : nat) (st : older_state) (l : site_id_t)
  : outcome (loop_step older_state) :=
  genotypes ← site_genotypes self l;
  consensus ← site_consensus genotypes (os_sample_set st);
  sample_set ← repacked_sample_set genotypes st;
  if (length sample_set <=? min_sample_set_size)%nat then Ok Break
  else
    _ ← defined (os_ancestor st !! l);
    let ancestor := <[l := consensus]> (os_ancestor st) in
    disagree ← set_disagree (os_disagree st) genotypes consensus sample_set;
    Ok (Continue (mk_older_state ancestor sample_set disagree l)).

Fixpoint older_sites_loop (self : ancestor_builder_t)
    (min_sample_set_size : nat) (st : older_state) (older_sites : list site_id_t)
  : outcome older_state :=
  match older_sites with
  | [] => Ok st
  | l :: rest =>
      r ← older_site_step self min_sample_set_size st l;
      match r with
      | Break => Ok st
      | Continue st' => older_sites_loop self min_sample_set_size st' rest
      end
  end.

(** [ancestor_builder_compute_older_sites]: the ancestor written so far
    and [last_site]. [calloc_ok] tells whether the [disagree] flags can
    be allocated. *)
Definition ancestor_builder_compute_older_sites (self : ancestor_builder_t)
    (focal_site : site_id_t) (ancestor : list allele_t)
    (older_sites : list site_id_t) (sample_set : list node_id_t)
    (calloc_ok : bool) : outcome (list allele_t * site_id_t) :=
  let min_sample_set_size := (length sample_set / 2)%nat in
  if negb calloc_ok then Fail TSI_ERR_NO_MEMORY
  else
    let disagree := replicate (num_samples self) false in
    st ← older_sites_loop self min_sample_set_size
           (mk_older_state ancestor sample_set disagree focal_site) older_sites;
    Ok (os_ancestor st, os_last_site st).

(** The sites among [ls], in that order, that are older than the focal
    site. *)
Fixpoint collect_older_sites (self : ancestor_builder_t)
    (focal_site_frequency : nat) (ls : list site_id_t) : outcome (list site_id_t) :=
  match ls with
  | [] => Ok []
  | l :: ls' =>
      site ← defined (sites self !! l);
      rest ← collect_older_sites self focal_site_frequency ls';
      Ok (if (focal_site_frequency <? frequency site)%nat then l :: rest else rest)
  end.

(** [ancestor[l] = 0] at the sites among [ls] that are not older. *)
Fixpoint fill_younger_sites (self : ancestor_builder_t)
    (focal_site_frequency : nat) (ancestor : list allele_t) (ls : list site_id_t)
  : outcome (list allele_t) :=
  match ls with
  | [] => Ok ancestor
  | l :: ls' =>
      site ← defined (sites self !! l);
      ancestor ← (if (frequency site <=? focal_site_frequency)%nat
                  then _ ← defined (ancestor !! l); Ok (<[l := 0]> ancestor)
                  else Ok ancestor);
      fill_younger_sites self focal_site_frequency ancestor ls'
  end.

(** [memset(ancestor, 0xff, num_sites)]. *)
Definition memset_unknown (ancestor : list allele_t) (n : nat)
  : outcome (list allele_t) :=
  if (n <=? length ancestor)%nat
  then Ok (replicate n (allele_of_byte 255) ++ drop n ancestor)
  else Undef.

(** [ancestor_builder_make_ancestor]: [(start, end, ancestor)].
    [malloc_ok] tells whether the two scratch buffers can be allocated,
    [calloc_right] and [calloc_left] whether the flags of the two
    passes can. *)
Definition ancestor_builder_make_ancestor (self : ancestor_builder_t)
    (focal_sites : list site_id_t) (ancestor : list allele_t)
    (malloc_ok calloc_right calloc_left : bool)
  : outcome (site_id_t * site_id_t * list allele_t) :=
  if negb malloc_ok then Fail TSI_ERR_NO_MEMORY
  else
    _ ← assert NDEBUG (length focal_sites =? 1)%nat;
    focal_site ← defined (focal_sites !! O);
    site ← defined (sites self !! focal_site);
    let focal_site_frequency := frequency site in
    ancestor ← memset_unknown ancestor (num_sites self);
    _ ← defined (ancestor !! focal_site);
    let ancestor := <[focal_site := 1]> ancestor in
    (* Work rightwards from the focal site *)
    older_sites ← collect_older_sites self focal_site_frequency
                    (seq (focal_site + 1) (num_sites self - (focal_site + 1)));
    sample_set ← ancestor_builder_get_consistent_samples self focal_site;
    _ ← assert NDEBUG (length sample_set =? focal_site_frequency)%nat;
    '(ancestor, last_site) ←
      ancestor_builder_compute_older_sites self focal_site ancestor
        older_sites sample_set calloc_right;
    ancestor ← fill_younger_sites self focal_site_frequency ancestor
                 (seq (focal_site + 1) (last_site - (focal_site + 1)));
    let ret_end := (last_site + 1)%nat in
    (* Work leftwards from the focal site *)
    older_sites ← collect_older_sites self focal_site_frequency
                    (rev (seq 0 focal_site));
    sample_set ← ancestor_builder_get_consistent_samples self focal_site;
    _ ← assert NDEBUG (length sample_set =? focal_site_frequency)%nat;
    '(ancestor, last_site) ←
      ancestor_builder_compute_older_sites self focal_site ancestor
        older_sites sample_set calloc_left;
    ancestor ← fill_younger_sites self focal_site_frequency ancestor
                 (seq (last_site + 1) (focal_site - (last_site + 1)));
    let ret_start := last_site in
    Ok (ret_start, ret_end, ancestor).

End AncestorBuilder.

(** ** The Python binding of the Threader *)

Module Threader.

(** The exception a call leaves pending when it returns NULL. *)
Inductive py_exception : Type :=
| SystemError (msg : string)
| TypeError                      (* set by [PyArg_ParseTupleAndKeywords] *)
| ConversionError                (* set by [PyArray_FROM_OTF] *)
| ValueError (msg : string)
| MemoryError
| TsinfLibraryError (err : Z).   (* set by [handle_library_error] *)

Inductive py_result : Type :=
| Returned (mutations_array : list Z)
| Raised (e : py_exception).

(** What [Threader_run] observes of its arguments and of the calls it
    makes. [threader_run] itself (the HMM) is not among the sources: the
    error code it returns, and what it leaves in [num_mutations] and in
    the [mutations] buffer, are taken as given. *)
Record call : Type := mk_call {
  threader_initialised : bool;        (* self->threader != NULL *)
  panel_initialised : bool;           (* the reference panel's state *)
  args_parsed : bool;
  haplotype_index : Z;                (* unsigned int *)
  num_haplotypes : Z;
  num_sites : Z;
  path_array : option (Z * Z);        (* NULL, or NDIM and shape[0] *)
  mutations_allocated : bool;         (* PyMem_Malloc succeeded *)
  threader_run_err : Z;               (* the value threader_run returns *)
  num_mutations : nat;
  mutations : list Z;
  mutations_array_allocated : bool    (* PyArray_EMPTY succeeded *)
}.

Definition Threader_check_state (c : call) : option py_exception :=
  if negb (threader_initialised c)
  then Some (SystemError "Threader not initialised")
  else if negb (panel_initialised c)
  then Some (SystemError "ReferencePanel not initialised")
  else None.

(** [Threader_run], from the call of [threader_run] on. *)
Definition Threader_run_hmm (c : call) : py_result :=
  let err := threader_run_err c in
  let err := 0 in
  if negb (err =? 0) then Raised (TsinfLibraryError err)
  else if negb (mutations_array_allocated c) then Raised MemoryError
  else Returned (take (num_mutations c) (mutations c)).

Definition Threader_run (c : call) : py_result :=
  match Threader_check_state c with
  | Some e => Raised e
  | None =>
      if negb (args_parsed c) then Raised TypeError
      else if num_haplotypes c <=? haplotype_index c
      then Raised (ValueError "haplotype_index out of bounds")
      else
        match path_array c with
        | None => Raised ConversionError
        | Some (ndim, shape0) =>
            if negb (ndim =? 1) then Raised (ValueError "Dim != 1")
            else if negb (shape0 `mod` 2 ^ 32 =? num_sites c)
            then Raised (ValueError "input path wrong size")
            else if negb (mutations_allocated c) then Raised MemoryError
            else Threader_run_hmm c
        end
  end.

(** The call with another return value of [threader_run]. *)
Definition with_err (c : call) (err : Z) : call :=
  mk_call (threader_initialised c) (panel_initialised c) (args_parsed c)
    (haplotype_index c) (num_haplotypes c) (num_sites c) (path_array c)
    (mutations_allocated c) err (num_mutations c) (mutations c)
    (mutations_array_allocated c).

(** Parameter validation passes and the scratch buffer is allocated. *)
Definition reaches_hmm (c : call) : Prop :=
  Threader_check_state c = None ∧ args_parsed c = true ∧
  haplotype_index c < num_haplotypes c ∧
  (∃ shape0, path_array c = Some (1, shape0) ∧ shape0 `mod` 2 ^ 32 = num_sites c) ∧
  mutations_allocated c = true.

End Threader.

(** ** The consistency check *)

(** [assert(e)] for an expression that reads memory: under [NDEBUG] the
    expression is not evaluated. *)
Definition assert_read (NDEBUG : bool) (cond : outcome bool) : outcome unit :=
  if NDEBUG then Ok () else c ← cond; assert NDEBUG c.

Section CheckState.

Variable NDEBUG : bool.

(** [count += map_elem->genotypes[k] == 1] for the [n] samples from [k]
    on; [p] is the pointer [map_elem->genotypes]. *)
Fixpoint count_derived (self : ancestor_builder_t) (p : nat) (k n : nat)
    (count : nat) : outcome nat :=
  match n with
  | O => Ok count
  | S n' =>
      buf ← load_genotypes self p;
      g ← defined (buf !! k);
      count_derived self p (S k) n' (if g =? 1 then S count else count)
  end.

(** The walk along the linked list of an entry, with its two assertions
    per node; gives the number of nodes. *)
Fixpoint check_site_list (self : ancestor_builder_t) (f : nat)
    (map_elem : pattern_map_t) (s : list site_id_t) (count : nat) : outcome nat :=
  match s with
  | [] => Ok count
  | site :: next =>
      _ ← assert_read NDEBUG
            (st ← defined (sites self !! site); Ok (frequency st =? f)%nat);
      _ ← assert_read NDEBUG
            (st ← defined (sites self !! site);
             Ok (bool_decide (genotypes st = Some (pm_genotypes map_elem))));
      check_site_list self f map_elem next (S count)
  end.

(** The body of the inner loop of [ancestor_builder_check_state], for one
    item of the pattern map of frequency [f]. *)
Definition check_entry (self : ancestor_builder_t) (f : nat)
    (map_elem : pattern_map_t) : outcome unit :=
  count ← count_derived self (pm_genotypes map_elem) O (num_samples self) O;
  _ ← assert NDEBUG (count =? f)%nat;
  count ← check_site_list self f map_elem (pm_sites map_elem) O;
  assert NDEBUG (pm_num_sites map_elem =? count)%nat.

Fixpoint check_entries (self : ancestor_builder_t) (f : nat)
    (a : list pattern_map_t) : outcome unit :=
  match a with
  | [] => Ok ()
  | map_elem :: next =>
      _ ← check_entry self f map_elem;
      check_entries self f next
  end.

Fixpoint check_frequencies (self : ancestor_builder_t) (fs : list nat)
  : outcome unit :=
  match fs with
  | [] => Ok ()
  | f :: fs' =>
      head ← defined (frequency_map self !! f);
      _ ← check_entries self f head;
      check_frequencies self fs'
  end.

(** [ancestor_builder_check_state]: returns when every assertion holds. *)
Definition ancestor_builder_check_state (self : ancestor_builder_t)
  : outcome unit :=
  check_frequencies self (seq 0 (num_samples self + 1)).

End CheckState.

(** ** The Python binding: construction and state checks *)

Module Binding.

(** [(uint32_t) x] *)
Definition uint32 (x : Z) : Z := x `mod` 2 ^ 32.

(** The C state of a [ReferencePanel] object. [npy_intp] is taken to be
    64 bits wide, so that a dimension compares with a [uint32_t] by
    value. *)
Record ReferencePanel : Type := mk_panel {
  rp_reference_panel : bool;     (* self->reference_panel != NULL *)
  rp_sequence_length : Z;        (* the double, as given *)
  rp_num_haplotypes : Z;
  rp_num_sites : Z;
  rp_num_samples : Z
}.

(** What [ReferencePanel_init] observes of its arguments and of the
    calls it makes. [reference_panel_alloc] is not among the sources:
    the error code it returns and the [num_haplotypes] it leaves are
    taken as given. *)
Record panel_args : Type := mk_panel_args {
  pa_args_parsed : bool;
  pa_sequence_length : Z;
  pa_haplotypes_array : option (list Z);   (* NULL, or the dimensions *)
  pa_positions_array : option (list Z);    (* NULL, or the dimensions *)
  pa_panel_allocated : bool;               (* PyMem_Malloc succeeded *)
  pa_alloc_err : Z;                        (* reference_panel_alloc's result *)
  pa_alloc_num_haplotypes : Z
}.

(** A call of an init function: the value returned, the exception left
    pending, the object afterwards. *)
Record init_result (A : Type) : Type := mk_init_result {
  ir_ret : Z;
  ir_exception : option Threader.py_exception;
  ir_self : A
}.

Arguments mk_init_result {A} _ _ _.
Arguments ir_ret {A} _.
Arguments ir_exception {A} _.
Arguments ir_self {A} _.

Definition init_failed {A : Type} (e : Threader.py_exception) (self : A)
  : init_result A :=
  mk_init_result (-1) (Some e) self.

Definition ReferencePanel_check_state (self : ReferencePanel)
  : Z * option Threader.py_exception :=
  if negb (rp_reference_panel self)
  then (-1, Some (Threader.SystemError "ReferencePanel not initialised"))
  else (0, None).

Definition ReferencePanel_init (self : ReferencePanel) (a : panel_args)
  : init_result ReferencePanel :=
  let self := mk_panel false (rp_sequence_length self) (rp_num_haplotypes self)
                (rp_num_sites self) (rp_num_samples self) in
  if negb (pa_args_parsed a) then init_failed Threader.TypeError self
  else
    match pa_haplotypes_array a with
    | None => init_failed Threader.ConversionError self
    | Some shape =>
        if negb (length shape =? 2)%nat
        then init_failed (Threader.ValueError "Dim != 2") self
        else
          let num_sites := uint32 (nth 1 shape 0) in
          let num_samples := uint32 (nth 0 shape 0) in
          let self := mk_panel false (pa_sequence_length a) (rp_num_haplotypes self)
                        num_sites num_samples in
          if num_samples <? 1
          then init_failed (Threader.ValueError "At least one haplotype required.")
                 self
          else if num_sites <? 1
          then init_failed (Threader.ValueError "At least one site required.") self
          else
            match pa_positions_array a with
            | None => init_failed Threader.ConversionError self
            | Some pshape =>
                if negb (length pshape =? 1)%nat
                then init_failed (Threader.ValueError "Dim != 1") self
                else if negb (nth 0 pshape 0 =? num_sites)
                then init_failed
                       (Threader.ValueError "Wrong dimensions for positions") self
                else if negb (pa_panel_allocated a)
                then init_failed Threader.MemoryError self
                else
                  let self := mk_panel true (rp_sequence_length self)
                                (rp_num_haplotypes self) (rp_num_sites self)
                                (rp_num_samples self) in
                  if negb (pa_alloc_err a =? 0)
                  then init_failed (Threader.TsinfLibraryError (pa_alloc_err a)) self
                  else
                    mk_init_result 0 None
                      (mk_panel true (rp_sequence_length self)
                         (pa_alloc_num_haplotypes a) (rp_num_sites self)
                         (rp_num_samples self))
            end
    end.

(** What a method that builds a numpy array gives back: the dimensions
    and the data of the array, or the pending exception. *)
Inductive array_result : Type :=
| Array (dims : list Z) (data : list Z)
| Raises (e : option Threader.py_exception).

(** [ReferencePanel_get_haplotypes]. [haplotypes] is the memory at
    [self->reference_panel->haplotypes]; [array] is the array that
    [PyArray_SimpleNew] gives, with the bytes it holds as allocated
    (NULL when it fails). The number of bytes copied is computed in
    [unsigned int] before it is widened. *)
Definition ReferencePanel_get_haplotypes (self : ReferencePanel)
    (haplotypes : list Z) (array : option (list Z)) : outcome array_result :=
  let '(err, e) := ReferencePanel_check_state self in
  if negb (err =? 0) then Ok (Raises e)
  else
    let dims := [rp_num_haplotypes self; rp_num_sites self] in
    match array with
    | None => Ok (Raises (Some Threader.MemoryError))
    | Some data =>
        let n := Z.to_nat (uint32 (rp_num_sites self * rp_num_haplotypes self) * 1) in
        if (n <=? length haplotypes)%nat && (n <=? length data)%nat
        then Ok (Array dims (take n haplotypes ++ drop n data))
        else Undef
    end.

(** The C state of a [Threader] object. *)
Record Threader : Type := mk_threader {
  th_reference_panel : option ReferencePanel;  (* NULL, or the panel object *)
  th_threader : bool                           (* self->threader != NULL *)
}.

(** What [Threader_init] observes; [threader_alloc] is not among the
    sources. *)
Record threader_args : Type := mk_threader_args {
  ta_reference_panel : option ReferencePanel;  (* None: the arguments do not
                                                  parse as one ReferencePanel *)
  ta_threader_allocated : bool;
  ta_alloc_err : Z
}.

Definition Threader_init (self : Threader) (a : threader_args)
  : init_result Threader :=
  let self := mk_threader None false in
  match ta_reference_panel a with
  | None => init_failed Threader.TypeError self
  | Some reference_panel =>
      let self := mk_threader (Some reference_panel) false in
      let '(err, e) := ReferencePanel_check_state reference_panel in
      if negb (err =? 0) then mk_init_result (-1) e self
      else if negb (ta_threader_allocated a)
      then init_failed Threader.MemoryError self
      else
        let self := mk_threader (Some reference_panel) true in
        if negb (ta_alloc_err a =? 0)
        then init_failed (Threader.TsinfLibraryError (ta_alloc_err a)) self
        else mk_init_result 0 None self
  end.

(** [Threader_check_state] on the object; reading the state of a NULL
    panel is undefined. *)
Definition Threader_check_state (self : Threader)
  : outcome (Z * option Threader.py_exception) :=
  if negb (th_threader self)
  then Ok (-1, Some (Threader.SystemError "Threader not initialised"))
  else
    panel ← defined (th_reference_panel self);
    Ok (ReferencePanel_check_state panel).

(** *** What [Threader_run] allocates and releases *)

Inductive resource : Type :=
| PathArray          (* the reference from PyArray_FROM_OTF *)
| MutationsBuffer    (* the PyMem_Malloc block *)
| MutationsArray.    (* the reference from PyArray_EMPTY *)

Inductive mem_event : Type :=
| Acquire (r : resource)
| Release (r : resource)     (* Py_XDECREF or PyMem_Free *)
| Hand_over (r : resource).  (* returned to the caller *)

#[global] Instance resource_eq_dec : EqDecision resource.
Proof. solve_decision. Defined.

#[global] Instance mem_event_eq_dec : EqDecision mem_event.
Proof. solve_decision. Defined.

(** [Threader_run] with the acquisitions and releases along its path;
    [out:] releases the path array when there is one. *)
Definition Threader_run_traced (c : Threader.call)
  : Threader.py_result * list mem_event :=
  match Threader.Threader_check_state c with
  | Some e => (Threader.Raised e, [])
  | None =>
      if negb (Threader.args_parsed c) then (Threader.Raised Threader.TypeError, [])
      else if Threader.num_haplotypes c <=? Threader.haplotype_index c
      then (Threader.Raised (Threader.ValueError "haplotype_index out of bounds"), [])
      else
        match Threader.path_array c with
        | None => (Threader.Raised Threader.ConversionError, [])
        | Some (ndim, shape0) =>
            let out r events :=
              (r, Acquire PathArray :: (events ++ [Release PathArray])) in
            if negb (ndim =? 1)
            then out (Threader.Raised (Threader.ValueError "Dim != 1")) []
            else if negb (shape0 `mod` 2 ^ 32 =? Threader.num_sites c)
            then out (Threader.Raised (Threader.ValueError "input path wrong size")) []
            else if negb (Threader.mutations_allocated c)
            then out (Threader.Raised Threader.MemoryError) []
            else if negb (Threader.mutations_array_allocated c)
            then out (Threader.Raised Threader.MemoryError) [Acquire MutationsBuffer]
            else
              out (Threader.Returned
                     (take (Threader.num_mutations c) (Threader.mutations c)))
                [Acquire MutationsBuffer; Acquire MutationsArray;
                 Hand_over MutationsArray]
        end
  end.

(** The resources still held when the call returns. *)
Definition leaked (events : list mem_event) (r : resource) : Prop :=
  Acquire r ∈ events ∧ (Release r ∉ events) ∧ (Hand_over r ∉ events).

End Binding.

(** * Properties *)

(** ** Vocabulary of the statements *)

(** What finalisation leaves untouched. *)
Definition same_data (self self' : ancestor_builder_t) : Prop :=
  num_samples self' = num_samples self ∧ num_sites self' = num_sites self ∧
  sites self' = sites self ∧ frequency_map self' = frequency_map self ∧
  genotype_bufs (allocator self') = genotype_bufs (allocator self).

(** The descriptors that the split loop leaves for the positions [k0],
    ..., [k0 + c - 1] of the array [p]. *)
Definition split_result (j p k0 c : nat) : list ancestor_descriptor_t :=
  (λ i, mk_descriptor j (Some (p, i)) 1) <$> seq k0 c.

(** A descriptor with the single focal site [x.2] at frequency [x.1]. *)
Definition describes (self : ancestor_builder_t) (d : ancestor_descriptor_t)
    (x : nat * site_id_t) : Prop :=
  d_frequency d = x.1 ∧ d_num_focal_sites d = 1 ∧
  descriptor_focal_sites self d = Ok [x.2].

(** What an entry, a pattern map and the whole frequency map contribute:
    one (frequency, focal site) pair per listed site, the sites of an
    entry in the reverse order of its linked list. *)
Definition entry_emission (j : nat) (m : pattern_map_t) : list (nat * site_id_t) :=
  (λ s, (j, s)) <$> rev (pm_sites m).

Definition tree_emission (j : nat) (tree : avl_tree_t) : list (nat * site_id_t) :=
  tree ≫= entry_emission j.

Definition map_emission (fm : list avl_tree_t) (js : list nat)
  : list (nat * site_id_t) :=
  js ≫= λ j, tree_emission j (default [] (fm !! j)).

(** The frequencies that finalisation visits, in order. *)
Definition visited_frequencies (self : ancestor_builder_t) : list nat :=
  rev (seq 2 (num_samples self - 1)).

(** The emitted descriptors are the one-site descriptors of [exp]. *)
Definition emits (self : ancestor_builder_t) (exp : list (nat * site_id_t)) : Prop :=
  Forall2 (describes self) (emitted_descriptors self) exp ∧
  (num_ancestors self ≤ length (descriptors self))%nat.

(** The linked list of an entry has as many nodes as its counter says. *)
Definition entry_ok (m : pattern_map_t) : Prop :=
  length (pm_sites m) = pm_num_sites m.

Definition maps_ok (fm : list avl_tree_t) : Prop :=
  Forall (Forall entry_ok) fm.

(** The descriptors [block] are those of the entry [m] of the pattern
    map of frequency [j]: as many as the entry lists sites, all of
    frequency [j], each with one focal site, the sites of the list taken
    in the reverse order. *)
Definition entry_block (self : ancestor_builder_t) (j : nat) (m : pattern_map_t)
    (block : list ancestor_descriptor_t) : Prop :=
  length block = pm_num_sites m ∧ length (pm_sites m) = pm_num_sites m ∧
  Forall2 (λ d s, d_frequency d = j ∧ d_num_focal_sites d = 1 ∧
                  descriptor_focal_sites self d = Ok [s])
    block (rev (pm_sites m)).

(** The entry [m] after site [l] has been put in front of its list. *)
Definition add_to_entry (l : site_id_t) (m : pattern_map_t) : pattern_map_t :=
  mk_pattern_map (pm_genotypes m) (pm_num_samples m) (l :: pm_sites m)
    (S (pm_num_sites m)).

(** The bytes that store a genotype vector. *)
Definition bytes (g : list allele_t) : list Z := byte_of_allele <$> g.

(** How a successful [add_site l frequency g] with
    [frequency > 1] changes the pattern map [tree] of its frequency:
    either the entry at [i], whose buffer holds the same bytes, receives
    the site, or no entry holds these bytes and a new entry with a fresh
    buffer [p] is linked in at [i]. *)
Definition tree_hit (self : ancestor_builder_t) (l : site_id_t)
    (g : list allele_t) (tree tree' : avl_tree_t) (p : nat) : Prop :=
  ∃ i m buf,
    tree !! i = Some m ∧ pm_genotypes m = p ∧
    genotype_bufs (allocator self) !! p = Some buf ∧
    memcmp g buf (num_samples self) = Ok 0 ∧
    tree' = <[i := add_to_entry l m]> tree.

Definition tree_miss (self : ancestor_builder_t) (l : site_id_t)
    (g : list allele_t) (tree tree' : avl_tree_t) (p : nat) : Prop :=
  (∀ i m, tree !! i = Some m →
     ∃ buf c, genotype_bufs (allocator self) !! pm_genotypes m = Some buf ∧
              memcmp g buf (num_samples self) = Ok c ∧ c ≠ 0) ∧
  p = length (genotype_bufs (allocator self)) ∧
  (num_samples self ≤ length g)%nat ∧
  ∃ i, (i ≤ length tree)%nat ∧
       tree' = take i tree
               ++ mk_pattern_map p (num_samples self) [l] 1 :: drop i tree.

(** The effect of a successful [add_site]. *)
Definition add_site_effect (self : ancestor_builder_t) (l : site_id_t)
    (frequency : nat) (g : list allele_t) (self' : ancestor_builder_t)
  : Prop :=
  num_samples self' = num_samples self ∧ num_sites self' = num_sites self ∧
  descriptors self' = descriptors self ∧
  num_ancestors self' = num_ancestors self ∧
  site_arrays (allocator self') = site_arrays (allocator self) ∧
  ∃ old, sites self !! l = Some old ∧
    if (1 <? frequency)%nat then
      ∃ tree tree' p,
        frequency_map self !! frequency = Some tree ∧
        frequency_map self' = <[frequency := tree']> (frequency_map self) ∧
        sites self' = <[l := mk_site frequency (Some p)]> (sites self) ∧
        ((tree_hit self l g tree tree' p ∧
          genotype_bufs (allocator self') = genotype_bufs (allocator self)) ∨
         (tree_miss self l g tree tree' p ∧
          genotype_bufs (allocator self')
          = genotype_bufs (allocator self) ++ [take (num_samples self) g]))
    else
      frequency_map self' = frequency_map self ∧
      sites self' = <[l := mk_site frequency (genotypes old)]> (sites self) ∧
      genotype_bufs (allocator self') = genotype_bufs (allocator self).

(** An [add_site] call: site, frequency, genotypes. *)
Abbreviation call_t := (site_id_t * nat * list allele_t)%type (only parsing).

Definition call_site (c : call_t) : site_id_t := c.1.1.
Definition call_frequency (c : call_t) : nat := c.1.2.
Definition call_genotypes (c : call_t) : list allele_t := c.2.

(** The (frequency, site) pairs of the calls that enter a pattern map. *)
Definition mapped_calls (calls : list call_t) : list (nat * site_id_t) :=
  (λ c, (call_frequency c, call_site c))
    <$> filter (λ c, (2 ≤ call_frequency c)%nat) calls.

(** What holds of a builder between allocation and finalisation. *)
Definition builder_inv (self : ancestor_builder_t) : Prop :=
  length (frequency_map self) = S (num_samples self) ∧
  maps_ok (frequency_map self) ∧
  site_arrays (allocator self) = [].

(** The claim of a strictly decreasing frequency along the descriptors. *)
Definition strictly_decreasing_frequencies (self : ancestor_builder_t) : Prop :=
  ∀ i j di dj, (i < j)%nat →
    emitted_descriptors self !! i = Some di →
    emitted_descriptors self !! j = Some dj →
    (d_frequency dj < d_frequency di)%nat.

(** The number of occurrences of a site in a list. *)
Definition occurrences (l : site_id_t) (ls : list site_id_t) : nat :=
  length (filter (λ x, x = l) ls).

(** The claim that every focal-site array is in ascending order. *)
Definition focal_arrays_ascending (self : ancestor_builder_t) : Prop :=
  ∀ array, array ∈ site_arrays (allocator self) → StronglySorted le array.

(** The arrays that finalisation materialises: for each visited entry,
    its linked list reversed. *)
Definition materialised_arrays (fm : list avl_tree_t) (js : list nat)
  : list (list site_id_t) :=
  js ≫= λ j, (λ m, rev (pm_sites m)) <$> default [] (fm !! j).

(** The canonical genotype buffers of the pattern map of frequency [f]. *)
Definition pattern_buffers (self : ancestor_builder_t) (f : nat) : list nat :=
  pm_genotypes <$> default [] (frequency_map self !! f).

(** The bytes that call [c] supplies: the first [ns] alleles of its
    genotype vector. *)
Definition call_bytes (ns : nat) (c : call_t) : list Z :=
  bytes (take ns (call_genotypes c)).

(** Call [k] is the last one that adds its site. *)
Definition last_call_of_site (calls : list call_t) (k : nat) (l : site_id_t) : Prop :=
  ∀ k' c', (k < k')%nat → calls !! k' = Some c' → call_site c' ≠ l.

(** Call [k0] is the first one with the frequency [f] and the bytes [bs]. *)
Definition first_call_of_pattern (ns : nat) (calls : list call_t) (k0 : nat)
    (f : nat) (bs : list Z) : Prop :=
  ∀ k' c', (k' < k0)%nat → calls !! k' = Some c' →
    ¬ (call_frequency c' = f ∧ call_bytes ns c' = bs).

(** The invariant that relates sites, pattern maps and buffers to the
    calls made so far. *)
Record dedup_inv (self : ancestor_builder_t) (calls : list call_t) : Prop := {
  (* every canonical buffer is the copy made at the first call with its
     frequency and bytes *)
  dedup_canonical : ∀ f p, p ∈ pattern_buffers self f →
    ∃ k0 c0, calls !! k0 = Some c0 ∧ call_frequency c0 = f ∧
      genotype_bufs (allocator self) !! p
      = Some (take (num_samples self) (call_genotypes c0)) ∧
      (num_samples self ≤ length (call_genotypes c0))%nat ∧
      first_call_of_pattern (num_samples self) calls k0 f
        (call_bytes (num_samples self) c0);
  (* a pattern map holds no two buffers with the same bytes *)
  dedup_distinct : ∀ f p1 p2 b1 b2,
    p1 ∈ pattern_buffers self f → p2 ∈ pattern_buffers self f →
    genotype_bufs (allocator self) !! p1 = Some b1 →
    genotype_bufs (allocator self) !! p2 = Some b2 →
    bytes b1 = bytes b2 → p1 = p2;
  (* every call with a frequency above one has its bytes in the map *)
  dedup_present : ∀ c, c ∈ calls → (2 ≤ call_frequency c)%nat →
    ∃ p buf, p ∈ pattern_buffers self (call_frequency c) ∧
      genotype_bufs (allocator self) !! p = Some buf ∧
      bytes buf = call_bytes (num_samples self) c;
  (* the site of such a call, unless added again later, points to it *)
  dedup_site : ∀ k c, calls !! k = Some c → (2 ≤ call_frequency c)%nat →
    last_call_of_site calls k (call_site c) →
    ∃ p buf,
      sites self !! call_site c = Some (mk_site (call_frequency c) (Some p)) ∧
      p ∈ pattern_buffers self (call_frequency c) ∧
      genotype_bufs (allocator self) !! p = Some buf ∧
      bytes buf = call_bytes (num_samples self) c
}.

(** *** Vocabulary for consensus propagation *)

(** The sample identifiers are indices below [ns]. *)
Definition valid_samples (ns : nat) (sample_set : list node_id_t) : Prop :=
  Forall (λ u, 0 ≤ u < Z.of_nat ns) sample_set.

(** The allele of sample [u] in a genotype vector. *)
Definition allele_at (genotypes : list allele_t) (u : node_id_t) : option allele_t :=
  genotypes !! Z.to_nat u.

(** The number of samples of the set that carry allele [a]. *)
Definition count_allele (a : allele_t) (genotypes : list allele_t)
    (sample_set : list node_id_t) : nat :=
  length (filter (λ u, allele_at genotypes u = Some a) sample_set).

(** Sample [u] carries a flag and disagrees with the consensus [c]. *)
Definition evicted (disagree : list bool) (genotypes : list allele_t)
    (c : allele_t) (u : node_id_t) : Prop :=
  disagree !! Z.to_nat u = Some true ∧ allele_at genotypes u ≠ Some c.

(** A state of the loop whose reads are all in bounds. *)
Definition valid_state (ns : nat) (st : older_state) : Prop :=
  valid_samples ns (os_sample_set st) ∧ length (os_disagree st) = ns.

(** [self->sites[l].frequency], zero beyond the array. *)
Definition site_frequency (self : ancestor_builder_t) (l : site_id_t) : nat :=
  default O (frequency <$> sites self !! l).

(** Every site of frequency two or more has a genotype buffer of
    [num_samples] alleles. *)
Definition genotypes_ok (self : ancestor_builder_t) : Prop :=
  length (sites self) = num_sites self ∧
  ∀ l s, sites self !! l = Some s → (2 ≤ frequency s)%nat →
    ∃ p buf, genotypes s = Some p ∧
             genotype_bufs (allocator self) !! p = Some buf ∧
             length buf = num_samples self.

(** The number of ones among the first [ns] alleles. *)
Definition derived_count (ns : nat) (g : list allele_t) : nat :=
  length (filter (λ a, a = 1) (take ns g)).

(** *** Well-formed runs *)

(** The number of descriptors that the entries of a pattern map need. *)
Definition listed_sites (tree : avl_tree_t) : nat :=
  sum_list (pm_num_sites <$> tree).

(** The assertion that finalisation makes on an entry shared by several
    sites holds: the samples that carry the derived allele at its first
    site can be read, and there are [j] of them unless assertions are
    off. *)
Definition entry_assertion (NDEBUG : bool) (self : ancestor_builder_t) (j : nat)
    (m : pattern_map_t) : Prop :=
  (1 < pm_num_sites m)%nat →
  ∃ site samples,
    rev (pm_sites m) !! O = Some site ∧
    ancestor_builder_get_consistent_samples self site = Ok samples ∧
    (NDEBUG = true ∨ length samples = j).

(** Every later request to the arena succeeds. *)
Definition arena_serves (a : block_allocator_t) : Prop :=
  ∀ i, (requests a ≤ i)%nat → chunk_ok a i = true.

(** ** Concrete runs *)

Definition empty_builder : ancestor_builder_t :=
  mk_builder O O 0 [] [] [] O (mk_allocator (λ _, true) O [] []).

Definition the_builder (o : outcome ancestor_builder_t) : ancestor_builder_t :=
  match o with
  | Ok self => self
  | _ => empty_builder
  end.

(** Four samples, three sites; sites 0 and 1 carry the same pattern. *)
Definition dedup_calls : list call_t :=
  [(0%nat, 2%nat, [1; 1; 0; 0]); (1%nat, 2%nat, [1; 1; 0; 0]);
   (2%nat, 2%nat, [0; 1; 1; 0])].

Definition dedup_allocated : ancestor_builder_t :=
  Eval vm_compute in
    the_builder (ancestor_builder_alloc false 4 3 0 true true (λ _, true)).

Definition dedup_filled : ancestor_builder_t :=
  Eval vm_compute in the_builder (add_sites false dedup_allocated dedup_calls).

Definition dedup_finalised : ancestor_builder_t :=
  Eval vm_compute in the_builder (ancestor_builder_finalise false dedup_filled true).

(** The same pattern, added at site 1 before site 0. *)
Definition swapped_calls : list call_t :=
  [(1%nat, 2%nat, [1; 1; 0; 0]); (0%nat, 2%nat, [1; 1; 0; 0]);
   (2%nat, 3%nat, [0; 1; 1; 1])].

Definition swapped_filled : ancestor_builder_t :=
  Eval vm_compute in the_builder (add_sites false dedup_allocated swapped_calls).

Definition swapped_finalised : ancestor_builder_t :=
  Eval vm_compute in the_builder (ancestor_builder_finalise false swapped_filled true).

(** A call of [Threader.run] that passes validation, in which the HMM
    reports error [-2] and leaves two mutations. *)
Definition failing_hmm_call : Threader.call :=
  Threader.mk_call true true true 1 5 3 (Some (1, 3)) true (-2) 2 [0; 2; 7] true.

(** Five samples, four sites. Site 0 (frequency 3) is the focal site;
    sites 1 and 2 carry the same older pattern, with which sample 2
    disagrees twice; at site 3 the two remaining samples are tied. *)
Definition eviction_calls : list call_t :=
  [(0%nat, 3%nat, [1; 1; 1; 0; 0]); (1%nat, 4%nat, [1; 1; 0; 1; 1]);
   (2%nat, 4%nat, [1; 1; 0; 1; 1]); (3%nat, 4%nat, [0; 1; 1; 1; 1])].

Definition eviction_allocated : ancestor_builder_t :=
  Eval vm_compute in
    the_builder (ancestor_builder_alloc false 5 4 0 true true (λ _, true)).

Definition eviction_filled : ancestor_builder_t :=
  Eval vm_compute in the_builder (add_sites false eviction_allocated eviction_calls).

Definition eviction_finalised : ancestor_builder_t :=
  Eval vm_compute in
    the_builder (ancestor_builder_finalise false eviction_filled true).

(** The descriptor of the focal site 0. *)
Definition eviction_descriptor : ancestor_descriptor_t :=
  Eval vm_compute in
    default (mk_descriptor O None 0) (emitted_descriptors eviction_finalised !! 3%nat).

(** The states of the pass to the right of site 0: at entry, after site
    1 and after site 2. *)
Definition the_state (o : outcome (loop_step older_state)) (d : older_state)
  : older_state :=
  match o with
  | Ok (Continue st) => st
  | _ => d
  end.

Definition eviction_state_0 : older_state :=
  mk_older_state [1; -1; -1; -1] [0; 1; 2] [false; false; false; false; false] 0.

Definition eviction_state_1 : older_state :=
  Eval vm_compute in
    the_state (older_site_step eviction_finalised 1 eviction_state_0 1) eviction_state_0.

Definition eviction_state_2 : older_state :=
  Eval vm_compute in
    the_state (older_site_step eviction_finalised 1 eviction_state_1 2) eviction_state_0.

(** ** Vocabulary for the builder between calls *)

(** What [check_state] asserts of an entry of the pattern map of
    frequency [f]: its buffer has [f] ones among the first [num_samples]
    alleles, its counter is the length of its list, and every listed
    site has frequency [f] and points to the buffer of the entry. *)
Definition entry_consistent (self : ancestor_builder_t) (f : nat)
    (m : pattern_map_t) : Prop :=
  (∃ buf, genotype_bufs (allocator self) !! pm_genotypes m = Some buf ∧
          (num_samples self ≤ length buf)%nat ∧
          derived_count (num_samples self) buf = f) ∧
  pm_num_sites m = length (pm_sites m) ∧
  ∀ l, l ∈ pm_sites m →
    ∃ s, sites self !! l = Some s ∧ frequency s = f ∧
         genotypes s = Some (pm_genotypes m).

(** Every entry of every pattern map is consistent. *)
Definition state_consistent (self : ancestor_builder_t) : Prop :=
  ∀ f tree m, (f ≤ num_samples self)%nat →
    frequency_map self !! f = Some tree → m ∈ tree → entry_consistent self f m.

(** The sites listed in the pattern maps were added by [calls], with the
    frequency of the map and the buffer of the entry that lists them; no
    entry is empty, and the maps of the frequencies 0 and 1 are. *)
Definition listing_inv (self : ancestor_builder_t) (calls : list call_t) : Prop :=
  ∀ f tree m, frequency_map self !! f = Some tree → m ∈ tree →
    (2 ≤ f)%nat ∧ (1 ≤ pm_num_sites m)%nat ∧
    ∀ l, l ∈ pm_sites m →
      l ∈ (call_site <$> calls) ∧
      sites self !! l = Some (mk_site f (Some (pm_genotypes m))).

(** The calls that an allocated builder for [ns] samples and [nsites]
    sites accepts. *)
Definition call_ok (ns nsites : nat) (c : call_t) : Prop :=
  (call_site c < nsites)%nat ∧ (call_frequency c ≤ ns)%nat ∧
  (ns ≤ length (call_genotypes c))%nat.

(** The frequency of a call is the number of ones of its genotypes. *)
Definition call_counted (ns : nat) (c : call_t) : Prop :=
  call_frequency c = derived_count ns (call_genotypes c).

(** *** The order of the pattern maps *)

(** The buffer at [p1] compares below the buffer at [p2]. *)
Definition buffer_lt (self : ancestor_builder_t) (p1 p2 : nat) : Prop :=
  ∃ b1 b2 c,
    genotype_bufs (allocator self) !! p1 = Some b1 ∧
    genotype_bufs (allocator self) !! p2 = Some b2 ∧
    cmp_pattern_map b1 (num_samples self) b2 = Ok c ∧ c < 0.

(** Every pattern map lists its entries in strictly ascending order of
    their buffers. *)
Definition maps_sorted (self : ancestor_builder_t) : Prop :=
  ∀ f, StronglySorted (buffer_lt self) (pattern_buffers self f).

(** The genotypes of site [l1] do not compare above those of [l2]. *)
Definition site_le (self : ancestor_builder_t) (l1 l2 : site_id_t) : Prop :=
  ∃ b1 b2 c,
    site_genotypes self l1 = Ok b1 ∧ site_genotypes self l2 = Ok b2 ∧
    cmp_pattern_map b1 (num_samples self) b2 = Ok c ∧ c ≤ 0.

(** The order in which finalisation emits (frequency, focal site)
    pairs: by decreasing frequency, then by ascending genotypes. *)
Definition emission_order (self : ancestor_builder_t) (x y : nat * site_id_t)
  : Prop :=
  (y.1 < x.1)%nat ∨ (x.1 = y.1 ∧ site_le self x.2 y.2).

(** *** The requests of finalisation *)

(** The entries that finalisation visits, in order: those of the pattern
    maps of the frequencies [num_samples] down to 2. *)
Definition visited_entries (self : ancestor_builder_t) : list pattern_map_t :=
  visited_frequencies self ≫= λ j, default [] (frequency_map self !! j).

(** The builder of the de-duplication run after its first call. *)
Definition dedup_first : ancestor_builder_t :=
  Eval vm_compute in
    the_builder (ancestor_builder_add_site false dedup_allocated 0 2 [1; 1; 0; 0]).

(** A builder whose arena refuses its third request. *)
Definition starved_oracle (i : nat) : bool := negb (i =? 2)%nat.

Definition starved_allocated : ancestor_builder_t :=
  the_builder (ancestor_builder_alloc false 4 3 0 true true starved_oracle).

(** The de-duplication run, finalised a second time. *)
Definition dedup_refinalised : ancestor_builder_t :=
  Eval vm_compute in
    the_builder (ancestor_builder_finalise false dedup_finalised true).

(** A builder whose arena serves four requests only, after one call. *)
Definition tight_oracle (i : nat) : bool := (i <? 4)%nat.

Definition tight_filled : ancestor_builder_t :=
  the_builder
    (add_sites false
       (the_builder (ancestor_builder_alloc false 4 3 0 true true tight_oracle))
       [(0%nat, 2%nat, [1; 1; 0; 0])]).

(** ** Reasoning about outcomes *)

Lemma bind_Ok {A B : Type} (m : outcome A) (f : A → outcome B) (b : B) :
  m ≫= f = Ok b → ∃ a, m = Ok a ∧ f a = Ok b.
Proof. destruct m; simpl; intros H; try discriminate. eauto. Qed.

Lemma defined_Ok {A : Type} (o : option A) (a : A) : defined o = Ok a → o = Some a.
Proof. destruct o; simpl; congruence. Qed.

Ltac inv_bind H :=
  let a := fresh "x" in
  let Ha := fresh "E" in
  apply bind_Ok in H as (a & Ha & H).

Tactic Notation "bind_inv" hyp(H) "as" ident(a) ident(Ha) :=
  apply bind_Ok in H as (a & Ha & H).

Ltac inv_Ok :=
  repeat match goal with
  | H : Ok _ = Ok _ |- _ => injection H as H; subst
  | H : defined _ = Ok _ |- _ => apply defined_Ok in H
  | H : Fail _ = Ok _ |- _ => discriminate H
  | H : Undef = Ok _ |- _ => discriminate H
  end.

(** ** Finalisation *)

Lemma fill_focal_sites_rev (s focal_sites : list site_id_t) :
  (length s ≤ length focal_sites)%nat →
  fill_focal_sites focal_sites (Z.of_nat (length s) - 1) s
  = Ok (rev s ++ drop (length s) focal_sites).
Proof.
  revert focal_sites. induction s as [|site next IH]; intros arr Hlen.
  - by rewrite drop_0.
  - cbn [fill_focal_sites length rev] in *.
    replace (Z.of_nat (S (length next)) - 1) with (Z.of_nat (length next)) by lia.
    rewrite Nat2Z.id.
    replace (0 <=? Z.of_nat (length next)) with true by (symmetry; apply Z.leb_le; lia).
    replace (length next <? length arr)%nat with true by (symmetry; apply Nat.ltb_lt; lia).
    cbn [andb].
    rewrite IH by (rewrite length_insert; lia).
    rewrite <- app_assoc. do 2 f_equal.
    rewrite (drop_S _ site) by (apply list_lookup_insert_eq; lia).
    cbn [app]. f_equal. apply drop_insert_lt. lia.
Qed.

Lemma update_descriptor_Ok self i f self' :
  update_descriptor self i f = Ok self' →
  ∃ d, descriptors self !! i = Some d ∧
       self' = set_descriptors self (<[i := f d]> (descriptors self)).
Proof.
  unfold update_descriptor. intros H. inv_bind H. inv_Ok. eauto.
Qed.

Lemma split_descriptors_spec (c : nat) :
  ∀ self j m p n0 k0 self',
  num_ancestors self = S (n0 + k0) →
  (k0 + c + 1)%nat = pm_num_sites m →
  descriptors self !! (n0 + k0)%nat
  = Some (mk_descriptor j (Some (p, k0)) (Z.of_nat (pm_num_sites m) - Z.of_nat k0)) →
  split_descriptors self j m p (n0 + k0) (seq k0 c) = Ok self' →
  num_ancestors self' = (n0 + pm_num_sites m)%nat ∧
  (n0 + pm_num_sites m ≤ length (descriptors self))%nat ∧
  descriptors self'
  = take (n0 + k0) (descriptors self) ++ split_result j p k0 (S c)
    ++ drop (n0 + pm_num_sites m) (descriptors self) ∧
  same_data self self' ∧ allocator self' = allocator self.
Proof.
  induction c as [|c IH]; intros self j m p n0 k0 self' Hn HN Hcur H.
  - cbn in H. inv_Ok.
    assert (pm_num_sites m = S k0) as HN' by lia.
    apply lookup_lt_Some in Hcur as Hlt.
    split_and!; try done; try lia.
    unfold split_result. cbn [seq fmap list_fmap app].
    rewrite HN'. replace (n0 + S k0)%nat with (S (n0 + k0)) by lia.
    replace 1 with (Z.of_nat (pm_num_sites m) - Z.of_nat k0) by lia.
    symmetry. apply take_drop_middle. done.
  - cbn [seq split_descriptors] in H.
    inv_bind H. inv_Ok. rewrite Hcur in E. injection E as <-.
    cbn in H. inv_bind H.
    apply update_descriptor_Ok in E as (d & Hd & ->).
    rewrite Hcur in Hd. injection Hd as <-.
    cbn in H. inv_bind H.
    apply update_descriptor_Ok in E as (d' & Hd' & ->).
    cbn in *. rewrite Hn in *.
    apply lookup_lt_Some in Hd' as Hlt. rewrite length_insert in Hlt.
    replace (k0 + 1)%nat with (S k0) in * by lia.
    replace (S (n0 + k0)) with (n0 + S k0)%nat in * by lia.
    apply (IH _ j m p n0 (S k0)) in H; cbn; [|lia|lia|].
    2:{ rewrite list_lookup_insert_eq by (rewrite length_insert; lia).
        do 2 f_equal. lia. }
    destruct H as (H1 & H2 & H3 & H4 & H5).
    unfold same_data in *. cbn in H2, H3, H4, H5.
    rewrite !length_insert in H2.
    split_and!; try done.
    rewrite H3.
    replace (n0 + S k0)%nat with (S (n0 + k0)) by lia.
    rewrite take_insert_ge by lia.
    rewrite drop_insert_lt by lia. rewrite drop_insert_lt by lia.
    rewrite (take_S_r _ _ (mk_descriptor j (Some (p, k0)) 1)).
    2:{ rewrite list_lookup_insert_eq by (apply lookup_lt_Some in Hcur; lia).
        do 2 f_equal. lia. }
    rewrite take_insert_ge by lia.
    unfold split_result. cbn [seq fmap list_fmap]. by rewrite <- app_assoc.
    all: by destruct H4 as (?&?&?&?&?).
Qed.

Lemma insert_at_end {A : Type} (l : list A) (x y : A) :
  <[length l := x]> (l ++ [y]) = l ++ [x].
Proof.
  replace (length l) with (length l + 0)%nat at 1 by lia.
  by rewrite insert_app_r.
Qed.

Lemma finalise_entry_spec NDEBUG self j m self' :
  length (pm_sites m) = pm_num_sites m →
  finalise_entry NDEBUG self j m = Ok self' →
  (1 ≤ pm_num_sites m)%nat ∧
  num_ancestors self' = (num_ancestors self + pm_num_sites m)%nat ∧
  (num_ancestors self + pm_num_sites m ≤ length (descriptors self))%nat ∧
  descriptors self'
  = take (num_ancestors self) (descriptors self)
    ++ split_result j (length (site_arrays (allocator self))) 0 (pm_num_sites m)
    ++ drop (num_ancestors self + pm_num_sites m) (descriptors self) ∧
  site_arrays (allocator self')
  = site_arrays (allocator self) ++ [rev (pm_sites m)] ∧
  same_data self self'.
Proof.
  intros Hlen H. unfold finalise_entry in H.
  inv_bind H. apply update_descriptor_Ok in E as (d & Hd & ->).
  cbn in Hd, H.
  destruct (chunk_ok (allocator self) (requests (allocator self))); [|done].
  cbn in H. inv_bind H. apply update_descriptor_Ok in E as (d' & Hd' & ->).
  cbn in Hd', H.
  apply lookup_lt_Some in Hd as Hlt.
  rewrite list_lookup_insert_eq in Hd' by done. injection Hd' as <-. cbn in H.
  inv_bind H. rewrite <- Hlen in E at 2.
  rewrite fill_focal_sites_rev in E by (rewrite length_replicate; lia).
  inv_Ok. rewrite drop_ge, app_nil_r in H by (rewrite length_replicate; lia).
  inv_bind H. clear E x.
  destruct (pm_num_sites m =? 0)%nat eqn:E0; [done|].
  apply Nat.eqb_neq in E0.
  match type of H with
  | split_descriptors ?s _ _ _ _ _ = _ =>
      pose proof (split_descriptors_spec (pm_num_sites m - 1) s j m
                    (length (site_arrays (allocator self)))
                    (num_ancestors self) 0 self') as Hs
  end.
  rewrite Nat.add_0_r in Hs.
  specialize (Hs eq_refl ltac:(lia)).
  cbn in Hs. rewrite list_lookup_insert_eq in Hs by (by rewrite length_insert).
  rewrite Z.sub_0_r in Hs. specialize (Hs eq_refl H).
  destruct Hs as (H1 & H2 & H3 & H4 & H5).
  rewrite !length_insert in H2.
  unfold same_data in *. cbn in H4.
  rewrite H5. cbn. rewrite insert_at_end.
  split_and!; try done; try lia; try tauto.
  rewrite H3. clear H H3.
  destruct (pm_num_sites m) as [|N'] eqn:EN; [lia|].
  cbn [Nat.sub]. rewrite Nat.sub_0_r.
  rewrite !take_insert_ge by lia. by rewrite !drop_insert_lt by lia.
Qed.

Lemma describes_arrays_app self self' d x :
  (∃ extra, site_arrays (allocator self')
            = site_arrays (allocator self) ++ extra) →
  describes self d x → describes self' d x.
Proof.
  intros [extra He] (Hf & Hn & Hd). split_and!; try done.
  unfold descriptor_focal_sites in *.
  inv_bind Hd. destruct x0 as [p off]. inv_bind Hd. inv_Ok.
  rewrite E. cbn. rewrite He, (lookup_app_l_Some _ _ _ _ E0). cbn. done.
Qed.

Lemma split_result_describes self j p (s : list site_id_t) :
  site_arrays (allocator self) !! p = Some s →
  Forall2 (describes self) (split_result j p 0 (length s)) ((λ x, (j, x)) <$> s).
Proof.
  intros Hp. apply Forall2_same_length_lookup_2.
  - unfold split_result. by rewrite !length_fmap, length_seq.
  - intros i d x Hd Hx. unfold split_result in Hd.
    rewrite list_lookup_fmap in Hd. rewrite list_lookup_fmap in Hx.
    destruct (s !! i) as [y|] eqn:Hy; [|done].
    apply lookup_lt_Some in Hy as Hlt.
    rewrite lookup_seq_lt in Hd by done. cbn in Hd, Hx.
    injection Hd as <-. injection Hx as <-.
    split_and!; try done. unfold descriptor_focal_sites. cbn. rewrite Hp. cbn.
    change (Z.to_nat 1) with 1%nat.
    replace (i + 1 <=? length s)%nat with true by (symmetry; apply Nat.leb_le; lia).
    by rewrite (drop_S _ _ _ Hy).
Qed.

Lemma finalise_entry_emits NDEBUG self j m self' exp :
  entry_ok m → emits self exp →
  finalise_entry NDEBUG self j m = Ok self' →
  emits self' (exp ++ entry_emission j m) ∧ same_data self self'.
Proof.
  intros Hm [Hexp Hcap] H.
  apply finalise_entry_spec in H as (HN & Hn & Hle & Hd & Ha & Hs); [|done].
  split; [|done]. split; [|rewrite Hd, !length_app, length_take, length_drop;
    unfold split_result; rewrite length_fmap, length_seq; lia].
  unfold emitted_descriptors in *. rewrite Hn, Hd.
  rewrite app_assoc, take_app_length'.
  2:{ rewrite length_app, length_take. unfold split_result.
      rewrite length_fmap, length_seq. lia. }
  apply Forall2_app.
  - eapply Forall2_impl; [exact Hexp|]. intros d x. apply describes_arrays_app. eauto.
  - unfold entry_emission.
    replace (pm_num_sites m) with (length (rev (pm_sites m)))
      by (rewrite length_rev; exact Hm).
    apply split_result_describes. rewrite Ha.
    rewrite lookup_app_r by done. by rewrite Nat.sub_diag.
Qed.

Lemma same_data_refl self : same_data self self.
Proof. by unfold same_data. Qed.

Lemma same_data_trans s1 s2 s3 : same_data s1 s2 → same_data s2 s3 → same_data s1 s3.
Proof. unfold same_data. intros (?&?&?&?&?) (?&?&?&?&?). split_and!; congruence. Qed.

Lemma finalise_entries_emits NDEBUG j tree : ∀ self self' exp,
  Forall entry_ok tree → emits self exp →
  finalise_entries NDEBUG self j tree = Ok self' →
  emits self' (exp ++ tree_emission j tree) ∧ same_data self self'.
Proof.
  induction tree as [|m next IH]; intros self self' exp Hok Hexp H; cbn in H.
  - inv_Ok. unfold tree_emission. cbn. rewrite app_nil_r.
    auto using same_data_refl.
  - apply Forall_cons in Hok as [Hm Hok]. inv_bind H.
    apply (finalise_entry_emits _ _ _ _ _ exp) in E as [He Hs]; [|done..].
    apply (IH _ _ _ Hok He) in H as [He' Hs'].
    unfold tree_emission in *. rewrite bind_cons, app_assoc.
    eauto using same_data_trans.
Qed.

Lemma finalise_frequencies_emits NDEBUG js : ∀ self self' exp,
  maps_ok (frequency_map self) → emits self exp →
  finalise_frequencies NDEBUG self js = Ok self' →
  emits self' (exp ++ map_emission (frequency_map self) js) ∧ same_data self self'.
Proof.
  induction js as [|j js IH]; intros self self' exp Hok Hexp H; cbn in H.
  - inv_Ok. unfold map_emission. cbn. rewrite app_nil_r.
    auto using same_data_refl.
  - inv_bind H. inv_Ok. inv_bind H.
    apply (finalise_entries_emits _ _ _ _ _ exp) in E0 as [He Hs]; [| |done].
    2:{ unfold maps_ok in Hok. rewrite Forall_lookup in Hok. eauto. }
    assert (frequency_map x0 = frequency_map self) as Hfm by apply Hs.
    apply (IH _ _ _ ltac:(by rewrite Hfm) He) in H as [He' Hs'].
    unfold map_emission in *. rewrite bind_cons, app_assoc, E. cbn.
    rewrite Hfm in He'. eauto using same_data_trans.
Qed.

(** Finalisation emits, for every entry of the frequency map, one
    single-site descriptor per listed site. *)
Lemma finalise_emits NDEBUG self malloc_ok self' :
  maps_ok (frequency_map self) →
  ancestor_builder_finalise NDEBUG self malloc_ok = Ok self' →
  emits self' (map_emission (frequency_map self) (visited_frequencies self)) ∧
  same_data self self'.
Proof.
  intros Hok H. unfold ancestor_builder_finalise in H.
  destruct malloc_ok; [|done]. cbn in H.
  assert (emits (set_num_ancestors self 0) []) as He
    by (split; [unfold emitted_descriptors; cbn; constructor|cbn; lia]).
  apply (finalise_frequencies_emits _ _ (set_num_ancestors self 0) _ [] Hok He) in H.
  exact H.
Qed.

(** ** Adding sites *)

Lemma avl_search_Some self tree key n i :
  avl_search self tree key n = Ok (Some i) →
  ∃ m buf, tree !! i = Some m ∧
           genotype_bufs (allocator self) !! pm_genotypes m = Some buf ∧
           memcmp key buf n = Ok 0.
Proof.
  revert i. induction tree as [|item rest IH]; intros i H; cbn in H; [done|].
  inv_bind H. unfold load_genotypes in E. inv_Ok. inv_bind H.
  unfold cmp_pattern_map in E0. rewrite Nat.mul_1_r in E0.
  destruct (x0 =? 0) eqn:Hc.
  - inv_Ok. apply Z.eqb_eq in Hc as ->. exists item, x. done.
  - inv_bind H. destruct x1 as [i'|]; [|done]. cbn in H. simplify_eq.
    apply IH in E1 as (m & buf & ? & ? & ?). exists m, buf. done.
Qed.

Lemma avl_search_None self tree key n :
  avl_search self tree key n = Ok None →
  ∀ i m, tree !! i = Some m →
    ∃ buf c, genotype_bufs (allocator self) !! pm_genotypes m = Some buf ∧
             memcmp key buf n = Ok c ∧ c ≠ 0.
Proof.
  induction tree as [|item rest IH]; intros H i m Hi; cbn in H; [done|].
  inv_bind H. unfold load_genotypes in E. inv_Ok. inv_bind H.
  unfold cmp_pattern_map in E0. rewrite Nat.mul_1_r in E0.
  destruct (x0 =? 0) eqn:Hc; [done|].
  inv_bind H. destruct x1; [done|].
  destruct i as [|i]; cbn in Hi.
  - simplify_eq. exists x, x0. apply Z.eqb_neq in Hc. done.
  - eauto.
Qed.

Lemma avl_insert_node_Some self tree node i tree' :
  avl_insert_node self tree node = Ok (Some (i, tree')) →
  (i ≤ length tree)%nat ∧ tree' = take i tree ++ node :: drop i tree.
Proof.
  revert i tree'. induction tree as [|item rest IH]; intros i tree' H; cbn in H.
  - by simplify_eq.
  - inv_bind H. inv_bind H. inv_bind H.
    destruct (x1 =? 0); [done|]. destruct (x1 <? 0).
    + simplify_eq. cbn. split; [lia|done].
    + inv_bind H. destruct x2 as [[i' t']|]; [|done].
      cbn in H. simplify_eq.
      apply IH in E2 as [? ->]. cbn. split; [lia|done].
Qed.

Lemma set_site_Ok self l f self' :
  set_site self l f = Ok self' →
  ∃ old, sites self !! l = Some old ∧
         self' = set_sites self (<[l := f old]> (sites self)).
Proof. unfold set_site. intros H. inv_bind H. inv_Ok. eauto. Qed.

Lemma update_map_elem_Ok self frequency i f self' :
  update_map_elem self frequency i f = Ok self' →
  ∃ tree m, frequency_map self !! frequency = Some tree ∧ tree !! i = Some m ∧
    self' = set_frequency_map self
              (<[frequency := <[i := f m]> tree]> (frequency_map self)).
Proof. unfold update_map_elem. intros H. inv_bind H. inv_bind H. inv_Ok. eauto 6. Qed.

Lemma add_site_spec NDEBUG self l frequency g self' :
  ancestor_builder_add_site NDEBUG self l frequency g = Ok self' →
  add_site_effect self l frequency g self'.
Proof.
  intros H. unfold ancestor_builder_add_site in H.
  bind_inv H as u1 Ha1. bind_inv H as u2 Ha2. clear Ha1 Ha2 u1 u2.
  bind_inv H as self0 Hs0. apply set_site_Ok in Hs0 as (old & Hold & ->).
  unfold add_site_effect. destruct old as [f0 g0].
  apply lookup_lt_Some in Hold as Hltl.
  destruct (1 <? frequency)%nat eqn:Hf.
  2:{ inv_Ok. cbn. split_and!; try done. by exists (mk_site f0 g0). }
  bind_inv H as tree Htree. inv_Ok. cbn in Htree.
  apply lookup_lt_Some in Htree as Hltf.
  bind_inv H as found Hsearch. bind_inv H as si Hsi.
  destruct si as [self1 i].
  bind_inv H as self2 Hs2.
  apply update_map_elem_Ok in Hs2 as (tree1 & m1 & Hfm1 & Hi1 & ->).
  cbn in H.
  destruct (chunk_ok (allocator self1) (requests (allocator self1))); [|done].
  cbn in H. apply update_map_elem_Ok in H as (tree2 & m2 & Hfm2 & Hi2 & ->).
  cbn in Hfm2, Hi2 |- *.
  apply lookup_lt_Some in Hfm1 as Hlt1.
  rewrite list_lookup_insert_eq in Hfm2 by done. injection Hfm2 as <-.
  apply lookup_lt_Some in Hi1 as Hlti.
  rewrite list_lookup_insert_eq in Hi2 by done. injection Hi2 as <-.
  rewrite !list_insert_insert_eq. cbn.
  destruct found as [j|].
  - (* the pattern is present *)
    bind_inv Hsi as m Hm. inv_Ok.
    bind_inv Hsi as self3 Hs3. apply set_site_Ok in Hs3 as (old & Hold' & ->).
    inv_Ok. cbn in *.
    rewrite list_lookup_insert_eq in Hold' by done. injection Hold' as <-.
    rewrite list_insert_insert_eq.
    apply avl_search_Some in Hsearch as (m' & buf & Hm' & Hbuf & Hcmp).
    rewrite Htree in Hfm1. injection Hfm1 as <-.
    rewrite Hm in Hm', Hi1. injection Hm' as <-. injection Hi1 as <-.
    split_and!; try done. exists (mk_site f0 g0). split; [done|].
    exists tree, (<[i := add_to_entry l m]> tree), (pm_genotypes m).
    split_and!; try done. left. split; [|done].
    exists i, m, buf. done.
  - (* the pattern is new *)
    pose proof (avl_search_None _ _ _ _ Hsearch) as Hnone.
    cbn in Hsi.
    destruct (chunk_ok (allocator self) (requests (allocator self))); [|done].
    destruct (chunk_ok (allocator self) (S (requests (allocator self)))); [|done].
    destruct (chunk_ok (allocator self) (S (S (requests (allocator self))))); [|done].
    cbn in Hsi. bind_inv Hsi as u Hu.
    destruct (num_samples self <=? length g)%nat eqn:Hlen; [|done].
    apply Nat.leb_le in Hlen. clear Hu u.
    cbn in Hsi. bind_inv Hsi as self3 Hs3.
    apply set_site_Ok in Hs3 as (old & Hold' & ->).
    cbn in *. bind_inv Hsi as r Hins.
    destruct r as [[i' tree']|]; [|done]. inv_Ok.
    apply avl_insert_node_Some in Hins as [Hi' ->].
    cbn in *.
    rewrite list_lookup_insert_eq in Hold' by done. injection Hold' as <-.
    rewrite list_insert_insert_eq.
    rewrite list_lookup_insert_eq in Hfm1 by done. injection Hfm1 as <-.
    rewrite list_insert_insert_eq.
    split_and!; try done. exists (mk_site f0 g0). split; [done|].
    eexists tree, _, (length (genotype_bufs (allocator self))).
    split_and!; try done. right. split; [|done].
    split_and!; try done. exists i. split; [done|].
    rewrite lookup_app_r in Hi1 by (rewrite length_take; lia).
    rewrite length_take_le in Hi1 by lia. rewrite Nat.sub_diag in Hi1.
    cbn in Hi1. injection Hi1 as <-.
    rewrite insert_app_r_alt by (rewrite length_take; lia).
    rewrite length_take_le by lia. rewrite Nat.sub_diag. done.
Qed.

(** ** Invariants of a sequence of [add_site] calls *)

Lemma add_sites_snoc NDEBUG calls : ∀ self c self',
  add_sites NDEBUG self (calls ++ [c]) = Ok self' ↔
  ∃ self1, add_sites NDEBUG self calls = Ok self1 ∧
           ancestor_builder_add_site NDEBUG self1 (call_site c)
             (call_frequency c) (call_genotypes c) = Ok self'.
Proof.
  induction calls as [|[[l f] g] calls IH]; intros self [[l' f'] g'] self'; cbn.
  - split.
    + intros H. inv_bind H. inv_Ok. eauto.
    + intros (self1 & H1 & H2). inv_Ok. by rewrite H2.
  - split.
    + intros H. inv_bind H. apply IH in H as (self1 & H1 & H2).
      exists self1. rewrite E. cbn. done.
    + intros (self1 & H1 & H2). inv_bind H1. rewrite E. cbn.
      apply IH. eauto.
Qed.

(** Induction along the calls, in the order in which they are made. *)
Lemma add_sites_ind NDEBUG (P : ancestor_builder_t → list call_t → Prop) self0 :
  P self0 [] →
  (∀ self done c self',
     add_sites NDEBUG self0 done = Ok self → P self done →
     ancestor_builder_add_site NDEBUG self (call_site c) (call_frequency c)
       (call_genotypes c) = Ok self' →
     add_site_effect self (call_site c) (call_frequency c) (call_genotypes c) self' →
     P self' (done ++ [c])) →
  ∀ calls self, add_sites NDEBUG self0 calls = Ok self → P self calls.
Proof.
  intros H0 Hstep calls. induction calls as [|c calls IH] using rev_ind; intros self H.
  - cbn in H. by inv_Ok.
  - apply add_sites_snoc in H as (self1 & H1 & H2).
    eapply Hstep; eauto using add_site_spec.
Qed.

Lemma entry_emission_add j l m :
  entry_emission j (add_to_entry l m) = entry_emission j m ++ [(j, l)].
Proof. unfold entry_emission. cbn. by rewrite fmap_app. Qed.

(** What the new pattern map consists of. *)
Lemma tree_step_elem self l g tree tree' p m' :
  tree_hit self l g tree tree' p ∨ tree_miss self l g tree tree' p →
  m' ∈ tree' →
  m' ∈ tree ∨ (∃ m, m ∈ tree ∧ pm_genotypes m = p ∧ m' = add_to_entry l m) ∨
  m' = mk_pattern_map p (num_samples self) [l] 1.
Proof.
  intros [(i & m & buf & Hi & Hp & _ & _ & ->)|(_ & _ & _ & i & Hi & ->)] Hm'.
  - apply list_elem_of_lookup in Hm' as [k Hk].
    destruct (decide (i = k)) as [->|Hne].
    + rewrite list_lookup_insert_eq in Hk by (by eapply lookup_lt_Some).
      injection Hk as <-. right. left. exists m.
      split_and!; try done. by eapply list_elem_of_lookup_2.
    + rewrite list_lookup_insert_ne in Hk by done.
      left. by eapply list_elem_of_lookup_2.
  - rewrite elem_of_app, elem_of_cons in Hm'.
    destruct Hm' as [H|[->|H]]; [left|by right; right|left];
      rewrite <- (take_drop i tree), elem_of_app; auto.
Qed.

Lemma tree_step_emission self l g tree tree' p j :
  tree_hit self l g tree tree' p ∨ tree_miss self l g tree tree' p →
  tree_emission j tree' ≡ₚ (j, l) :: tree_emission j tree.
Proof.
  unfold tree_emission.
  intros [(i & m & buf & Hi & _ & _ & _ & ->)|(_ & _ & _ & i & Hi & ->)].
  - rewrite <- (take_drop_middle tree i m Hi) at 2.
    rewrite insert_take_drop by (by eapply lookup_lt_Some).
    rewrite !bind_app, !bind_cons, entry_emission_add.
    rewrite <- app_assoc. cbn.
    rewrite <- !Permutation_middle. done.
  - rewrite <- (take_drop i tree) at 3.
    rewrite !bind_app, !bind_cons. cbn.
    by rewrite <- Permutation_middle.
Qed.

Lemma map_emission_insert fm js f tree' x :
  NoDup js → f ∈ js → (f < length fm)%nat →
  tree_emission f tree' ≡ₚ x :: tree_emission f (default [] (fm !! f)) →
  map_emission (<[f := tree']> fm) js ≡ₚ x :: map_emission fm js.
Proof.
  intros Hnd Hin Hlt Hperm. unfold map_emission.
  induction js as [|j js IH]; [by apply elem_of_nil in Hin|].
  apply NoDup_cons in Hnd as [Hj Hnd]. rewrite !bind_cons.
  apply elem_of_cons in Hin as [->|Hin].
  - rewrite list_lookup_insert_eq by done. cbn. rewrite Hperm. cbn.
    do 2 f_equiv. apply reflexive_eq, Forall_bind_ext, Forall_forall.
    intros k Hk. rewrite list_lookup_insert_ne; [done|]. by intros ->.
  - rewrite list_lookup_insert_ne by (by intros ->).
    rewrite (IH Hnd Hin). by rewrite Permutation_middle.
Qed.

Lemma alloc_Ok NDEBUG ns nsites flags calloc_ok arena_ok oracle self :
  ancestor_builder_alloc NDEBUG ns nsites flags calloc_ok arena_ok oracle = Ok self →
  self = mk_builder ns nsites flags (replicate nsites (mk_site O None))
           (replicate (ns + 1) []) (replicate nsites (mk_descriptor O None 0)) O
           (mk_allocator oracle O [] []).
Proof.
  unfold ancestor_builder_alloc. intros H. inv_bind H.
  destruct calloc_ok, arena_ok; cbn in H; by inv_Ok.
Qed.

Lemma map_emission_empty n js : map_emission (replicate n []) js = [].
Proof.
  unfold map_emission. induction js as [|j js IH]; [done|].
  rewrite bind_cons, IH, app_nil_r.
  destruct (replicate n [] !! j) as [t|] eqn:E; [|done].
  apply lookup_replicate in E as [-> _]. done.
Qed.

Lemma builder_inv_alloc NDEBUG ns nsites flags calloc_ok arena_ok oracle self :
  ancestor_builder_alloc NDEBUG ns nsites flags calloc_ok arena_ok oracle = Ok self →
  builder_inv self.
Proof.
  intros ->%alloc_Ok. split_and!; cbn; try done.
  - rewrite length_replicate. lia.
  - apply Forall_replicate. constructor.
Qed.

Lemma entry_ok_add l m : entry_ok m → entry_ok (add_to_entry l m).
Proof. unfold entry_ok. cbn. congruence. Qed.

Lemma builder_inv_add_site self l f g self' :
  builder_inv self → add_site_effect self l f g self' → builder_inv self'.
Proof.
  intros (Hlen & Hok & Harr) (Hns & _ & _ & _ & Ha & old & _ & H).
  unfold builder_inv. destruct (1 <? f)%nat.
  - destruct H as (tree & tree' & p & Htree & -> & _ & Hstep).
    split_and!; [by rewrite length_insert, Hns| |congruence].
    apply Forall_insert; [done|]. apply Forall_forall. intros m' Hm'.
    assert (Forall entry_ok tree) as Ht
      by (unfold maps_ok in Hok; rewrite Forall_lookup in Hok; eauto).
    rewrite Forall_forall in Ht.
    assert (tree_hit self l g tree tree' p ∨ tree_miss self l g tree tree' p)
      as Hstep' by (destruct Hstep as [[? _]|[? _]]; eauto).
    apply (tree_step_elem _ _ _ _ _ _ _ Hstep') in Hm' as [?|[(m & ? & _ & ->)| ->]];
      [auto|auto using entry_ok_add|done].
  - destruct H as (-> & _ & _). split_and!; congruence.
Qed.

Lemma builder_inv_add_sites NDEBUG self0 calls self :
  builder_inv self0 → add_sites NDEBUG self0 calls = Ok self → builder_inv self.
Proof.
  intros H0. revert calls self.
  apply (add_sites_ind NDEBUG (λ self _, builder_inv self)); [done|].
  eauto using builder_inv_add_site.
Qed.

Lemma mapped_calls_snoc done c :
  mapped_calls (done ++ [c])
  = mapped_calls done
    ++ (if decide (2 ≤ call_frequency c)%nat
        then [(call_frequency c, call_site c)] else []).
Proof.
  unfold mapped_calls. rewrite filter_app, fmap_app. f_equal.
  rewrite filter_cons. by destruct (decide _).
Qed.

Lemma elem_of_visited_frequencies self f :
  f ∈ visited_frequencies self ↔ (2 ≤ f ≤ num_samples self)%nat.
Proof.
  unfold visited_frequencies. rewrite list_elem_of_In, <- in_rev, in_seq. lia.
Qed.

Lemma NoDup_visited_frequencies self : NoDup (visited_frequencies self).
Proof.
  unfold visited_frequencies. apply NoDup_ListNoDup, List.NoDup_rev, List.seq_NoDup.
Qed.

(** The pattern maps list exactly the calls made with a frequency of
    at least two. *)
Lemma emission_add_sites NDEBUG self0 calls self :
  builder_inv self0 → add_sites NDEBUG self0 calls = Ok self →
  map_emission (frequency_map self) (visited_frequencies self)
  ≡ₚ map_emission (frequency_map self0) (visited_frequencies self0)
     ++ mapped_calls calls.
Proof.
  intros H0. revert calls self.
  apply (add_sites_ind NDEBUG (λ self calls,
    map_emission (frequency_map self) (visited_frequencies self)
    ≡ₚ map_emission (frequency_map self0) (visited_frequencies self0)
       ++ mapped_calls calls)).
  { unfold mapped_calls. cbn. by rewrite app_nil_r. }
  intros self done c self' Hdone IH _ Heff.
  pose proof (builder_inv_add_sites _ _ _ _ H0 Hdone) as (Hlen & _ & _).
  destruct Heff as (Hns & _ & _ & _ & _ & old & _ & H).
  rewrite mapped_calls_snoc.
  assert (visited_frequencies self' = visited_frequencies self) as ->
    by (unfold visited_frequencies; by rewrite Hns).
  destruct (1 <? call_frequency c)%nat eqn:Hf.
  - apply Nat.ltb_lt in Hf. rewrite decide_True by lia.
    destruct H as (tree & tree' & p & Htree & -> & _ & Hstep).
    apply lookup_lt_Some in Htree as Hlt.
    rewrite map_emission_insert with (x := (call_frequency c, call_site c)).
    + rewrite IH. rewrite app_assoc. by rewrite <- Permutation_cons_append.
    + apply NoDup_visited_frequencies.
    + apply elem_of_visited_frequencies. lia.
    + done.
    + rewrite Htree. cbn. eapply tree_step_emission.
      destruct Hstep as [[? _]|[? _]]; eauto.
  - apply Nat.ltb_ge in Hf. rewrite decide_False by lia.
    destruct H as (-> & _ & _). by rewrite app_nil_r.
Qed.

(** ** Finalisation after a sequence of calls *)

Lemma finalised_emits NDEBUG ns nsites flags calloc_ok arena_ok oracle
    calls malloc_ok self0 self self' :
  ancestor_builder_alloc NDEBUG ns nsites flags calloc_ok arena_ok oracle = Ok self0 →
  add_sites NDEBUG self0 calls = Ok self →
  ancestor_builder_finalise NDEBUG self malloc_ok = Ok self' →
  ∃ exp, exp = map_emission (frequency_map self) (visited_frequencies self) ∧
         emits self' exp ∧ exp ≡ₚ mapped_calls calls ∧
         same_data self self' ∧ builder_inv self.
Proof.
  intros Halloc Hadd Hfin.
  pose proof (builder_inv_alloc _ _ _ _ _ _ _ _ Halloc) as Hinv0.
  pose proof (builder_inv_add_sites _ _ _ _ Hinv0 Hadd) as Hinv.
  pose proof (emission_add_sites _ _ _ _ Hinv0 Hadd) as Hperm.
  apply finalise_emits in Hfin as [Hem Hsame]; [|apply Hinv].
  assert (map_emission (frequency_map self0) (visited_frequencies self0) = [])
    as Hz by (apply alloc_Ok in Halloc as ->; apply map_emission_empty).
  rewrite Hz in Hperm. eexists. split_and!; done.
Qed.

Lemma map_emission_entry fm js j tree i m :
  j ∈ js → fm !! j = Some tree → tree !! i = Some m →
  ∃ pre post, map_emission fm js = pre ++ entry_emission j m ++ post.
Proof.
  intros (js1 & js2 & ->)%list_elem_of_split Hj Hi.
  unfold map_emission. rewrite bind_app, bind_cons, Hj. cbn.
  unfold tree_emission at 2.
  rewrite <- (take_drop_middle tree i m Hi), bind_app, bind_cons.
  exists ((js1 ≫= λ j, tree_emission j (default [] (fm !! j)))
          ++ (take i tree ≫= entry_emission j)),
         ((drop (S i) tree ≫= entry_emission j)
          ++ (js2 ≫= λ j, tree_emission j (default [] (fm !! j)))).
  by rewrite <- !app_assoc.
Qed.

Lemma StronglySorted_lookup_lt {A : Type} (R : relation A) (l : list A) i j x y :
  StronglySorted R l → (i < j)%nat → l !! i = Some x → l !! j = Some y → R x y.
Proof.
  intros Hs. revert i j. induction Hs as [|a l Hs IH Hall]; intros i j Hij Hi Hj.
  - done.
  - destruct j as [|j]; [lia|]. cbn in Hj. destruct i as [|i]; cbn in Hi.
    + injection Hi as <-. rewrite Forall_forall in Hall.
      eauto using list_elem_of_lookup_2.
    + apply (IH i j); [lia|done..].
Qed.

Lemma visited_frequencies_sorted self :
  StronglySorted (λ a b, (b < a)%nat) (visited_frequencies self).
Proof.
  unfold visited_frequencies. generalize (num_samples self - 1)%nat. intros n.
  induction n as [|n IH]; [constructor|].
  rewrite seq_S, rev_app_distr. cbn. constructor; [done|].
  apply Forall_forall. intros y Hy.
  rewrite list_elem_of_In, <- in_rev, in_seq in Hy. lia.
Qed.

Lemma map_emission_frequency fm js x :
  x ∈ map_emission fm js → x.1 ∈ js.
Proof.
  unfold map_emission, tree_emission, entry_emission.
  intros (j & Hx & Hj)%list_elem_of_bind.
  apply list_elem_of_bind in Hx as (m & Hx & _).
  apply list_elem_of_fmap in Hx as (s & -> & _). done.
Qed.

Lemma map_emission_sorted fm js :
  StronglySorted (λ a b, (b < a)%nat) js →
  StronglySorted (λ x y : nat * site_id_t, (y.1 ≤ x.1)%nat) (map_emission fm js).
Proof.
  induction 1 as [|j js Hs IH Hall].
  - constructor.
  - change (map_emission fm (j :: js))
      with (tree_emission j (default [] (fm !! j)) ++ map_emission fm js).
    apply StronglySorted_app_2; [| |done].
    + intros x y Hx Hy. apply map_emission_frequency in Hy.
      rewrite Forall_forall in Hall. apply Hall in Hy.
      unfold tree_emission, entry_emission in Hx.
      apply list_elem_of_bind in Hx as (m & Hx & _).
      apply list_elem_of_fmap in Hx as (s & -> & _). cbn. lia.
    + generalize (default [] (fm !! j)). intros tree.
      assert (Forall (λ x : nat * site_id_t, x.1 = j) (tree_emission j tree)) as Hj.
      { apply Forall_forall. intros x Hx. unfold tree_emission, entry_emission in Hx.
        apply list_elem_of_bind in Hx as (m & Hx & _).
        apply list_elem_of_fmap in Hx as (s & -> & _). done. }
      induction Hj as [|x l Hx Hl IHl]; constructor; [done|].
      eapply Forall_impl; [exact Hl|]. cbn. intros y ->. lia.
Qed.

Lemma add_site_effect_sites self l f g self' :
  add_site_effect self l f g self' →
  ∃ s', sites self' = <[l := s']> (sites self) ∧ frequency s' = f ∧
        (l < length (sites self))%nat.
Proof.
  intros (_ & _ & _ & _ & _ & old & Hold & H).
  apply lookup_lt_Some in Hold. destruct (1 <? f)%nat.
  - destruct H as (? & ? & p & _ & _ & -> & _). by eexists.
  - destruct H as (_ & -> & _). by eexists.
Qed.

(** With at most one call per site, a site has a frequency of two or
    more exactly when it was added with such a frequency. *)
Lemma sites_frequency_add_sites NDEBUG self0 calls self :
  (∀ l s, sites self0 !! l = Some s → frequency s = O) →
  add_sites NDEBUG self0 calls = Ok self →
  NoDup (call_site <$> calls) →
  ∀ l s, sites self !! l = Some s →
    (2 ≤ frequency s)%nat ↔
    ∃ c, c ∈ calls ∧ call_site c = l ∧ (2 ≤ call_frequency c)%nat.
Proof.
  intros H0. revert calls self.
  apply (add_sites_ind NDEBUG (λ self calls,
    NoDup (call_site <$> calls) →
    ∀ l s, sites self !! l = Some s →
      (2 ≤ frequency s)%nat ↔
      ∃ c, c ∈ calls ∧ call_site c = l ∧ (2 ≤ call_frequency c)%nat)).
  { intros _ l s Hs. rewrite (H0 _ _ Hs). split; [lia|].
    intros (c & Hc & _). by apply elem_of_nil in Hc. }
  intros self done c self' _ IH _ Heff Hnd l s Hs.
  rewrite fmap_app in Hnd. apply NoDup_app in Hnd as (Hnd & Hfresh & _).
  apply add_site_effect_sites in Heff as (s' & Hsites & Hf & Hlt).
  rewrite Hsites in Hs. destruct (decide (call_site c = l)) as [<-|Hne].
  - rewrite list_lookup_insert_eq in Hs by done. injection Hs as <-.
    rewrite Hf. split.
    + intros ?. exists c. rewrite elem_of_app, list_elem_of_singleton. auto.
    + intros (c' & Hc' & Hl & Hfreq).
      apply elem_of_app in Hc' as [Hc'|Hc'].
      * exfalso. apply (Hfresh (call_site c)).
        -- rewrite <- Hl. by apply list_elem_of_fmap_2.
        -- cbn. apply list_elem_of_singleton. done.
      * apply list_elem_of_singleton in Hc' as ->. done.
  - rewrite list_lookup_insert_ne in Hs by done.
    rewrite (IH Hnd l s Hs). split.
    + intros (c' & ? & ? & ?). exists c'. rewrite elem_of_app. auto.
    + intros (c' & Hc' & Hl & ?). exists c'.
      apply elem_of_app in Hc' as [Hc'|Hc']; [done|].
      apply list_elem_of_singleton in Hc' as ->. done.
Qed.

Lemma occurrences_NoDup l ls :
  NoDup ls → occurrences l ls = if decide (l ∈ ls) then 1%nat else 0%nat.
Proof.
  unfold occurrences. induction 1 as [|x ls Hx Hnd IH]; [done|].
  rewrite filter_cons. destruct (decide (x = l)) as [->|Hne].
  - cbn. rewrite IH. rewrite decide_False by done.
    rewrite decide_True by (apply elem_of_cons; auto). done.
  - rewrite IH. destruct (decide (l ∈ ls)).
    + rewrite decide_True by (apply elem_of_cons; auto). done.
    + rewrite decide_False; [done|]. rewrite elem_of_cons. intros [?|?]; auto.
Qed.

Lemma StronglySorted_sublist {A : Type} (R : relation A) (l1 l2 : list A) :
  l1 `sublist_of` l2 → StronglySorted R l2 → StronglySorted R l1.
Proof.
  induction 1 as [|x l1 l2 Hsub IH|x l1 l2 Hsub IH]; intros Hs.
  - constructor.
  - apply StronglySorted_inv in Hs as [Hs Hall]. constructor; [auto|].
    rewrite Forall_forall in Hall |- *. eauto using elem_of_sublist.
  - apply StronglySorted_inv in Hs as [Hs _]. auto.
Qed.

(** *** The focal-site arrays *)

Lemma finalise_entries_arrays NDEBUG j tree : ∀ self self',
  Forall entry_ok tree →
  finalise_entries NDEBUG self j tree = Ok self' →
  site_arrays (allocator self')
  = site_arrays (allocator self) ++ ((λ m, rev (pm_sites m)) <$> tree) ∧
  same_data self self'.
Proof.
  induction tree as [|m next IH]; intros self self' Hok H; cbn in H.
  - inv_Ok. rewrite app_nil_r. auto using same_data_refl.
  - apply Forall_cons in Hok as [Hm Hok]. inv_bind H.
    apply finalise_entry_spec in E as (_ & _ & _ & _ & Ha & Hs); [|done].
    apply (IH _ _ Hok) in H as [Ha' Hs'].
    rewrite Ha', Ha, <- app_assoc. eauto using same_data_trans.
Qed.

Lemma finalise_frequencies_arrays NDEBUG js : ∀ self self',
  maps_ok (frequency_map self) →
  finalise_frequencies NDEBUG self js = Ok self' →
  site_arrays (allocator self')
  = site_arrays (allocator self) ++ materialised_arrays (frequency_map self) js ∧
  same_data self self'.
Proof.
  induction js as [|j js IH]; intros self self' Hok H; cbn in H.
  - inv_Ok. unfold materialised_arrays. cbn. rewrite app_nil_r.
    auto using same_data_refl.
  - inv_bind H. inv_Ok. inv_bind H.
    apply finalise_entries_arrays in E0 as [Ha Hs].
    2:{ unfold maps_ok in Hok. rewrite Forall_lookup in Hok. eauto. }
    assert (frequency_map x0 = frequency_map self) as Hfm by apply Hs.
    apply IH in H as [Ha' Hs']; [|by rewrite Hfm].
    unfold materialised_arrays in *. rewrite bind_cons, E. cbn.
    rewrite Ha', Ha, Hfm, <- app_assoc. eauto using same_data_trans.
Qed.

(** Every list of a pattern map, reversed, is a subsequence of the sites
    in the order of the calls. *)
Lemma entry_sites_sublist NDEBUG self0 calls self :
  (∀ f tree m, frequency_map self0 !! f = Some tree → m ∉ tree) →
  add_sites NDEBUG self0 calls = Ok self →
  ∀ f tree m, frequency_map self !! f = Some tree → m ∈ tree →
    rev (pm_sites m) `sublist_of` (call_site <$> calls).
Proof.
  intros H0. revert calls self.
  apply (add_sites_ind NDEBUG (λ self calls,
    ∀ f tree m, frequency_map self !! f = Some tree → m ∈ tree →
      rev (pm_sites m) `sublist_of` (call_site <$> calls))).
  { intros f tree m Hf Hm. by apply (H0 _ _ m) in Hf. }
  intros self done c self' _ IH _ Heff f tree m Hf Hm.
  rewrite fmap_app. cbn.
  destruct Heff as (_ & _ & _ & _ & _ & old & _ & H).
  destruct (1 <? call_frequency c)%nat.
  - destruct H as (tree0 & tree' & p & Htree & Hfm & _ & Hstep).
    rewrite Hfm in Hf. apply lookup_lt_Some in Htree as Hlt.
    destruct (decide (call_frequency c = f)) as [<-|Hne].
    + rewrite list_lookup_insert_eq in Hf by done. injection Hf as <-.
      assert (tree_hit self (call_site c) (call_genotypes c) tree0 tree' p ∨
              tree_miss self (call_site c) (call_genotypes c) tree0 tree' p)
        as Hstep' by (destruct Hstep as [[? _]|[? _]]; eauto).
      apply (tree_step_elem _ _ _ _ _ _ _ Hstep') in Hm
        as [Hm|[(m0 & Hm0 & _ & ->)| ->]].
      * apply sublist_inserts_r. eauto.
      * cbn. apply sublist_app; [eauto|done].
      * cbn. apply sublist_inserts_l. done.
    + rewrite list_lookup_insert_ne in Hf by done.
      apply sublist_inserts_r. eauto.
  - destruct H as (Hfm & _ & _). rewrite Hfm in Hf.
    apply sublist_inserts_r. eauto.
Qed.

(** ** Pattern de-duplication *)

Lemma memcmp_zero n : ∀ a b c,
  memcmp a b n = Ok c → c = 0 ↔ bytes (take n a) = bytes (take n b).
Proof.
  induction n as [|n IH]; intros a b c H; cbn in H.
  - inv_Ok. by rewrite !take_0.
  - destruct a as [|x a], b as [|y b]; try done.
    destruct (byte_of_allele x =? byte_of_allele y) eqn:Hxy.
    + apply Z.eqb_eq in Hxy. specialize (IH _ _ _ H).
      unfold bytes in *. cbn [take fmap list_fmap]. rewrite IH, Hxy.
      split; [by intros ->|]. by intros [=].
    + apply Z.eqb_neq in Hxy. inv_Ok.
      unfold bytes. cbn [take fmap list_fmap]. split; [lia|]. intros [=]. done.
Qed.

Lemma pattern_buffers_insert self self' f tree' :
  frequency_map self' = <[f := tree']> (frequency_map self) →
  (f < length (frequency_map self))%nat →
  pattern_buffers self' f = pm_genotypes <$> tree' ∧
  ∀ f', f' ≠ f → pattern_buffers self' f' = pattern_buffers self f'.
Proof.
  intros Hfm Hlt. unfold pattern_buffers. rewrite Hfm. split.
  - by rewrite list_lookup_insert_eq.
  - intros f' Hne. by rewrite list_lookup_insert_ne.
Qed.

(** The effect of a successful [add_site], told on the buffers. *)
Lemma add_site_effect_buffers self l f g self' :
  add_site_effect self l f g self' →
  num_samples self' = num_samples self ∧
  if (1 <? f)%nat then
    ∃ p, sites self' = <[l := mk_site f (Some p)]> (sites self) ∧
      (l < length (sites self))%nat ∧
      (∀ f', f' ≠ f → pattern_buffers self' f' = pattern_buffers self f') ∧
      ((genotype_bufs (allocator self') = genotype_bufs (allocator self) ∧
        (∀ q, q ∈ pattern_buffers self' f ↔ q ∈ pattern_buffers self f) ∧
        p ∈ pattern_buffers self f ∧
        ∃ buf, genotype_bufs (allocator self) !! p = Some buf ∧
               memcmp g buf (num_samples self) = Ok 0) ∨
       (genotype_bufs (allocator self')
        = genotype_bufs (allocator self) ++ [take (num_samples self) g] ∧
        p = length (genotype_bufs (allocator self)) ∧
        (num_samples self ≤ length g)%nat ∧
        (∀ q, q ∈ pattern_buffers self' f ↔ q = p ∨ q ∈ pattern_buffers self f) ∧
        ∀ q, q ∈ pattern_buffers self f →
          ∃ buf c, genotype_bufs (allocator self) !! q = Some buf ∧
                   memcmp g buf (num_samples self) = Ok c ∧ c ≠ 0))
  else
    (∃ s', sites self' = <[l := s']> (sites self)) ∧
    (∀ f', pattern_buffers self' f' = pattern_buffers self f') ∧
    genotype_bufs (allocator self') = genotype_bufs (allocator self).
Proof.
  intros (Hns & _ & _ & _ & _ & old & Hold & H). split; [done|].
  apply lookup_lt_Some in Hold as Hltl.
  destruct (1 <? f)%nat.
  - destruct H as (tree & tree' & p & Htree & Hfm & Hsites & Hstep).
    apply lookup_lt_Some in Htree as Hlt.
    destruct (pattern_buffers_insert _ _ _ _ Hfm Hlt) as [Hpb Hother].
    assert (pattern_buffers self f = pm_genotypes <$> tree) as Hpb0
      by (unfold pattern_buffers; by rewrite Htree).
    exists p. split_and!; try done.
    destruct Hstep as [[(i & m & buf & Hi & Hp & Hbuf & Hcmp & ->) Hbufs]
                      |[(Hnone & Hp & Hlen & i & Hi & ->) Hbufs]].
    + left. split_and!; try done.
      * intros q. rewrite Hpb, Hpb0, list_fmap_insert. cbn.
        rewrite list_insert_id; [done|]. rewrite list_lookup_fmap, Hi. done.
      * rewrite Hpb0, <- Hp. apply list_elem_of_fmap_2.
        by eapply list_elem_of_lookup_2.
      * eauto.
    + right. split_and!; try done.
      * intros q. rewrite Hpb, Hpb0, fmap_app, fmap_cons. cbn.
        rewrite <- (take_drop i tree) at 3.
        rewrite fmap_app, !elem_of_app, elem_of_cons. tauto.
      * intros q. rewrite Hpb0. intros (m & -> & Hm)%list_elem_of_fmap.
        apply list_elem_of_lookup in Hm as [k Hk]. eauto.
  - destruct H as (Hfm & Hsites & Hbufs). split_and!; eauto.
    intros f'. unfold pattern_buffers. by rewrite Hfm.
Qed.

Lemma first_call_of_pattern_snoc ns done c k0 f bs :
  (k0 ≤ length done)%nat →
  first_call_of_pattern ns done k0 f bs →
  first_call_of_pattern ns (done ++ [c]) k0 f bs.
Proof.
  intros Hk H k' c' Hlt Hc'. rewrite lookup_app_l in Hc' by lia. eauto.
Qed.

Lemma last_call_of_site_snoc done c k l :
  (k < length done)%nat →
  last_call_of_site (done ++ [c]) k l →
  last_call_of_site done k l ∧ call_site c ≠ l.
Proof.
  intros Hk H. split.
  - intros k' c' Hlt Hc'. apply (H k' c' Hlt). by apply lookup_app_l_Some.
  - apply (H (length done) c Hk).
    rewrite lookup_app_r by done. by rewrite Nat.sub_diag.
Qed.

Lemma lookup_snoc_inv {A : Type} (l : list A) (x y : A) k :
  (l ++ [x]) !! k = Some y →
  (k < length l)%nat ∧ l !! k = Some y ∨ k = length l ∧ y = x.
Proof.
  intros H. destruct (decide (k < length l)%nat) as [Hlt|Hge].
  - rewrite lookup_app_l in H by done. auto.
  - rewrite lookup_app_r in H by lia.
    destruct (k - length l)%nat as [|n] eqn:E; cbn in H; [|done].
    right. split; [lia|congruence].
Qed.

Lemma dedup_buffer self calls f q :
  dedup_inv self calls → q ∈ pattern_buffers self f →
  ∃ buf, genotype_bufs (allocator self) !! q = Some buf ∧
         take (num_samples self) buf = buf.
Proof.
  intros Hinv Hq.
  destruct (dedup_canonical _ _ Hinv _ _ Hq) as (k0 & c0 & _ & _ & Hbuf & Hlen & _).
  eexists. split; [exact Hbuf|]. rewrite take_take. f_equal. lia.
Qed.

(** A buffer that [memcmp] tells apart from the supplied genotypes does
    not hold their bytes. *)
Lemma memcmp_nonzero_bytes ns g buf c :
  memcmp g buf ns = Ok c → c ≠ 0 → take ns buf = buf →
  bytes buf ≠ bytes (take ns g).
Proof.
  intros Hcmp Hc Htake Heq. apply Hc. rewrite (memcmp_zero _ _ _ _ Hcmp).
  by rewrite Htake.
Qed.

Lemma memcmp_zero_bytes ns g buf :
  memcmp g buf ns = Ok 0 → take ns buf = buf →
  bytes buf = bytes (take ns g).
Proof.
  intros Hcmp Htake. symmetry. rewrite <- Htake at 1.
  by apply (memcmp_zero _ _ _ _ Hcmp).
Qed.

Lemma dedup_inv_step self done c self' :
  dedup_inv self done →
  add_site_effect self (call_site c) (call_frequency c) (call_genotypes c) self' →
  dedup_inv self' (done ++ [c]).
Proof.
  intros Hinv [Hns H]%add_site_effect_buffers.
  destruct (1 <? call_frequency c)%nat eqn:Hf.
  - apply Nat.ltb_lt in Hf.
    destruct H as (p & Hsites & Hltl & Hother & Hcase).
    (* what both cases share: the buffers and pointers of before stay, and
       [p] holds the bytes of the call *)
    assert (∀ q buf, genotype_bufs (allocator self) !! q = Some buf →
              genotype_bufs (allocator self') !! q = Some buf) as Hkeep.
    { destruct Hcase as [(-> & _)|(-> & _)]; [done|].
      intros q buf. apply lookup_app_l_Some. }
    assert (∀ f q, q ∈ pattern_buffers self f → q ∈ pattern_buffers self' f) as Hold.
    { intros f q Hq. destruct (decide (f = call_frequency c)) as [->|Hne].
      - destruct Hcase as [(_ & Hiff & _)|(_ & _ & _ & Hiff & _)];
          apply Hiff; auto.
      - by rewrite Hother. }
    assert (∀ q buf, q ∈ pattern_buffers self' (call_frequency c) →
              genotype_bufs (allocator self') !! q = Some buf →
              q = p ∨ (q ∈ pattern_buffers self (call_frequency c) ∧
                       genotype_bufs (allocator self) !! q = Some buf)) as Hnew.
    { intros q buf Hq Hbuf.
      assert (q ∈ pattern_buffers self (call_frequency c) →
              genotype_bufs (allocator self) !! q = Some buf) as Hback.
      { intros Hq'. destruct (dedup_buffer _ _ _ _ Hinv Hq') as (b & Hb & _).
        rewrite (Hkeep _ _ Hb) in Hbuf. congruence. }
      destruct Hcase as [(_ & Hiff & _)|(_ & _ & _ & Hiff & _)];
        apply Hiff in Hq; [auto|]. destruct Hq; auto. }
    assert (p ∈ pattern_buffers self' (call_frequency c) ∧
            ∃ buf, genotype_bufs (allocator self') !! p = Some buf ∧
                   bytes buf = call_bytes (num_samples self) c) as [Hp Hpbuf].
    { destruct Hcase as [(Hbufs & Hiff & Hp & buf & Hbuf & Hcmp)
                        |(Hbufs & Hp & Hlen & Hiff & Hdiff)].
      - split; [by apply Hiff|]. exists buf. rewrite Hbufs. split; [done|].
        destruct (dedup_buffer _ _ _ _ Hinv Hp) as (b & Hb & Htake).
        rewrite Hbuf in Hb. injection Hb as <-.
        by apply memcmp_zero_bytes.
      - split; [apply Hiff; auto|]. eexists. split; [|done].
        rewrite Hbufs, Hp, lookup_app_r by done. by rewrite Nat.sub_diag. }
    assert (∀ q buf, q ∈ pattern_buffers self (call_frequency c) →
              genotype_bufs (allocator self) !! q = Some buf →
              bytes buf = call_bytes (num_samples self) c →
              q = p ∧ genotype_bufs (allocator self') = genotype_bufs (allocator self))
      as Hsame.
    { intros q buf Hq Hbuf Hbytes.
      destruct Hcase as [(Hbufs & Hiff & Hp' & bufp & Hbufp & Hcmp)
                        |(Hbufs & Hp' & Hlen & Hiff & Hdiff)].
      - split; [|done].
        destruct (dedup_buffer _ _ _ _ Hinv Hp') as (b & Hb & Htake).
        rewrite Hbufp in Hb. injection Hb as <-.
        apply (dedup_distinct _ _ Hinv (call_frequency c) q p buf bufp);
          try done.
        rewrite Hbytes. symmetry. by apply memcmp_zero_bytes.
      - exfalso. destruct (Hdiff q Hq) as (b & cc & Hb & Hcmp & Hcc).
        rewrite Hbuf in Hb. injection Hb as <-.
        destruct (dedup_buffer _ _ _ _ Hinv Hq) as (b & Hb & Htake).
        rewrite Hbuf in Hb. injection Hb as <-.
        by apply (memcmp_nonzero_bytes _ _ _ _ Hcmp Hcc Htake). }
    split; rewrite ?Hns.
    + (* canonical *)
      intros f q Hq.
      assert (q ∈ pattern_buffers self f →
              ∃ k0 c0, (done ++ [c]) !! k0 = Some c0 ∧ call_frequency c0 = f ∧
                genotype_bufs (allocator self') !! q
                = Some (take (num_samples self) (call_genotypes c0)) ∧
                (num_samples self ≤ length (call_genotypes c0))%nat ∧
                first_call_of_pattern (num_samples self) (done ++ [c]) k0 f
                  (call_bytes (num_samples self) c0)) as Hfrom_old.
      { intros Hq'.
        destruct (dedup_canonical _ _ Hinv _ _ Hq')
          as (k0 & c0 & Hk0 & Hf0 & Hbuf & Hlen & Hfirst).
        exists k0, c0. apply lookup_lt_Some in Hk0 as Hlt.
        split_and!; auto using lookup_app_l_Some.
        apply first_call_of_pattern_snoc; [lia|done]. }
      destruct (decide (f = call_frequency c)) as [->|Hne];
        [|rewrite Hother in Hq by done; auto].
      destruct Hcase as [(_ & Hiff & _)|(Hbufs & Hp' & Hlen & Hiff & Hdiff)];
        apply Hiff in Hq; [auto|]. destruct Hq as [->|Hq]; [|auto].
      exists (length done), c. split_and!; try done.
      * rewrite lookup_app_r by done. by rewrite Nat.sub_diag.
      * rewrite Hbufs, Hp', lookup_app_r by done. by rewrite Nat.sub_diag.
      * intros k' c' Hlt Hc' [Hfc Hbc]. rewrite lookup_app_l in Hc' by done.
        destruct (dedup_present _ _ Hinv c') as (q & buf & Hq & Hbuf & Hbytes);
          [by eapply list_elem_of_lookup_2|lia|].
        rewrite Hfc in Hq. destruct (Hdiff q Hq) as (b & cc & Hb & Hcmp & Hcc).
        rewrite Hbuf in Hb. injection Hb as <-.
        destruct (dedup_buffer _ _ _ _ Hinv Hq) as (b & Hb & Htake).
        rewrite Hbuf in Hb. injection Hb as <-.
        apply (memcmp_nonzero_bytes _ _ _ _ Hcmp Hcc Htake).
        unfold call_bytes in *. congruence.
    + (* distinct *)
      intros f p1 p2 b1 b2 Hp1 Hp2 Hb1 Hb2 Hbytes.
      destruct (decide (f = call_frequency c)) as [->|Hne].
      * destruct Hpbuf as (bufp & Hbufp & Hbp).
        destruct (Hnew _ _ Hp1 Hb1) as [->|[Hq1 Hb1']],
                 (Hnew _ _ Hp2 Hb2) as [->|[Hq2 Hb2']]; try done.
        -- rewrite Hbufp in Hb1. injection Hb1 as <-.
           symmetry. apply (Hsame _ _ Hq2 Hb2'). congruence.
        -- rewrite Hbufp in Hb2. injection Hb2 as <-.
           apply (Hsame _ _ Hq1 Hb1'). congruence.
        -- by apply (dedup_distinct _ _ Hinv (call_frequency c) p1 p2 b1 b2).
      * rewrite Hother in Hp1, Hp2 by done.
        destruct (dedup_buffer _ _ _ _ Hinv Hp1) as (x1 & Hx1 & _).
        destruct (dedup_buffer _ _ _ _ Hinv Hp2) as (x2 & Hx2 & _).
        rewrite (Hkeep _ _ Hx1) in Hb1. rewrite (Hkeep _ _ Hx2) in Hb2.
        apply (dedup_distinct _ _ Hinv f p1 p2 b1 b2); congruence.
    + (* present *)
      intros c' Hc' Hf'. apply elem_of_app in Hc' as [Hc'|Hc'].
      * destruct (dedup_present _ _ Hinv c' Hc' Hf') as (q & buf & Hq & Hbuf & Hb).
        exists q, buf. auto.
      * apply list_elem_of_singleton in Hc' as ->.
        destruct Hpbuf as (buf & ? & ?). eauto.
    + (* site *)
      intros k c1 Hk Hf1 Hlast.
      apply lookup_snoc_inv in Hk as [[Hlt Hk]|[-> ->]].
      * apply last_call_of_site_snoc in Hlast as [Hlast Hne]; [|done].
        destruct (dedup_site _ _ Hinv k c1 Hk Hf1 Hlast)
          as (q & buf & Hs & Hq & Hbuf & Hb).
        exists q, buf. rewrite Hsites, list_lookup_insert_ne by done. auto.
      * destruct Hpbuf as (buf & ? & ?). exists p, buf.
        rewrite Hsites, list_lookup_insert_eq by done. auto.
  - apply Nat.ltb_ge in Hf.
    destruct H as ([s' Hsites] & Hptrs & Hbufs).
    split; rewrite ?Hns, ?Hbufs.
    + intros f q Hq. rewrite Hptrs in Hq.
      destruct (dedup_canonical _ _ Hinv _ _ Hq)
        as (k0 & c0 & Hk0 & Hf0 & Hbuf & Hlen & Hfirst).
      exists k0, c0. apply lookup_lt_Some in Hk0 as Hlt.
      split_and!; auto using lookup_app_l_Some.
      apply first_call_of_pattern_snoc; [lia|done].
    + intros f p1 p2 b1 b2. rewrite !Hptrs. apply (dedup_distinct _ _ Hinv).
    + intros c' Hc' Hf'. apply elem_of_app in Hc' as [Hc'|Hc'].
      * rewrite Hptrs. by apply (dedup_present _ _ Hinv).
      * apply list_elem_of_singleton in Hc' as ->. lia.
    + intros k c1 Hk Hf1 Hlast.
      apply lookup_snoc_inv in Hk as [[Hlt Hk]|[-> ->]]; [|lia].
      apply last_call_of_site_snoc in Hlast as [Hlast Hne]; [|done].
      rewrite Hptrs, Hsites, list_lookup_insert_ne by done.
      by apply (dedup_site _ _ Hinv k).
Qed.

Lemma dedup_inv_add_sites NDEBUG self0 calls self :
  dedup_inv self0 [] → add_sites NDEBUG self0 calls = Ok self →
  dedup_inv self calls.
Proof.
  intros H0. revert calls self.
  apply (add_sites_ind NDEBUG dedup_inv); [done|].
  eauto using dedup_inv_step.
Qed.

Lemma dedup_inv_alloc NDEBUG ns nsites flags calloc_ok arena_ok oracle self0 :
  ancestor_builder_alloc NDEBUG ns nsites flags calloc_ok arena_ok oracle = Ok self0 →
  dedup_inv self0 [].
Proof.
  intros ->%alloc_Ok.
  assert (∀ f q, q ∉ pattern_buffers
            (mk_builder ns nsites flags (replicate nsites (mk_site O None))
               (replicate (ns + 1) []) (replicate nsites (mk_descriptor O None 0))
               O (mk_allocator oracle O [] [])) f) as Hempty.
  { intros f q. unfold pattern_buffers. cbn.
    destruct (replicate (ns + 1) [] !! f) as [t|] eqn:E; cbn.
    - apply lookup_replicate in E as [-> _]. apply not_elem_of_nil.
    - apply not_elem_of_nil. }
  split.
  - intros f q Hq. by apply Hempty in Hq.
  - intros f p1 p2 b1 b2 Hq. by apply Hempty in Hq.
  - intros c Hc. by apply elem_of_nil in Hc.
  - intros k c Hk. done.
Qed.

Lemma num_samples_add_sites NDEBUG self0 calls self :
  add_sites NDEBUG self0 calls = Ok self → num_samples self = num_samples self0.
Proof.
  revert calls self.
  apply (add_sites_ind NDEBUG (λ self _, num_samples self = num_samples self0));
    [done|].
  intros self done c self' _ IH _ (Hns & _). congruence.
Qed.

(** ** Descriptors after finalisation *)

(** C8, as stated: descriptors are not in strictly decreasing frequency
    order. The three descriptors of the de-duplication run all have
    frequency 2. *)
Lemma strictly_decreasing_frequencies_fails :
  ancestor_builder_alloc false 4 3 0 true true (λ _, true) = Ok dedup_allocated ∧
  add_sites false dedup_allocated dedup_calls = Ok dedup_filled ∧
  ancestor_builder_finalise false dedup_filled true = Ok dedup_finalised ∧
  ¬ strictly_decreasing_frequencies dedup_finalised.
Proof.
  split_and!; try reflexivity.
  intros H. specialize (H 0%nat 1%nat _ _ ltac:(lia) eq_refl eq_refl).
  cbn in H. lia.
Qed.

(** C8, amended. After finalisation the frequencies of the emitted
    descriptors never increase along the array: for all i < j,
    descriptors[i].frequency >= descriptors[j].frequency. *)
Theorem finalise_frequencies_non_increasing NDEBUG ns nsites flags calloc_ok
    arena_ok oracle calls malloc_ok self0 self self' :
  ancestor_builder_alloc NDEBUG ns nsites flags calloc_ok arena_ok oracle = Ok self0 →
  add_sites NDEBUG self0 calls = Ok self →
  ancestor_builder_finalise NDEBUG self malloc_ok = Ok self' →
  ∀ i j di dj, (i < j)%nat →
    emitted_descriptors self' !! i = Some di →
    emitted_descriptors self' !! j = Some dj →
    (d_frequency dj ≤ d_frequency di)%nat.
Proof.
  intros Halloc Hadd Hfin i j di dj Hij Hi Hj.
  destruct (finalised_emits _ _ _ _ _ _ _ _ _ _ _ _ Halloc Hadd Hfin)
    as (exp & Hexp & [Hem Hcap] & _ & _ & Hinv).
  destruct (Forall2_lookup_l _ _ _ _ _ Hem Hi) as (xi & Hxi & (Hfi & _)).
  destruct (Forall2_lookup_l _ _ _ _ _ Hem Hj) as (xj & Hxj & (Hfj & _)).
  rewrite Hfi, Hfj.
  pose proof (map_emission_sorted (frequency_map self) _
                (visited_frequencies_sorted self)) as Hs.
  rewrite <- Hexp in Hs.
  apply (StronglySorted_lookup_lt _ _ _ _ _ _ Hs Hij Hxi Hxj).
Qed.

Lemma finalise_frequencies_non_increasing_witness :
  ancestor_builder_finalise false dedup_filled true = Ok dedup_finalised ∧
  ∀ i j di dj, (i < j)%nat →
    emitted_descriptors dedup_finalised !! i = Some di →
    emitted_descriptors dedup_finalised !! j = Some dj →
    (d_frequency dj ≤ d_frequency di)%nat.
Proof.
  split; [reflexivity|].
  apply (finalise_frequencies_non_increasing false 4 3 0 true true (λ _, true)
           dedup_calls true dedup_allocated dedup_filled dedup_finalised);
    reflexivity.
Defined.

(** C2. When no site is added twice, traversing the descriptors after
    finalisation meets the site of every [add_site] call that was made
    with a frequency of two or more exactly once over all the focal-site
    lists, and meets neither the site of a call made with a frequency of
    zero or one nor a site that no call added. In terms of the builder
    that is finalised: a site occurs once when the frequency recorded
    for it is two or more, and not at all otherwise. *)
Theorem finalise_lists_each_site_once NDEBUG ns nsites flags calloc_ok arena_ok
    oracle calls malloc_ok self0 self self' :
  ancestor_builder_alloc NDEBUG ns nsites flags calloc_ok arena_ok oracle = Ok self0 →
  add_sites NDEBUG self0 calls = Ok self →
  NoDup (call_site <$> calls) →
  ancestor_builder_finalise NDEBUG self malloc_ok = Ok self' →
  ∃ foci,
    Forall2 (λ d fs, descriptor_focal_sites self' d = Ok fs)
      (emitted_descriptors self') foci ∧
    (∀ c, c ∈ calls →
       occurrences (call_site c) (concat foci)
       = if decide (2 ≤ call_frequency c)%nat then 1%nat else 0%nat) ∧
    (∀ l, l ∉ call_site <$> calls → occurrences l (concat foci) = 0%nat) ∧
    (∀ l s, sites self !! l = Some s →
       occurrences l (concat foci)
       = if decide (2 ≤ frequency s)%nat then 1%nat else 0%nat).
Proof.
  intros Halloc Hadd Hnd Hfin.
  destruct (finalised_emits _ _ _ _ _ _ _ _ _ _ _ _ Halloc Hadd Hfin)
    as (exp & Hexp & [Hem Hcap] & Hperm & Hsame & Hinv).
  exists ((λ x, [x.2]) <$> exp). split.
  { rewrite Forall2_fmap_r. eapply Forall2_impl; [exact Hem|].
    by intros d x (_ & _ & ?). }
  assert (concat ((λ x : nat * site_id_t, [x.2]) <$> exp) = exp.*2) as ->.
  { clear. induction exp as [|x exp IH]; [done|]. cbn. by rewrite IH. }
  assert (exp.*2 ≡ₚ call_site <$> filter (λ c, (2 ≤ call_frequency c)%nat) calls)
    as Hsites.
  { rewrite Hperm. unfold mapped_calls. by rewrite <- list_fmap_compose. }
  assert (NoDup (exp.*2)) as Hnd'.
  { rewrite Hsites. eapply sublist_NoDup; [exact Hnd|].
    apply fmap_sublist, sublist_filter. }
  assert (∀ l, l ∈ exp.*2 ↔
               ∃ c, c ∈ calls ∧ call_site c = l ∧ (2 ≤ call_frequency c)%nat)
    as Hin.
  { intros l. rewrite Hsites, list_elem_of_fmap. split.
    - intros (c & -> & Hc). apply list_elem_of_filter in Hc as [? ?]. eauto.
    - intros (c & ? & <- & ?). exists c. split; [done|].
      apply list_elem_of_filter. done. }
  split_and!.
  - intros c Hc. rewrite (occurrences_NoDup _ _ Hnd').
    destruct (decide (2 ≤ call_frequency c)%nat) as [Hf|Hf].
    + rewrite decide_True; [done|]. apply Hin. eauto.
    + rewrite decide_False; [done|]. intros (c' & Hc' & Heq & Hf')%Hin.
      assert (c' = c) as ->; [|done].
      apply list_elem_of_lookup in Hc as [k Hk].
      apply list_elem_of_lookup in Hc' as [k' Hk'].
      assert (k' = k) as ->; [|congruence].
      eapply NoDup_lookup; [exact Hnd| |];
        rewrite list_lookup_fmap; [by rewrite Hk'|by rewrite Hk, Heq].
  - intros l Hl. rewrite (occurrences_NoDup _ _ Hnd').
    rewrite decide_False; [done|]. intros (c & Hc & <- & _)%Hin.
    apply Hl, list_elem_of_fmap. eauto.
  - intros l s Hs. rewrite (occurrences_NoDup _ _ Hnd').
    pose proof (sites_frequency_add_sites NDEBUG self0 calls self) as Hfreq.
    specialize (Hfreq ltac:(apply alloc_Ok in Halloc as ->; cbn;
      intros ? ? [-> _]%lookup_replicate; done) Hadd Hnd l s Hs).
    assert (l ∈ exp.*2 ↔ (2 ≤ frequency s)%nat) as Hiff
      by (by rewrite Hin, Hfreq).
    destruct (decide (2 ≤ frequency s)%nat).
    + rewrite decide_True; [done|]. by apply Hiff.
    + rewrite decide_False; [done|]. by rewrite Hiff.
Qed.

Lemma finalise_lists_each_site_once_witness :
  NoDup (call_site <$> dedup_calls) ∧
  ∃ foci,
    Forall2 (λ d fs, descriptor_focal_sites dedup_finalised d = Ok fs)
      (emitted_descriptors dedup_finalised) foci ∧
    (∀ c, c ∈ dedup_calls →
       occurrences (call_site c) (concat foci)
       = if decide (2 ≤ call_frequency c)%nat then 1%nat else 0%nat) ∧
    (∀ l, l ∉ call_site <$> dedup_calls → occurrences l (concat foci) = 0%nat) ∧
    (∀ l s, sites dedup_filled !! l = Some s →
       occurrences l (concat foci)
       = if decide (2 ≤ frequency s)%nat then 1%nat else 0%nat).
Proof.
  assert (NoDup (call_site <$> dedup_calls)) as Hnd
    by (apply (bool_decide_unpack _); vm_compute; exact I).
  split; [exact Hnd|].
  apply (finalise_lists_each_site_once false 4 3 0 true true (λ _, true)
           dedup_calls true dedup_allocated dedup_filled dedup_finalised);
    [reflexivity|reflexivity|exact Hnd|reflexivity].
Defined.

(** C9, as stated: the focal-site array of an entry is not ascending
    whatever the order of the calls. Adding site 1 before site 0 with the
    same pattern materialises the array [1; 0]. *)
Lemma focal_arrays_ascending_fails :
  add_sites false dedup_allocated swapped_calls = Ok swapped_filled ∧
  ancestor_builder_finalise false swapped_filled true = Ok swapped_finalised ∧
  site_arrays (allocator swapped_finalised) = [[2%nat]; [1%nat; 0%nat]] ∧
  ¬ focal_arrays_ascending swapped_finalised.
Proof.
  split_and!; try reflexivity.
  intros H. specialize (H [1%nat; 0%nat]).
  assert ([1%nat; 0%nat] ∈ site_arrays (allocator swapped_finalised)) as Hin
    by (cbn; repeat constructor).
  apply H in Hin. apply StronglySorted_inv in Hin as [_ Hall].
  apply Forall_inv in Hall. lia.
Qed.

(** C9, amended. Finalisation materialises the site list of every visited
    entry into a focal-site array by reversing the front-inserted linked
    list; the array therefore lists the sites of the entry in the order
    in which they were added, and it is in ascending SiteId order when
    the calls were made in ascending SiteId order. *)
Theorem finalise_arrays_in_call_order NDEBUG ns nsites flags calloc_ok arena_ok
    oracle calls malloc_ok self0 self self' :
  ancestor_builder_alloc NDEBUG ns nsites flags calloc_ok arena_ok oracle = Ok self0 →
  add_sites NDEBUG self0 calls = Ok self →
  ancestor_builder_finalise NDEBUG self malloc_ok = Ok self' →
  site_arrays (allocator self')
  = materialised_arrays (frequency_map self) (visited_frequencies self) ∧
  (∀ array, array ∈ site_arrays (allocator self') →
     array `sublist_of` (call_site <$> calls)) ∧
  (StronglySorted lt (call_site <$> calls) →
   ∀ array, array ∈ site_arrays (allocator self') → StronglySorted lt array).
Proof.
  intros Halloc Hadd Hfin.
  pose proof (builder_inv_alloc _ _ _ _ _ _ _ _ Halloc) as Hinv0.
  pose proof (builder_inv_add_sites _ _ _ _ Hinv0 Hadd) as (Hlen & Hok & Harr).
  assert (site_arrays (allocator self')
          = materialised_arrays (frequency_map self) (visited_frequencies self))
    as Harrays.
  { unfold ancestor_builder_finalise in Hfin. destruct malloc_ok; [|done].
    cbn in Hfin. apply finalise_frequencies_arrays in Hfin as [-> _]; [|done].
    cbn. by rewrite Harr. }
  assert (∀ array, array ∈ site_arrays (allocator self') →
            array `sublist_of` (call_site <$> calls)) as Hsub.
  { intros array Harray. rewrite Harrays in Harray.
    unfold materialised_arrays in Harray.
    apply list_elem_of_bind in Harray as (j & Harray & _).
    apply list_elem_of_fmap in Harray as (m & -> & Hm).
    destruct (frequency_map self !! j) as [tree|] eqn:Htree;
      [|by apply elem_of_nil in Hm].
    eapply (entry_sites_sublist NDEBUG self0 calls self); eauto.
    apply alloc_Ok in Halloc as ->. cbn.
    intros f t m' [-> _]%lookup_replicate. apply not_elem_of_nil. }
  split_and!; [done..|].
  intros Hsorted array Harray. eauto using StronglySorted_sublist.
Qed.

Lemma finalise_arrays_in_call_order_witness :
  ancestor_builder_finalise false dedup_filled true = Ok dedup_finalised ∧
  site_arrays (allocator dedup_finalised)
  = materialised_arrays (frequency_map dedup_filled)
      (visited_frequencies dedup_filled) ∧
  (∀ array, array ∈ site_arrays (allocator dedup_finalised) →
     array `sublist_of` (call_site <$> dedup_calls)) ∧
  (StronglySorted lt (call_site <$> dedup_calls) →
   ∀ array, array ∈ site_arrays (allocator dedup_finalised) →
     StronglySorted lt array).
Proof.
  split; [reflexivity|].
  apply (finalise_arrays_in_call_order false 4 3 0 true true (λ _, true)
           dedup_calls true dedup_allocated dedup_filled dedup_finalised);
    reflexivity.
Defined.

(** ** Shared genotype buffers *)

(** C10. After a sequence of successful [add_site] calls, the site of
    every call made with a frequency of two or more (and not added again
    later) points to a buffer that holds the bytes supplied for it; this
    buffer is the copy made at the first call with that frequency and
    these bytes, and two such sites added at the same frequency with
    byte-identical genotypes hold the same pointer. *)
Theorem add_site_shares_canonical_buffer NDEBUG ns nsites flags calloc_ok arena_ok
    oracle calls self0 self :
  ancestor_builder_alloc NDEBUG ns nsites flags calloc_ok arena_ok oracle = Ok self0 →
  add_sites NDEBUG self0 calls = Ok self →
  (∀ k l f g,
     calls !! k = Some (l, f, g) → (2 ≤ f)%nat → last_call_of_site calls k l →
     ∃ p buf,
       sites self !! l = Some (mk_site f (Some p)) ∧
       genotype_bufs (allocator self) !! p = Some buf ∧
       bytes buf = bytes (take ns g) ∧
       ∃ k0 l0 g0,
         calls !! k0 = Some (l0, f, g0) ∧ buf = take ns g0 ∧
         first_call_of_pattern ns calls k0 f (bytes (take ns g))) ∧
  (∀ k1 k2 l1 l2 f g1 g2 s1 s2,
     calls !! k1 = Some (l1, f, g1) → calls !! k2 = Some (l2, f, g2) →
     (2 ≤ f)%nat →
     last_call_of_site calls k1 l1 → last_call_of_site calls k2 l2 →
     bytes (take ns g1) = bytes (take ns g2) →
     sites self !! l1 = Some s1 → sites self !! l2 = Some s2 →
     genotypes s1 = genotypes s2 ∧ genotypes s1 ≠ None).
Proof.
  intros Halloc Hadd.
  pose proof (dedup_inv_add_sites _ _ _ _ (dedup_inv_alloc _ _ _ _ _ _ _ _ Halloc) Hadd)
    as Hinv.
  assert (num_samples self = ns) as Hns.
  { rewrite (num_samples_add_sites _ _ _ _ Hadd).
    by apply alloc_Ok in Halloc as ->. }
  split.
  - intros k l f g Hk Hf Hlast.
    destruct (dedup_site _ _ Hinv k _ Hk Hf Hlast) as (p & buf & Hs & Hp & Hbuf & Hb).
    destruct (dedup_canonical _ _ Hinv _ _ Hp)
      as (k0 & [[l0 f0] g0] & Hk0 & Hf0 & Hbuf0 & _ & Hfirst).
    cbn in *. unfold call_bytes, call_genotypes in *. cbn in *. subst f0.
    rewrite Hns in *. rewrite Hbuf in Hbuf0. injection Hbuf0 as ->.
    exists p, (take ns g0). split_and!; try done.
    exists k0, l0, g0. split_and!; try done. by rewrite <- Hb.
  - intros k1 k2 l1 l2 f g1 g2 s1 s2 Hk1 Hk2 Hf Hlast1 Hlast2 Hbytes Hs1 Hs2.
    destruct (dedup_site _ _ Hinv k1 _ Hk1 Hf Hlast1)
      as (p1 & b1 & Hs1' & Hp1 & Hb1 & Hbytes1).
    destruct (dedup_site _ _ Hinv k2 _ Hk2 Hf Hlast2)
      as (p2 & b2 & Hs2' & Hp2 & Hb2 & Hbytes2).
    cbn in *. unfold call_bytes, call_genotypes in *. cbn in *.
    rewrite Hns in *.
    rewrite Hs1 in Hs1'. injection Hs1' as ->.
    rewrite Hs2 in Hs2'. injection Hs2' as ->. cbn. split; [|done].
    f_equal. apply (dedup_distinct _ _ Hinv f p1 p2 b1 b2); try done.
    congruence.
Qed.

Lemma add_site_shares_canonical_buffer_witness :
  add_sites false dedup_allocated dedup_calls = Ok dedup_filled ∧
  sites dedup_filled
  = [mk_site 2 (Some 0%nat); mk_site 2 (Some 0%nat); mk_site 2 (Some 1%nat)] ∧
  (∀ k l f g,
     dedup_calls !! k = Some (l, f, g) → (2 ≤ f)%nat →
     last_call_of_site dedup_calls k l →
     ∃ p buf,
       sites dedup_filled !! l = Some (mk_site f (Some p)) ∧
       genotype_bufs (allocator dedup_filled) !! p = Some buf ∧
       bytes buf = bytes (take 4 g) ∧
       ∃ k0 l0 g0,
         dedup_calls !! k0 = Some (l0, f, g0) ∧ buf = take 4 g0 ∧
         first_call_of_pattern 4 dedup_calls k0 f (bytes (take 4 g))) ∧
  (∀ k1 k2 l1 l2 f g1 g2 s1 s2,
     dedup_calls !! k1 = Some (l1, f, g1) → dedup_calls !! k2 = Some (l2, f, g2) →
     (2 ≤ f)%nat →
     last_call_of_site dedup_calls k1 l1 → last_call_of_site dedup_calls k2 l2 →
     bytes (take 4 g1) = bytes (take 4 g2) →
     sites dedup_filled !! l1 = Some s1 → sites dedup_filled !! l2 = Some s2 →
     genotypes s1 = genotypes s2 ∧ genotypes s1 ≠ None).
Proof.
  split; [reflexivity|]. split; [reflexivity|].
  apply (add_site_shares_canonical_buffer false 4 3 0 true true (λ _, true)
           dedup_calls dedup_allocated dedup_filled); reflexivity.
Defined.

(** ** The Threader binding *)

(** C4. Once validation has passed and the mutations buffer is
    allocated, the value returned by [threader_run] has no effect on the
    result of [Threader_run]: the library error is never raised, and the
    call proceeds as for a successful HMM run (it returns the mutations
    array unless that array cannot be allocated). *)
Theorem Threader_run_discards_hmm_error (c : Threader.call) :
  Threader.reaches_hmm c →
  (∀ err, Threader.Threader_run c ≠ Threader.Raised (Threader.TsinfLibraryError err)) ∧
  (∀ err, Threader.Threader_run (Threader.with_err c err) = Threader.Threader_run c) ∧
  Threader.Threader_run c
  = if Threader.mutations_array_allocated c
    then Threader.Returned (take (Threader.num_mutations c) (Threader.mutations c))
    else Threader.Raised Threader.MemoryError.
Proof.
  intros (Hstate & Hargs & Hidx & (shape0 & Hpath & Hshape) & Hmalloc).
  assert (∀ err, Threader.Threader_run (Threader.with_err c err)
                 = if Threader.mutations_array_allocated c
                   then Threader.Returned
                          (take (Threader.num_mutations c) (Threader.mutations c))
                   else Threader.Raised Threader.MemoryError) as Hrun.
  { intros err. unfold Threader.Threader_run.
    assert (Threader.Threader_check_state (Threader.with_err c err) = None) as ->
      by exact Hstate.
    cbn. rewrite Hargs, Hpath, Hmalloc. cbn.
    replace (Threader.num_haplotypes c <=? Threader.haplotype_index c) with false
      by (symmetry; apply Z.leb_gt; lia).
    rewrite Hshape, Z.eqb_refl. cbn.
    unfold Threader.Threader_run_hmm. cbn.
    by destruct (Threader.mutations_array_allocated c). }
  assert (Threader.with_err c (Threader.threader_run_err c) = c) as Hc
    by (by destruct c).
  pose proof (Hrun (Threader.threader_run_err c)) as Hrun0. rewrite Hc in Hrun0.
  split_and!.
  - intros err. rewrite Hrun0.
    by destruct (Threader.mutations_array_allocated c).
  - intros err. by rewrite Hrun, Hrun0.
  - exact Hrun0.
Qed.

Lemma Threader_run_discards_hmm_error_witness :
  Threader.reaches_hmm failing_hmm_call ∧
  Threader.threader_run_err failing_hmm_call = -2 ∧
  Threader.Threader_run failing_hmm_call = Threader.Returned [0; 2].
Proof.
  assert (Threader.reaches_hmm failing_hmm_call) as Hreach.
  { unfold Threader.reaches_hmm. split_and!; try reflexivity.
    exists 3. split; reflexivity. }
  split; [exact Hreach|]. split; [reflexivity|].
  destruct (Threader_run_discards_hmm_error failing_hmm_call Hreach)
    as (_ & _ & Hrun).
  exact Hrun.
Defined.

(** ** Consensus propagation *)

Lemma read_sample_Ok {A : Type} (a : list A) (u : node_id_t) ns :
  0 ≤ u < Z.of_nat ns → length a = ns →
  ∃ x, read_sample a u = Ok x ∧ a !! Z.to_nat u = Some x.
Proof.
  intros Hu Hlen. unfold read_sample.
  replace (u <? 0) with false by (symmetry; apply Z.ltb_ge; lia).
  destruct (a !! Z.to_nat u) as [x|] eqn:E; [eauto|].
  apply lookup_ge_None in E. lia.
Qed.

Lemma instance_decision_evicted disagree genotypes c u :
  Decision (evicted disagree genotypes c u).
Proof. unfold evicted, allele_at. apply _. Qed.

#[local] Existing Instance instance_decision_evicted.

(** The sum that [count_ones] computes. *)
Lemma count_ones_sum genotypes ns : ∀ sample_set ones,
  valid_samples ns sample_set → length genotypes = ns →
  ∃ total, count_ones genotypes sample_set ones = Ok total.
Proof.
  induction sample_set as [|u rest IH]; intros ones Hv Hlen; cbn.
  - eauto.
  - apply Forall_cons in Hv as [Hu Hv].
    destruct (read_sample_Ok genotypes u ns Hu Hlen) as (g & -> & _). cbn. eauto.
Qed.

Lemma count_ones_binary genotypes : ∀ sample_set ones,
  Forall (λ u, 0 ≤ u ∧ (allele_at genotypes u = Some 0 ∨
                        allele_at genotypes u = Some 1)) sample_set →
  0 ≤ ones →
  ones + Z.of_nat (count_allele 1 genotypes sample_set) < SIZE_MOD →
  count_ones genotypes sample_set ones
  = Ok (ones + Z.of_nat (count_allele 1 genotypes sample_set)).
Proof.
  unfold count_allele.
  induction sample_set as [|u rest IH]; intros ones Hb Hones Hbound;
    cbn [count_ones].
  - cbn. by rewrite Z.add_0_r.
  - apply Forall_cons in Hb as [[Hu Hg] Hb].
    rewrite filter_cons in Hbound |- *. unfold read_sample.
    replace (u <? 0) with false by (symmetry; apply Z.ltb_ge; lia).
    unfold allele_at in *. unfold size_wrap.
    destruct Hg as [Hg|Hg]; rewrite Hg in *; cbn [defined mbind outcome_bind].
    + rewrite decide_False in Hbound |- * by done.
      rewrite Z.add_0_r, Z.mod_small by (unfold SIZE_MOD in *; lia).
      by apply IH.
    + rewrite decide_True in Hbound |- * by done. cbn [length] in *.
      rewrite Z.mod_small by (unfold SIZE_MOD in *; lia).
      rewrite IH; [f_equal; lia|done|lia|lia].
Qed.

Lemma count_allele_binary genotypes sample_set :
  Forall (λ u, 0 ≤ u ∧ (allele_at genotypes u = Some 0 ∨
                        allele_at genotypes u = Some 1)) sample_set →
  (count_allele 0 genotypes sample_set + count_allele 1 genotypes sample_set
   = length sample_set)%nat.
Proof.
  unfold count_allele. induction 1 as [|u rest [_ Hg] _ IH]; [done|].
  rewrite !filter_cons. cbn [length].
  destruct Hg as [Hg|Hg]; rewrite Hg.
  - rewrite decide_True by done. rewrite decide_False by done. cbn. lia.
  - rewrite decide_False by done. rewrite decide_True by done. cbn. lia.
Qed.

Lemma site_consensus_binary_value genotypes ns sample_set :
  valid_samples ns sample_set → length genotypes = ns →
  ∃ c, site_consensus genotypes sample_set = Ok c ∧ (c = 0 ∨ c = 1).
Proof.
  intros Hv Hlen. unfold site_consensus.
  destruct (count_ones_sum genotypes ns sample_set 0 Hv Hlen) as (total & ->).
  cbn. eexists. split; [done|]. destruct (_ <=? _); auto.
Qed.

Lemma site_consensus_counts genotypes sample_set :
  Forall (λ u, 0 ≤ u ∧ (allele_at genotypes u = Some 0 ∨
                        allele_at genotypes u = Some 1)) sample_set →
  Z.of_nat (length sample_set) < SIZE_MOD →
  site_consensus genotypes sample_set
  = Ok (if decide (count_allele 0 genotypes sample_set
                   ≤ count_allele 1 genotypes sample_set)%nat
        then 1 else 0).
Proof.
  intros Hb Hbound. unfold site_consensus.
  pose proof (count_allele_binary _ _ Hb) as Hsum.
  rewrite count_ones_binary by (try done; lia).
  cbn. f_equal. unfold size_wrap.
  replace (Z.of_nat (length sample_set)
           - (0 + Z.of_nat (count_allele 1 genotypes sample_set)))
    with (Z.of_nat (count_allele 0 genotypes sample_set)) by lia.
  rewrite Z.mod_small by lia.
  destruct (decide _) as [Hle|Hgt].
  - replace (_ <=? _) with true; [done|]. symmetry. apply Z.leb_le. lia.
  - replace (_ <=? _) with false; [done|]. symmetry. apply Z.leb_gt. lia.
Qed.

Lemma mark_removed_repack disagree genotypes c ns : ∀ sample_set,
  valid_samples ns sample_set → length disagree = ns → length genotypes = ns →
  ∃ marked, mark_removed disagree genotypes c sample_set = Ok marked ∧
            repack marked = filter (λ u, ¬ evicted disagree genotypes c u) sample_set.
Proof.
  intros sample_set Hv Hd Hg.
  induction sample_set as [|u rest IH]; cbn [mark_removed].
  - by exists [].
  - apply Forall_cons in Hv as [Hu Hv]. destruct (IH Hv) as (rest' & -> & Hrest).
    destruct (read_sample_Ok disagree u ns Hu Hd) as (d & -> & Hdu).
    destruct (read_sample_Ok genotypes u ns Hu Hg) as (g & Hrg & Hgu).
    cbn [mbind outcome_bind]. unfold repack in *. rewrite filter_cons.
    destruct d.
    + rewrite Hrg. cbn [mbind outcome_bind]. eexists. split; [done|].
      rewrite filter_cons. destruct (g =? c) eqn:Hgc.
      * apply Z.eqb_eq in Hgc as ->.
        assert (¬ evicted disagree genotypes c u) as Hk
          by (unfold evicted, allele_at; rewrite Hgu; by intros [_ ?]).
        rewrite decide_True by lia. rewrite decide_True by done.
        by rewrite Hrest.
      * apply Z.eqb_neq in Hgc.
        assert (evicted disagree genotypes c u) as Hk
          by (unfold evicted, allele_at; rewrite Hgu; split; congruence).
        rewrite decide_False by (intros ?; done).
        rewrite decide_False; [done|]. intros H. by apply H.
    + cbn [mbind outcome_bind]. eexists. split; [done|].
      assert (¬ evicted disagree genotypes c u) as Hk
        by (unfold evicted; rewrite Hdu; by intros [? _]).
      rewrite filter_cons. rewrite decide_True by lia.
      rewrite decide_True by done. by rewrite Hrest.
Qed.

Lemma set_disagree_flags genotypes c ns : ∀ sample_set disagree,
  valid_samples ns sample_set → length disagree = ns → length genotypes = ns →
  ∃ disagree',
    set_disagree disagree genotypes c sample_set = Ok disagree' ∧
    length disagree' = ns ∧
    ∀ u, u ∈ sample_set →
      ∃ a, allele_at genotypes u = Some a ∧
           disagree' !! Z.to_nat u = Some (negb (a =? c)).
Proof.
  induction sample_set as [|u rest IH]; intros disagree Hv Hd Hg;
    cbn [set_disagree].
  - exists disagree. split_and!; try done. intros u Hu. by apply elem_of_nil in Hu.
  - apply Forall_cons in Hv as [Hu Hv].
    destruct (read_sample_Ok genotypes u ns Hu Hg) as (g & -> & Hgu).
    destruct (read_sample_Ok disagree u ns Hu Hd) as (d & -> & Hdu).
    cbn [mbind outcome_bind].
    (* the flags written for the rest do not undo the one written for [u] *)
    assert (∀ rest disagree,
              valid_samples ns rest → length disagree = ns →
              ∃ disagree', set_disagree disagree genotypes c rest = Ok disagree' ∧
                           length disagree' = ns ∧
                           (u ∉ rest → disagree' !! Z.to_nat u = disagree !! Z.to_nat u))
      as Hkeep.
    { clear -Hu Hg. induction rest as [|v rest IH]; intros disagree Hv Hd;
        cbn [set_disagree].
      - eauto.
      - apply Forall_cons in Hv as [Hv1 Hv].
        destruct (read_sample_Ok genotypes v ns Hv1 Hg) as (g & -> & _).
        destruct (read_sample_Ok disagree v ns Hv1 Hd) as (d & -> & _).
        cbn [mbind outcome_bind].
        destruct (IH (<[Z.to_nat v := negb (g =? c)]> disagree) Hv)
          as (d' & Hd' & Hlen & Hsame); [by rewrite length_insert|].
        exists d'. split_and!; try done. intros Hnot.
        apply not_elem_of_cons in Hnot as [Hne Hnot].
        rewrite (Hsame Hnot), list_lookup_insert_ne; [done|lia]. }
    destruct (IH (<[Z.to_nat u := negb (g =? c)]> disagree) Hv)
      as (d' & Hd' & Hlen & Hflags); [by rewrite length_insert|done|].
    exists d'. split_and!; try done. intros u' Hu'.
    destruct (decide (u' ∈ rest)) as [Hin|Hnot]; [auto|].
    apply elem_of_cons in Hu' as [->|?]; [|done].
    exists g. split; [done|].
    destruct (Hkeep rest (<[Z.to_nat u := negb (g =? c)]> disagree) Hv)
      as (d'' & Hd'' & _ & Hsame); [by rewrite length_insert|].
    rewrite Hd' in Hd''. injection Hd'' as <-.
    rewrite (Hsame Hnot). apply list_lookup_insert_eq. lia.
Qed.


Lemma valid_samples_filter ns (P : node_id_t → Prop) `{∀ u, Decision (P u)} S :
  valid_samples ns S → valid_samples ns (filter P S).
Proof.
  unfold valid_samples. rewrite !Forall_forall. intros Hv u Hu.
  apply list_elem_of_filter in Hu as [_ Hu]. auto.
Qed.

Lemma repacked_sample_set_spec ns genotypes st c :
  length genotypes = ns → valid_state ns st →
  site_consensus genotypes (os_sample_set st) = Ok c →
  repacked_sample_set genotypes st
  = Ok (filter (λ u, ¬ evicted (os_disagree st) genotypes c u) (os_sample_set st)).
Proof.
  intros Hlen [Hv Hd] Hc.
  destruct (mark_removed_repack (os_disagree st) genotypes c ns
              (os_sample_set st) Hv Hd Hlen) as (marked & Hmark & Hrepack).
  unfold repacked_sample_set. rewrite Hc. cbn. rewrite Hmark. cbn.
  by rewrite Hrepack.
Qed.

(** One iteration, when all its reads are in bounds. *)
Lemma older_site_step_spec self ns min st l genotypes c :
  site_genotypes self l = Ok genotypes → length genotypes = ns →
  valid_state ns st → (l < length (os_ancestor st))%nat →
  site_consensus genotypes (os_sample_set st) = Ok c →
  ∃ sample_set,
    sample_set = filter (λ u, ¬ evicted (os_disagree st) genotypes c u)
                   (os_sample_set st) ∧
    valid_samples ns sample_set ∧
    repacked_sample_set genotypes st = Ok sample_set ∧
    if (length sample_set <=? min)%nat
    then older_site_step self min st l = Ok Break
    else ∃ disagree,
      older_site_step self min st l
      = Ok (Continue (mk_older_state (<[l := c]> (os_ancestor st))
                        sample_set disagree l)) ∧
      length disagree = ns ∧
      ∀ u, u ∈ sample_set →
        ∃ a, allele_at genotypes u = Some a ∧
             disagree !! Z.to_nat u = Some (negb (a =? c)).
Proof.
  intros Hg Hlen [Hv Hd] Hl Hc.
  destruct (mark_removed_repack (os_disagree st) genotypes c ns
              (os_sample_set st) Hv Hd Hlen) as (marked & Hmark & Hrepack).
  exists (filter (λ u, ¬ evicted (os_disagree st) genotypes c u) (os_sample_set st)).
  split; [done|].
  assert (valid_samples ns (filter (λ u, ¬ evicted (os_disagree st) genotypes c u)
                              (os_sample_set st))) as Hv'
    by (by apply valid_samples_filter).
  split; [done|].
  assert (repacked_sample_set genotypes st
          = Ok (filter (λ u, ¬ evicted (os_disagree st) genotypes c u)
                  (os_sample_set st))) as Hrep.
  { unfold repacked_sample_set. rewrite Hc. cbn. rewrite Hmark. cbn.
    by rewrite Hrepack. }
  split; [done|].
  unfold older_site_step. rewrite Hg. cbn. rewrite Hc. cbn. rewrite Hrep. cbn.
  destruct (_ <=? _)%nat; [done|].
  destruct (lookup_lt_is_Some_2 _ _ Hl) as [a0 Ha0]. rewrite Ha0. cbn.
  destruct (set_disagree_flags genotypes c ns _ (os_disagree st) Hv' Hd Hlen)
    as (d' & -> & Hlen' & Hflags).
  cbn. eauto.
Qed.

(** ** The claims on [compute_older_sites] *)

(** C5. At a processed older site whose genotypes over the working
    sample set are 0 or 1, the consensus is 1 exactly when the number of
    ones is at least the number of zeros, and 0 otherwise; this is the
    allele written to the ancestor when the loop goes on. *)
Theorem consensus_is_majority_with_ties_to_one self min st l genotypes :
  site_genotypes self l = Ok genotypes →
  Forall (λ u, 0 ≤ u ∧ (allele_at genotypes u = Some 0 ∨
                        allele_at genotypes u = Some 1)) (os_sample_set st) →
  Z.of_nat (length (os_sample_set st)) < SIZE_MOD →
  site_consensus genotypes (os_sample_set st)
  = Ok (if decide (count_allele 0 genotypes (os_sample_set st)
                   ≤ count_allele 1 genotypes (os_sample_set st))%nat
        then 1 else 0) ∧
  ∀ st', older_site_step self min st l = Ok (Continue st') →
    os_ancestor st' !! l
    = Some (if decide (count_allele 0 genotypes (os_sample_set st)
                       ≤ count_allele 1 genotypes (os_sample_set st))%nat
            then 1 else 0).
Proof.
  intros Hg Hb Hbound.
  pose proof (site_consensus_counts _ _ Hb Hbound) as Hc.
  split; [done|]. intros st' H. unfold older_site_step in H.
  rewrite Hg in H. cbn in H. rewrite Hc in H. cbn in H.
  inv_bind H. destruct (_ <=? _)%nat; [done|].
  inv_bind H. inv_Ok. inv_bind H. inv_Ok. cbn.
  apply list_lookup_insert_eq. by eapply lookup_lt_Some.
Qed.


(** C7. [compute_older_sites] computes its threshold once, as half the
    size of the sample set it is entered with (rounded down). At a site
    the loop stops exactly when the repacked sample set has at most that
    many members; it then returns the ancestor and [last_site] as they
    were, and otherwise writes the consensus at the site and moves
    [last_site] there. *)
Theorem early_stop_at_half_initial_size self ns min st l rest genotypes c
    focal_site ancestor older_sites sample_set0 :
  site_genotypes self l = Ok genotypes → length genotypes = ns →
  valid_state ns st → (l < length (os_ancestor st))%nat →
  site_consensus genotypes (os_sample_set st) = Ok c →
  ancestor_builder_compute_older_sites self focal_site ancestor older_sites
    sample_set0 true
  = (st' ← older_sites_loop self (length sample_set0 / 2)
            (mk_older_state ancestor sample_set0
               (replicate (num_samples self) false) focal_site) older_sites;
     Ok (os_ancestor st', os_last_site st')) ∧
  ∃ sample_set,
    repacked_sample_set genotypes st = Ok sample_set ∧
    (older_site_step self min st l = Ok Break ↔ (length sample_set ≤ min)%nat) ∧
    ((length sample_set ≤ min)%nat →
     older_sites_loop self min st (l :: rest) = Ok st) ∧
    ((min < length sample_set)%nat →
     ∃ disagree,
       older_sites_loop self min st (l :: rest)
       = older_sites_loop self min
           (mk_older_state (<[l := c]> (os_ancestor st)) sample_set disagree l)
           rest).
Proof.
  intros Hg Hlen Hst Hl Hc. split; [done|].
  destruct (older_site_step_spec self ns min st l genotypes c Hg Hlen Hst Hl Hc)
    as (S' & _ & _ & Hrep & Hcase).
  exists S'. split; [done|].
  destruct (length S' <=? min)%nat eqn:E.
  - apply Nat.leb_le in E. split_and!; try done; [|lia].
    intros _. cbn. by rewrite Hcase.
  - apply Nat.leb_gt in E. destruct Hcase as (d' & Hstep & _).
    split_and!.
    + split; [congruence|lia].
    + lia.
    + intros _. exists d'. cbn. by rewrite Hstep.
Qed.

(** The claims at the eviction run. *)

Lemma consensus_is_majority_with_ties_to_one_witness :
  site_genotypes eviction_finalised 3 = Ok [0; 1; 1; 1; 1] ∧
  os_sample_set eviction_state_2 = [0; 1] ∧
  site_consensus [0; 1; 1; 1; 1] [0; 1] = Ok 1 ∧
  ∀ st', older_site_step eviction_finalised 1 eviction_state_2 3 = Ok (Continue st') →
    os_ancestor st' !! 3%nat = Some 1.
Proof.
  split; [reflexivity|]. split; [reflexivity|].
  apply (consensus_is_majority_with_ties_to_one eviction_finalised 1
           eviction_state_2 3 [0; 1; 1; 1; 1]).
  - reflexivity.
  - repeat constructor; (lia || (by left) || (by right)).
  - reflexivity.
Defined.


Lemma early_stop_at_half_initial_size_witness :
  ancestor_builder_compute_older_sites eviction_finalised 0 [1; -1; -1; -1]
    [1; 2; 3]%nat [0; 1; 2] true
  = (st' ← older_sites_loop eviction_finalised (length [0; 1; 2] / 2)
            (mk_older_state [1; -1; -1; -1] [0; 1; 2]
               (replicate (num_samples eviction_finalised) false) 0)
            [1; 2; 3]%nat;
     Ok (os_ancestor st', os_last_site st')) ∧
  ∃ sample_set,
    repacked_sample_set [1; 1; 0; 1; 1] eviction_state_1 = Ok sample_set ∧
    (older_site_step eviction_finalised 1 eviction_state_1 2 = Ok Break ↔
     (length sample_set ≤ 1)%nat) ∧
    ((length sample_set ≤ 1)%nat →
     older_sites_loop eviction_finalised 1 eviction_state_1 [2; 3]%nat
     = Ok eviction_state_1) ∧
    ((1 < length sample_set)%nat →
     ∃ disagree,
       older_sites_loop eviction_finalised 1 eviction_state_1 [2; 3]%nat
       = older_sites_loop eviction_finalised 1
           (mk_older_state (<[2%nat := 1]> (os_ancestor eviction_state_1))
              sample_set disagree 2)
           [3%nat]).
Proof.
  apply (early_stop_at_half_initial_size eviction_finalised 5 1 eviction_state_1 2
           [3%nat] [1; 1; 0; 1; 1] 1 0%nat [1; -1; -1; -1] [1; 2; 3]%nat [0; 1; 2]);
    try reflexivity.
  - split; [|reflexivity]. repeat constructor; lia.
  - cbn. lia.
Defined.

(** ** The two passes of [make_ancestor] *)

Lemma last_cons_default {A : Type} (x d : A) (l : list A) :
  default d (last (x :: l)) = default x (last l).
Proof. rewrite last_cons. by destruct (last l). Qed.

(** The loop of [compute_older_sites] runs to its end or to the first
    break; it writes 0 or 1 at the sites of a prefix of its list and
    nothing else, and [last_site] is the last site of that prefix. *)
Lemma older_sites_loop_spec self ns min : ∀ older_sites st,
  (∀ l, l ∈ older_sites →
     (l < length (os_ancestor st))%nat ∧
     ∃ g, site_genotypes self l = Ok g ∧ length g = ns) →
  valid_state ns st →
  ∃ st' k,
    older_sites_loop self min st older_sites = Ok st' ∧
    length (os_ancestor st') = length (os_ancestor st) ∧
    (∀ i, i ∉ take k older_sites → os_ancestor st' !! i = os_ancestor st !! i) ∧
    (∀ i, i ∈ take k older_sites →
       os_ancestor st' !! i = Some 0 ∨ os_ancestor st' !! i = Some 1) ∧
    os_last_site st' = default (os_last_site st) (last (take k older_sites)).
Proof.
  induction older_sites as [|l rest IH]; intros st Hsites Hst.
  - exists st, O. split_and!; try done. intros i Hi. by apply elem_of_nil in Hi.
  - destruct (Hsites l) as (Hl & g & Hg & Hlen); [by left|].
    destruct Hst as [Hv Hd].
    destruct (site_consensus_binary_value g ns _ Hv Hlen) as (c & Hc & Hc01).
    destruct (older_site_step_spec self ns min st l g c Hg Hlen (conj Hv Hd) Hl Hc)
      as (S' & _ & Hv' & _ & Hcase).
    cbn [older_sites_loop].
    destruct (length S' <=? min)%nat.
    + rewrite Hcase. cbn. exists st, O. split_and!; try done.
      intros i Hi. by apply elem_of_nil in Hi.
    + destruct Hcase as (d' & -> & Hd' & _). cbn.
      destruct (IH (mk_older_state (<[l := c]> (os_ancestor st)) S' d' l))
        as (st' & k & Hloop & Hlen' & Hout & Hin & Hlast).
      { intros l' Hl'. cbn. rewrite length_insert. apply Hsites. by right. }
      { done. }
      cbn in *. rewrite length_insert in Hlen'.
      exists st', (S k). cbn [take]. split_and!; try done.
      * intros i Hi. apply not_elem_of_cons in Hi as [Hne Hi].
        rewrite (Hout i Hi). by apply list_lookup_insert_ne.
      * intros i Hi. destruct (decide (i ∈ take k rest)) as [Hi'|Hi']; [auto|].
        apply elem_of_cons in Hi as [->|?]; [|done].
        rewrite (Hout l Hi'), list_lookup_insert_eq by done.
        destruct Hc01 as [-> | ->]; auto.
      * by rewrite last_cons_default.
Qed.

Lemma compute_older_sites_spec self ns focal_site ancestor older_sites sample_set :
  (∀ l, l ∈ older_sites →
     (l < length ancestor)%nat ∧
     ∃ g, site_genotypes self l = Ok g ∧ length g = ns) →
  valid_samples ns sample_set → num_samples self = ns →
  ∃ ancestor' k,
    ancestor_builder_compute_older_sites self focal_site ancestor older_sites
      sample_set true
    = Ok (ancestor', default focal_site (last (take k older_sites))) ∧
    length ancestor' = length ancestor ∧
    (∀ i, i ∉ take k older_sites → ancestor' !! i = ancestor !! i) ∧
    (∀ i, i ∈ take k older_sites →
       ancestor' !! i = Some 0 ∨ ancestor' !! i = Some 1).
Proof.
  intros Hsites Hv Hns. unfold ancestor_builder_compute_older_sites.
  cbv zeta. cbn [negb].
  destruct (older_sites_loop_spec self ns (length sample_set / 2) older_sites
              (mk_older_state ancestor sample_set (replicate (num_samples self) false)
                 focal_site))
    as (st' & k & -> & Hlen & Hout & Hin & Hlast); [done| |].
  { split; [done|]. cbn. by rewrite length_replicate. }
  cbn in *. exists (os_ancestor st'), k. by rewrite Hlast.
Qed.

(** Membership in a prefix of a sorted list, told by its last element. *)
Lemma sorted_prefix_elem {A : Type} (R : relation A) `{!Irreflexive R}
    `{!Transitive R} (l : list A) (k : nat) (m x : A) :
  StronglySorted R l → last (take k l) = Some m → x ∈ l →
  x ∈ take k l ↔ x = m ∨ R x m.
Proof.
  intros Hs Hm Hx. rewrite <- (take_drop k l) in Hs, Hx.
  apply StronglySorted_app in Hs as (Hcross & Hs1 & _).
  apply last_Some in Hm as [init Hinit]. rewrite Hinit in *.
  apply StronglySorted_app in Hs1 as (Hinit_m & _ & _).
  split.
  - intros [Hx'| ->%list_elem_of_singleton]%elem_of_app; [|by left].
    right. apply Hinit_m; [done|]. by apply list_elem_of_singleton.
  - intros Hxm. apply elem_of_app in Hx as [?|Hx]; [done|]. exfalso.
    assert (R m x) as Hmx
      by (apply Hcross; [apply elem_of_app; right; by apply list_elem_of_singleton|done]).
    destruct Hxm as [->|Hxm]; [by apply (irreflexivity R) in Hmx|].
    apply (irreflexivity R m). by transitivity x.
Qed.

Lemma site_frequency_lookup self l s :
  sites self !! l = Some s → site_frequency self l = frequency s.
Proof. unfold site_frequency. by intros ->. Qed.

Lemma collect_older_sites_spec self f ls :
  Forall (λ l, (l < length (sites self))%nat) ls →
  collect_older_sites self f ls
  = Ok (filter (λ l, (f < site_frequency self l)%nat) ls).
Proof.
  induction 1 as [|l ls Hl _ IH]; [done|]. cbn [collect_older_sites].
  destruct (lookup_lt_is_Some_2 _ _ Hl) as [s Hs]. rewrite Hs, IH.
  cbn [defined mbind outcome_bind].
  rewrite filter_cons, (site_frequency_lookup _ _ _ Hs).
  destruct (f <? frequency s)%nat eqn:E.
  - apply Nat.ltb_lt in E. by rewrite decide_True.
  - apply Nat.ltb_ge in E. by rewrite decide_False by lia.
Qed.

Lemma fill_younger_sites_spec self f : ∀ ls ancestor,
  Forall (λ l, (l < length (sites self))%nat ∧ (l < length ancestor)%nat) ls →
  ∃ ancestor',
    fill_younger_sites self f ancestor ls = Ok ancestor' ∧
    length ancestor' = length ancestor ∧
    (∀ i, i ∈ ls → (site_frequency self i ≤ f)%nat → ancestor' !! i = Some 0) ∧
    (∀ i, ¬ (i ∈ ls ∧ (site_frequency self i ≤ f)%nat) →
       ancestor' !! i = ancestor !! i).
Proof.
  induction ls as [|l ls IH]; intros a Hls.
  - exists a. split_and!; try done. intros i Hi. by apply elem_of_nil in Hi.
  - apply Forall_cons in Hls as [[Hl Hla] Hls]. cbn [fill_younger_sites].
    destruct (lookup_lt_is_Some_2 _ _ Hl) as [s Hs]. rewrite Hs.
    cbn [defined mbind outcome_bind].
    pose proof (site_frequency_lookup _ _ _ Hs) as Hfreq.
    set (a1 := if (frequency s <=? f)%nat then <[l := 0]> a else a).
    assert ((if (frequency s <=? f)%nat
             then defined (a !! l) ≫= λ _, Ok (<[l := 0]> a) else Ok a) = Ok a1)
      as ->.
    { unfold a1. destruct (_ <=? _)%nat; [|done].
      destruct (lookup_lt_is_Some_2 _ _ Hla) as [x ->]. done. }
    cbn [mbind outcome_bind].
    assert (length a1 = length a) as Hlen1
      by (unfold a1; destruct (_ <=? _)%nat; [apply length_insert|done]).
    destruct (IH a1) as (a' & Hfill & Hlen & Hset & Hkeep).
    { eapply Forall_impl; [exact Hls|]. cbn. intros i [? ?]. split; [done|lia]. }
    exists a'. split_and!; [done|congruence| |].
    + intros i Hi Hfi. destruct (decide (i ∈ ls)) as [?|Hnot]; [auto|].
      apply elem_of_cons in Hi as [->|?]; [|done].
      rewrite Hkeep by tauto. unfold a1. rewrite Hfreq in Hfi.
      replace (frequency s <=? f)%nat with true by (symmetry; by apply Nat.leb_le).
      by apply list_lookup_insert_eq.
    + intros i Hi. rewrite Hkeep.
      2:{ intros [? ?]. apply Hi. split; [by right|done]. }
      unfold a1. destruct (frequency s <=? f)%nat eqn:E; [|done].
      apply Nat.leb_le in E. apply list_lookup_insert_ne. intros ->.
      apply Hi. split; [by left|lia].
Qed.

Lemma consistent_samples_loop_spec g : ∀ count j,
  (j + count ≤ length g)%nat →
  ∃ samples,
    consistent_samples_loop g j count = Ok samples ∧
    Forall (λ u, Z.of_nat j ≤ u < Z.of_nat (j + count)) samples ∧
    length samples = length (filter (λ a, a = 1) (take count (drop j g))).
Proof.
  induction count as [|count IH]; intros j Hj; cbn [consistent_samples_loop].
  - exists []. by rewrite take_0.
  - destruct (lookup_lt_is_Some_2 g j) as [a Ha]; [lia|]. rewrite Ha.
    cbn [defined mbind outcome_bind].
    destruct (IH (S j)) as (rest & -> & Hrange & Hlen); [lia|].
    cbn [mbind outcome_bind]. eexists. split; [done|].
    rewrite (drop_S _ _ _ Ha). cbn [take]. rewrite filter_cons.
    assert (Forall (λ u, Z.of_nat j ≤ u < Z.of_nat (j + S count)) rest) as Hrange'
      by (eapply Forall_impl; [exact Hrange|]; cbn; lia).
    destruct (a =? 1) eqn:E.
    + apply Z.eqb_eq in E. rewrite decide_True by done. split.
      * constructor; [lia|done].
      * cbn. by rewrite Hlen.
    + apply Z.eqb_neq in E. by rewrite decide_False.
Qed.

Lemma get_consistent_samples_spec self site g :
  site_genotypes self site = Ok g → length g = num_samples self →
  ∃ samples,
    ancestor_builder_get_consistent_samples self site = Ok samples ∧
    valid_samples (num_samples self) samples ∧
    length samples = derived_count (num_samples self) g.
Proof.
  intros Hg Hlen. unfold ancestor_builder_get_consistent_samples. rewrite Hg.
  cbn [mbind outcome_bind].
  destruct (consistent_samples_loop_spec g (num_samples self) 0)
    as (samples & -> & Hrange & Hcount); [lia|].
  exists samples. split_and!; done.
Qed.

Lemma site_genotypes_ok self l s :
  genotypes_ok self → sites self !! l = Some s → (2 ≤ frequency s)%nat →
  ∃ g, site_genotypes self l = Ok g ∧ length g = num_samples self.
Proof.
  intros [_ Hok] Hs Hf. destruct (Hok l s Hs Hf) as (p & buf & Hp & Hbuf & Hlen).
  exists buf. split; [|done]. unfold site_genotypes, load_genotypes.
  rewrite Hs. cbn. rewrite Hp. cbn. by rewrite Hbuf.
Qed.

Lemma seq_sorted a n : StronglySorted lt (seq a n).
Proof.
  revert a. induction n as [|n IH]; intros a; cbn; constructor; [done|].
  apply Forall_forall. intros x Hx.
  rewrite list_elem_of_In, in_seq in Hx. lia.
Qed.

Lemma rev_seq_sorted a n : StronglySorted (flip lt) (rev (seq a n)).
Proof.
  induction n as [|n IH]; [constructor|].
  rewrite seq_S, rev_app_distr. cbn. constructor; [done|].
  apply Forall_forall. intros y Hy.
  rewrite list_elem_of_In, <- in_rev, in_seq in Hy. unfold flip. lia.
Qed.

(** The prefix written by a pass over an increasing list of sites beyond
    the focal site: the sites of the list up to [last_site]. *)
Lemma prefix_range_lt (older : list site_id_t) (k focal : nat) :
  StronglySorted lt older → (∀ x, x ∈ older → (focal < x)%nat) →
  (focal ≤ default focal (last (take k older)))%nat ∧
  (default focal (last (take k older)) = focal ∨
   default focal (last (take k older)) ∈ older) ∧
  ∀ x, x ∈ take k older ↔
       x ∈ older ∧ (x ≤ default focal (last (take k older)))%nat.
Proof.
  intros Hs Hgt.
  assert (∀ x, x ∈ take k older → x ∈ older) as Hsub
    by (intros x Hx; eapply elem_of_sublist; [exact Hx|apply sublist_take]).
  destruct (last (take k older)) as [m|] eqn:Hm; cbn.
  - assert (m ∈ take k older) as Hmk.
    { apply last_Some in Hm as [init ->]. apply elem_of_app. right.
      by apply list_elem_of_singleton. }
    split_and!; [apply Nat.lt_le_incl; auto|auto|].
    intros x. split.
    + intros Hx. split; [auto|].
      apply (sorted_prefix_elem lt older k m x Hs Hm (Hsub x Hx)) in Hx. lia.
    + intros [Hx Hle]. apply (sorted_prefix_elem lt older k m x Hs Hm Hx). lia.
  - apply last_None in Hm. rewrite Hm. split_and!; [done|by left|].
    intros x. split; [by intros ?%elem_of_nil|].
    intros [Hx Hle]. apply Hgt in Hx. lia.
Qed.

(** The same for a decreasing list of sites before the focal site. *)
Lemma prefix_range_gt (older : list site_id_t) (k focal : nat) :
  StronglySorted (flip lt) older → (∀ x, x ∈ older → (x < focal)%nat) →
  (default focal (last (take k older)) ≤ focal)%nat ∧
  (default focal (last (take k older)) = focal ∨
   default focal (last (take k older)) ∈ older) ∧
  ∀ x, x ∈ take k older ↔
       x ∈ older ∧ (default focal (last (take k older)) ≤ x)%nat.
Proof.
  intros Hs Hlt.
  assert (∀ x, x ∈ take k older → x ∈ older) as Hsub
    by (intros x Hx; eapply elem_of_sublist; [exact Hx|apply sublist_take]).
  destruct (last (take k older)) as [m|] eqn:Hm; cbn.
  - assert (m ∈ take k older) as Hmk.
    { apply last_Some in Hm as [init ->]. apply elem_of_app. right.
      by apply list_elem_of_singleton. }
    split_and!; [apply Nat.lt_le_incl; auto|auto|].
    intros x. split.
    + intros Hx. split; [auto|].
      apply (sorted_prefix_elem (flip lt) older k m x Hs Hm (Hsub x Hx)) in Hx.
      unfold flip in Hx. lia.
    + intros [Hx Hle].
      apply (sorted_prefix_elem (flip lt) older k m x Hs Hm Hx). unfold flip. lia.
  - apply last_None in Hm. rewrite Hm. split_and!; [done|by left|].
    intros x. split; [by intros ?%elem_of_nil|].
    intros [Hx Hle]. apply Hlt in Hx. lia.
Qed.

Lemma assert_true NDEBUG : assert NDEBUG true = Ok ().
Proof. unfold assert. by rewrite orb_true_r. Qed.

Lemma elem_of_older_sites self f (ls : list site_id_t) x :
  x ∈ filter (λ l, (f < site_frequency self l)%nat) ls ↔
  (f < site_frequency self x)%nat ∧ x ∈ ls.
Proof. apply (list_elem_of_filter (λ l, (f < site_frequency self l)%nat)). Qed.

(** What [make_ancestor] returns for a focal site of frequency two or
    more, on a builder whose sites have their genotype buffers. *)
Lemma make_ancestor_spec NDEBUG self focal ancestor sf :
  genotypes_ok self → sites self !! focal = Some sf → (2 ≤ frequency sf)%nat →
  length ancestor = num_sites self →
  (NDEBUG = true ∨
   ∃ g, site_genotypes self focal = Ok g ∧
        derived_count (num_samples self) g = frequency sf) →
  ∃ start end_ a,
    ancestor_builder_make_ancestor NDEBUG self [focal] ancestor true true true
    = Ok (start, end_, a) ∧
    (start ≤ focal < end_)%nat ∧ (end_ ≤ num_sites self)%nat ∧
    length a = num_sites self ∧
    a !! focal = Some 1 ∧
    ∀ i, (i < num_sites self)%nat →
      ((start ≤ i < end_)%nat → a !! i = Some 0 ∨ a !! i = Some 1) ∧
      (¬ (start ≤ i < end_)%nat → a !! i = Some UNKNOWN).
Proof.
  intros Hok Hsf Hf Hlen Hassert.
  pose proof Hok as [Hsites _].
  apply lookup_lt_Some in Hsf as Hfocal. rewrite Hsites in Hfocal.
  set (N := num_sites self) in *. set (f := frequency sf) in *.
  (* the genotypes of the focal site and of the older sites *)
  destruct (site_genotypes_ok self focal sf Hok Hsf Hf) as (gf & Hgf & Hgflen).
  destruct (get_consistent_samples_spec self focal gf Hgf Hgflen)
    as (samples & Hsamples & Hvalid & Hcount).
  assert (assert NDEBUG (length samples =? f)%nat = Ok ()) as Hassert'.
  { unfold assert. destruct Hassert as [->|(g & Hg & Hg')]; [done|].
    rewrite Hgf in Hg. injection Hg as <-. rewrite Hcount, Hg', Nat.eqb_refl.
    by rewrite orb_true_r. }
  assert (∀ l, (l < N)%nat → (f < site_frequency self l)%nat →
            ∃ g, site_genotypes self l = Ok g ∧ length g = num_samples self)
    as Holder.
  { intros l Hl Hfl. destruct (lookup_lt_is_Some_2 (sites self) l) as [s Hs];
      [by rewrite Hsites|].
    rewrite (site_frequency_lookup _ _ _ Hs) in Hfl.
    apply (site_genotypes_ok self l s Hok Hs). lia. }
  (* the ancestor before the passes *)
  set (a1 := <[focal := 1]> (replicate N (allele_of_byte 255))).
  assert (length a1 = N) as Hlen1
    by (unfold a1; by rewrite length_insert, length_replicate).
  (* the pass to the right *)
  set (LR := seq (focal + 1) (N - (focal + 1))).
  set (olderR := filter (λ l, (f < site_frequency self l)%nat) LR).
  assert (∀ x, x ∈ LR ↔ (focal < x < N)%nat) as HLR
    by (intros x; unfold LR; rewrite list_elem_of_In, in_seq; lia).
  destruct (compute_older_sites_spec self (num_samples self) focal a1 olderR samples)
    as (a2 & kR & HcomputeR & Hlen2 & HoutR & HinR); [|done|done|].
  { intros l [Hfl Hl%HLR]%elem_of_older_sites. split; [lia|]. apply Holder; lia. }
  set (lastR := default focal (last (take kR olderR))) in *.
  destruct (prefix_range_lt olderR kR focal) as (HlastR & HlastR' & HmemR).
  { eapply StronglySorted_sublist; [apply sublist_filter|apply seq_sorted]. }
  { intros x [_ Hx%HLR]%elem_of_older_sites. lia. }
  fold lastR in HlastR, HlastR', HmemR.
  assert (lastR < N)%nat as HlastRN.
  { destruct HlastR' as [->|[_ Hx%HLR]%elem_of_older_sites]; lia. }
  set (FR := seq (focal + 1) (lastR - (focal + 1))).
  destruct (fill_younger_sites_spec self f FR a2) as (a3 & HfillR & Hlen3 & HsetR & HkeepR).
  { apply Forall_forall. intros x Hx. unfold FR in Hx.
    rewrite list_elem_of_In, in_seq in Hx. lia. }
  (* the pass to the left *)
  set (LL := rev (seq 0 focal)).
  set (olderL := filter (λ l, (f < site_frequency self l)%nat) LL).
  assert (∀ x, x ∈ LL ↔ (x < focal)%nat) as HLL
    by (intros x; unfold LL; rewrite list_elem_of_In, <- in_rev, in_seq; lia).
  destruct (compute_older_sites_spec self (num_samples self) focal a3 olderL samples)
    as (a4 & kL & HcomputeL & Hlen4 & HoutL & HinL); [|done|done|].
  { intros l [Hfl Hl%HLL]%elem_of_older_sites. split; [lia|]. apply Holder; lia. }
  set (lastL := default focal (last (take kL olderL))) in *.
  destruct (prefix_range_gt olderL kL focal) as (HlastL & HlastL' & HmemL).
  { eapply StronglySorted_sublist; [apply sublist_filter|apply rev_seq_sorted]. }
  { intros x [_ Hx%HLL]%elem_of_older_sites. lia. }
  fold lastL in HlastL, HlastL', HmemL.
  set (FL := seq (lastL + 1) (focal - (lastL + 1))).
  destruct (fill_younger_sites_spec self f FL a4) as (a5 & HfillL & Hlen5 & HsetL & HkeepL).
  { apply Forall_forall. intros x Hx. unfold FL in Hx.
    rewrite list_elem_of_In, in_seq in Hx. lia. }
  exists lastL, (lastR + 1)%nat, a5.
  split.
  { unfold ancestor_builder_make_ancestor. cbn [negb length Nat.eqb].
    rewrite assert_true. cbn [mbind outcome_bind lookup list_lookup defined].
    rewrite Hsf. cbn [mbind outcome_bind defined].
    unfold memset_unknown. fold N. rewrite Hlen, Nat.leb_refl.
    cbn [mbind outcome_bind].
    rewrite drop_ge, app_nil_r by lia.
    rewrite (proj2 (lookup_replicate_2 N (allele_of_byte 255) focal Hfocal))
      || rewrite lookup_replicate_2 by done.
    cbn [mbind outcome_bind defined]. fold a1 f.
    rewrite !collect_older_sites_spec
      by (apply Forall_forall; intros x Hx; rewrite Hsites;
          first [apply HLR in Hx | apply HLL in Hx]; lia).
    cbn [mbind outcome_bind]. fold LR olderR. rewrite Hsamples.
    cbn [mbind outcome_bind]. rewrite Hassert'. cbn [mbind outcome_bind].
    rewrite HcomputeR. cbn [mbind outcome_bind]. fold FR. rewrite HfillR.
    cbn [mbind outcome_bind]. fold LL olderL. rewrite HcomputeL.
    cbn [mbind outcome_bind]. fold FL. rewrite HfillL. done. }
  (* where each pass writes *)
  assert (∀ x, x ∈ take kR olderR ↔
               (focal < x ≤ lastR)%nat ∧ (f < site_frequency self x)%nat) as HtakeR.
  { intros x. rewrite HmemR. unfold olderR. rewrite elem_of_older_sites, HLR. lia. }
  assert (∀ x, x ∈ FR ↔ (focal < x < lastR)%nat) as HFR
    by (intros x; unfold FR; rewrite list_elem_of_In, in_seq; lia).
  assert (∀ x, x ∈ take kL olderL ↔
               (lastL ≤ x < focal)%nat ∧ (f < site_frequency self x)%nat) as HtakeL.
  { intros x. rewrite HmemL. unfold olderL. rewrite elem_of_older_sites, HLL. lia. }
  assert (∀ x, x ∈ FL ↔ (lastL < x < focal)%nat) as HFL
    by (intros x; unfold FL; rewrite list_elem_of_In, in_seq; lia).
  assert (lastR = focal ∨ (f < site_frequency self lastR)%nat) as HfR.
  { destruct HlastR' as [?|[? _]%elem_of_older_sites]; auto. }
  assert (lastL = focal ∨ (f < site_frequency self lastL)%nat) as HfL.
  { destruct HlastL' as [?|[? _]%elem_of_older_sites]; auto. }
  assert (a1 !! focal = Some 1) as Ha1f
    by (unfold a1; apply list_lookup_insert_eq; by rewrite length_replicate).
  assert (∀ i, (i < N)%nat → i ≠ focal → a1 !! i = Some UNKNOWN) as Ha1.
  { intros i Hi Hne. unfold a1. rewrite list_lookup_insert_ne by done.
    by apply lookup_replicate_2. }
  (* the final ancestor, site by site *)
  assert (∀ i, (i < N)%nat →
            ((lastL ≤ i < lastR + 1)%nat → a5 !! i = Some 0 ∨ a5 !! i = Some 1) ∧
            (¬ (lastL ≤ i < lastR + 1)%nat → a5 !! i = Some UNKNOWN) ∧
            (i = focal → a5 !! i = Some 1)) as Hfinal.
  { intros i Hi.
    destruct (decide (i ∈ FL ∧ (site_frequency self i ≤ f)%nat)) as [[HiFL Hfi]|HnFL].
    { rewrite (HsetL i HiFL Hfi). apply HFL in HiFL. split_and!; [auto|lia|lia]. }
    rewrite (HkeepL i HnFL). rewrite HFL in HnFL.
    destruct (decide (i ∈ take kL olderL)) as [HiL|HnL].
    { pose proof (HinL i HiL) as H01. apply HtakeL in HiL.
      split_and!; [auto|lia|lia]. }
    rewrite (HoutL i HnL). rewrite HtakeL in HnL.
    destruct (decide (i ∈ FR ∧ (site_frequency self i ≤ f)%nat)) as [[HiFR Hfi]|HnFR].
    { rewrite (HsetR i HiFR Hfi). apply HFR in HiFR. split_and!; [auto|lia|lia]. }
    rewrite (HkeepR i HnFR). rewrite HFR in HnFR.
    destruct (decide (i ∈ take kR olderR)) as [HiR|HnR].
    { pose proof (HinR i HiR) as H01. apply HtakeR in HiR.
      split_and!; [auto|lia|lia]. }
    rewrite (HoutR i HnR). rewrite HtakeR in HnR.
    destruct (decide (i = focal)) as [->|Hne].
    { rewrite Ha1f. split_and!; [auto|lia|done]. }
    rewrite (Ha1 i Hi Hne). split_and!; [|done|done].
    intros Hrange. exfalso.
    destruct (decide (i = lastR)) as [->|HneR];
      [destruct HfR as [?|?]; [done|]; lia|].
    destruct (decide (i = lastL)) as [->|HneL];
      [destruct HfL as [?|?]; [done|]; lia|].
    destruct (decide (f < site_frequency self i)%nat); lia. }
  split_and!; [done|lia|lia|congruence|by apply Hfinal|].
  intros i Hi. destruct (Hfinal i Hi) as (? & ? & _). done.
Qed.

(** *** Builders that come from a run *)

Lemma dedup_buffer_length self calls f q :
  dedup_inv self calls → q ∈ pattern_buffers self f →
  ∃ buf, genotype_bufs (allocator self) !! q = Some buf ∧
         length buf = num_samples self.
Proof.
  intros Hinv Hq.
  destruct (dedup_canonical _ _ Hinv _ _ Hq) as (k0 & c0 & _ & _ & Hbuf & Hlen & _).
  eexists. split; [exact Hbuf|]. rewrite length_take. lia.
Qed.

Lemma genotypes_ok_step self done l f g self' :
  dedup_inv self done → num_sites self = length (sites self) →
  genotypes_ok self → add_site_effect self l f g self' → genotypes_ok self'.
Proof.
  intros Hinv HN [Hlen Hok] Heff.
  pose proof Heff as (Hns' & HN' & _).
  pose proof (add_site_effect_sites _ _ _ _ _ Heff) as (s0 & Hsites0 & Hfs0 & Hl0).
  apply add_site_effect_buffers in Heff as [Hns H].
  destruct (1 <? f)%nat eqn:Hf.
  - destruct H as (p & Hsites & Hl & _ & Hcase).
    assert (∀ q buf, genotype_bufs (allocator self) !! q = Some buf →
              genotype_bufs (allocator self') !! q = Some buf) as Hkeep.
    { destruct Hcase as [(-> & _)|(-> & _)]; [done|].
      intros q buf. apply lookup_app_l_Some. }
    assert (∃ buf, genotype_bufs (allocator self') !! p = Some buf ∧
                   length buf = num_samples self) as (bufp & Hbufp & Hlenp).
    { destruct Hcase as [(Hbufs & _ & Hp & _)|(Hbufs & Hp & Hg & _)].
      - destruct (dedup_buffer_length _ _ _ _ Hinv Hp) as (buf & ? & ?).
        exists buf. rewrite Hbufs. done.
      - eexists. rewrite Hbufs, Hp, lookup_app_r by done.
        rewrite Nat.sub_diag. split; [done|]. rewrite length_take. lia. }
    split; [by rewrite Hsites, length_insert, HN'|].
    intros l' s Hs Hfs. rewrite Hsites in Hs.
    destruct (decide (l = l')) as [<-|Hne].
    + rewrite list_lookup_insert_eq in Hs by done. injection Hs as <-.
      exists p, bufp. rewrite Hns. done.
    + rewrite list_lookup_insert_ne in Hs by done.
      destruct (Hok l' s Hs Hfs) as (q & buf & ? & ? & ?).
      exists q, buf. rewrite Hns. auto.
  - apply Nat.ltb_ge in Hf. destruct H as (_ & _ & Hbufs).
    split; [by rewrite Hsites0, length_insert, HN'|].
    intros l' s Hs Hfs. rewrite Hsites0 in Hs.
    destruct (decide (l = l')) as [<-|Hne].
    + rewrite list_lookup_insert_eq in Hs by done. injection Hs as <-. lia.
    + rewrite list_lookup_insert_ne in Hs by done.
      rewrite Hbufs, Hns. by apply (Hok l').
Qed.

Lemma genotypes_ok_run NDEBUG ns nsites flags calloc_ok arena_ok oracle calls
    self0 self :
  ancestor_builder_alloc NDEBUG ns nsites flags calloc_ok arena_ok oracle = Ok self0 →
  add_sites NDEBUG self0 calls = Ok self →
  genotypes_ok self ∧ num_sites self = nsites ∧ num_samples self = ns ∧
  ∀ c, c ∈ calls → (call_site c < length (sites self))%nat.
Proof.
  intros Halloc Hadd.
  pose proof (dedup_inv_alloc _ _ _ _ _ _ _ _ Halloc) as Hinv0.
  assert (genotypes_ok self0 ∧ num_sites self0 = nsites ∧ num_samples self0 = ns)
    as (Hok0 & HN0 & Hns0).
  { apply alloc_Ok in Halloc as ->. split_and!; try done. split.
    - cbn. apply length_replicate.
    - cbn. intros l s [-> _]%lookup_replicate. cbn. lia. }
  revert calls self Hadd.
  apply (add_sites_ind NDEBUG (λ self calls,
    genotypes_ok self ∧ num_sites self = nsites ∧ num_samples self = ns ∧
    ∀ c, c ∈ calls → (call_site c < length (sites self))%nat)).
  { split_and!; try done. intros c Hc. by apply elem_of_nil in Hc. }
  intros self done c self' Hdone (Hok & HN & Hns & Hsites) _ Heff.
  pose proof (dedup_inv_add_sites _ _ _ _ Hinv0 Hdone) as Hinv.
  pose proof Hok as [Hlen _].
  pose proof (genotypes_ok_step _ _ _ _ _ _ Hinv (eq_sym Hlen) Hok Heff) as Hok'.
  pose proof (add_site_effect_sites _ _ _ _ _ Heff) as (s' & Hs' & _ & Hl).
  destruct Heff as (Hns' & HN' & _).
  split_and!; [done|congruence|congruence|].
  intros c' Hc'. rewrite Hs', length_insert.
  apply elem_of_app in Hc' as [?|Hc']; [auto|].
  by apply list_elem_of_singleton in Hc' as ->.
Qed.

Lemma bytes_binary_inj (l1 l2 : list allele_t) :
  Forall (λ a, a = 0 ∨ a = 1) l1 → Forall (λ a, a = 0 ∨ a = 1) l2 →
  bytes l1 = bytes l2 → l1 = l2.
Proof.
  intros H1. revert l2. induction H1 as [|x l1 Hx _ IH]; intros l2 H2 Hb.
  - destruct l2; [done|discriminate].
  - destruct H2 as [|y l2 Hy H2]; [discriminate|].
    injection Hb as Hxy Hb. f_equal; [|by apply IH].
    unfold byte_of_allele in Hxy.
    destruct Hx as [-> | ->], Hy as [-> | ->]; done.
Qed.

Lemma NoDup_last_call (calls : list call_t) k c :
  NoDup (call_site <$> calls) → calls !! k = Some c →
  last_call_of_site calls k (call_site c).
Proof.
  intros Hnd Hk k' c' Hlt Hk' Heq.
  assert (k = k'); [|lia].
  apply (NoDup_lookup _ _ _ (call_site c) Hnd).
  - by rewrite list_lookup_fmap, Hk.
  - rewrite list_lookup_fmap, Hk'. cbn. by rewrite Heq.
Qed.

(** ** The guarantees of [make_ancestor] *)

(** C1. On a finalised builder in which no site was added twice, for a
    focal site taken from an emitted descriptor, [make_ancestor] returns
    [(start, end)] with [start <= focal_site < end]; the ancestor is 1 at
    the focal site, 0 or 1 at every index of [start, end), and UNKNOWN
    (-1, the byte 0xFF) at every other index. In a build with assertions
    the genotypes are required to be 0 or 1 and every frequency to be the
    number of ones of its site. *)
Theorem make_ancestor_guarantees NDEBUG ns nsites flags calloc_ok arena_ok oracle
    calls malloc_ok self0 self self' d focal_site ancestor :
  ancestor_builder_alloc NDEBUG ns nsites flags calloc_ok arena_ok oracle = Ok self0 →
  add_sites NDEBUG self0 calls = Ok self →
  ancestor_builder_finalise NDEBUG self malloc_ok = Ok self' →
  NoDup (call_site <$> calls) →
  (NDEBUG = true ∨
   Forall (λ c, Forall (λ a, a = 0 ∨ a = 1) (call_genotypes c) ∧
                call_frequency c = derived_count ns (call_genotypes c)) calls) →
  d ∈ emitted_descriptors self' →
  descriptor_focal_sites self' d = Ok [focal_site] →
  length ancestor = nsites →
  ∃ start end_ a,
    ancestor_builder_make_ancestor NDEBUG self' [focal_site] ancestor true true true
    = Ok (start, end_, a) ∧
    (start ≤ focal_site < end_)%nat ∧ (end_ ≤ nsites)%nat ∧
    length a = nsites ∧
    a !! focal_site = Some 1 ∧
    (∀ i, (start ≤ i < end_)%nat → a !! i = Some 0 ∨ a !! i = Some 1) ∧
    (∀ i, (i < nsites)%nat → ¬ (start ≤ i < end_)%nat → a !! i = Some UNKNOWN) ∧
    UNKNOWN = -1 ∧ byte_of_allele UNKNOWN = 255.
Proof.
  intros Halloc Hadd Hfin Hnd Hcalls Hd Hfocal Hlen.
  destruct (finalised_emits _ _ _ _ _ _ _ _ _ _ _ _ Halloc Hadd Hfin)
    as (exp & _ & [Hem _] & Hperm & Hsame & _).
  destruct (genotypes_ok_run _ _ _ _ _ _ _ _ _ _ Halloc Hadd)
    as (Hok & HN & Hns & Hrange).
  destruct Hsame as (Hns' & HN' & Hsites' & _ & Hbufs').
  (* the call that added the focal site *)
  apply list_elem_of_lookup in Hd as [n Hn].
  destruct (Forall2_lookup_l _ _ _ _ _ Hem Hn) as ([j x] & Hx & _ & _ & Hdx).
  rewrite Hfocal in Hdx. cbn in Hdx. injection Hdx as ->.
  apply list_elem_of_lookup_2 in Hx. rewrite Hperm in Hx.
  unfold mapped_calls in Hx.
  apply list_elem_of_fmap in Hx as (c & [= -> ->] & Hc).
  apply list_elem_of_filter in Hc as [Hfc Hc].
  destruct (lookup_lt_is_Some_2 _ _ (Hrange c Hc)) as [sf Hsf].
  assert (2 ≤ frequency sf)%nat as Hf.
  { apply (sites_frequency_add_sites NDEBUG self0 calls self) with (l := call_site c);
      try done; [|by exists c].
    apply alloc_Ok in Halloc as ->. cbn. by intros ? ? [-> _]%lookup_replicate. }
  (* the finalised builder has the genotype buffers of the filled one *)
  assert (genotypes_ok self') as Hok'.
  { destruct Hok as [Hl Hg]. split; [by rewrite Hsites', HN'|].
    intros l s. rewrite Hsites', Hbufs', Hns'. apply Hg. }
  destruct (make_ancestor_spec NDEBUG self' (call_site c) ancestor sf)
    as (start & end_ & a & Hrun & Hse & Hend & Hlena & Hfoc & Hall);
    [done|by rewrite Hsites'|done|congruence| |].
  { destruct Hcalls as [?|Hcalls]; [by left|right].
    rewrite Forall_forall in Hcalls.
    apply list_elem_of_lookup in Hc as [k Hk].
    pose proof (dedup_inv_add_sites _ _ _ _
                  (dedup_inv_alloc _ _ _ _ _ _ _ _ Halloc) Hadd) as Hinv.
    destruct (dedup_site _ _ Hinv k c Hk Hfc (NoDup_last_call _ _ _ Hnd Hk))
      as (p & buf & Hs & Hp & Hbuf & Hbytes).
    destruct (dedup_canonical _ _ Hinv _ _ Hp)
      as (k0 & c0 & Hk0 & _ & Hbuf0 & _ & _).
    rewrite Hbuf in Hbuf0. injection Hbuf0 as ->.
    destruct (Hcalls c0 (list_elem_of_lookup_2 _ _ _ Hk0)) as [Hbin0 _].
    destruct (Hcalls c (list_elem_of_lookup_2 _ _ _ Hk)) as [Hbin Hcount].
    apply bytes_binary_inj in Hbytes; [|by apply Forall_take..].
    rewrite Hsf in Hs. injection Hs as ->.
    exists (take (num_samples self) (call_genotypes c0)). split.
    - unfold site_genotypes, load_genotypes. rewrite Hsites', Hsf, Hbufs'. cbn.
      by rewrite Hbuf.
    - cbn. rewrite Hns', Hcount, Hbytes, <- Hns. unfold derived_count.
      by rewrite take_take, Nat.min_id. }
  exists start, end_, a. rewrite HN', HN in *.
  split_and!; try done; try lia.
  - intros i Hi. apply Hall; lia.
  - intros i Hi Hout. by apply Hall.
Qed.

Lemma make_ancestor_guarantees_witness :
  ancestor_builder_make_ancestor false eviction_finalised [0%nat] [7; 7; 7; 7]
    true true true
  = Ok (0%nat, 4%nat, [1; 1; 1; 1]) ∧
  ∃ start end_ a,
    ancestor_builder_make_ancestor false eviction_finalised [0%nat] [7; 7; 7; 7]
      true true true
    = Ok (start, end_, a) ∧
    (start ≤ 0 < end_)%nat ∧ (end_ ≤ 4)%nat ∧
    length a = 4%nat ∧
    a !! 0%nat = Some 1 ∧
    (∀ i, (start ≤ i < end_)%nat → a !! i = Some 0 ∨ a !! i = Some 1) ∧
    (∀ i, (i < 4)%nat → ¬ (start ≤ i < end_)%nat → a !! i = Some UNKNOWN) ∧
    UNKNOWN = -1 ∧ byte_of_allele UNKNOWN = 255.
Proof.
  split; [reflexivity|].
  apply (make_ancestor_guarantees false 5 4 0 true true (λ _, true) eviction_calls
           true eviction_allocated eviction_filled eviction_finalised
           eviction_descriptor 0%nat [7; 7; 7; 7]); try reflexivity.
  - apply (bool_decide_unpack _). vm_compute. exact I.
  - right. apply (bool_decide_unpack _). vm_compute. exact I.
  - unfold eviction_descriptor. cbn. repeat constructor.
Defined.

(** ** Finalisation succeeds on well-formed runs *)

Lemma split_descriptors_total (c : nat) :
  ∀ self j m p n0 k0 x,
  num_ancestors self = S (n0 + k0) →
  (k0 + c + 1)%nat = pm_num_sites m →
  descriptors self !! (n0 + k0)%nat = Some (mk_descriptor j (Some (p, k0)) x) →
  (n0 + pm_num_sites m ≤ length (descriptors self))%nat →
  ∃ self', split_descriptors self j m p (n0 + k0) (seq k0 c) = Ok self'.
Proof.
  induction c as [|c IH]; intros self j m p n0 k0 x Hn HN Hcur Hcap.
  - by eexists.
  - cbn [seq split_descriptors]. rewrite Hcur. cbn [defined mbind outcome_bind].
    cbn [d_focal_sites]. unfold update_descriptor at 2. rewrite Hcur.
    cbn [defined mbind outcome_bind]. cbn. rewrite Hn.
    destruct (lookup_lt_is_Some_2
                (<[(n0 + k0)%nat := mk_descriptor j (Some (p, k0))
                                      (Z.of_nat (k0 + 1) - Z.of_nat k0)]>
                   (descriptors self)) (S (n0 + k0))) as [d' Hd'];
      [rewrite length_insert; lia|].
    unfold update_descriptor. cbn. rewrite Hd'. cbn.
    replace (S (n0 + k0)) with (n0 + S k0)%nat by lia.
    replace (k0 + 1)%nat with (S k0) by lia.
    eapply (IH _ j m p n0 (S k0)); cbn; [lia|lia| |rewrite !length_insert; lia].
    apply list_lookup_insert_eq. rewrite length_insert. lia.
Qed.

Lemma get_consistent_samples_ext self1 self2 site :
  sites self1 = sites self2 →
  genotype_bufs (allocator self1) = genotype_bufs (allocator self2) →
  num_samples self1 = num_samples self2 →
  ancestor_builder_get_consistent_samples self1 site
  = ancestor_builder_get_consistent_samples self2 site.
Proof.
  intros Hs Hb Hn.
  unfold ancestor_builder_get_consistent_samples, site_genotypes, load_genotypes.
  by rewrite Hs, Hb, Hn.
Qed.

Lemma entry_assertion_ext NDEBUG self1 self2 j m :
  same_data self1 self2 →
  entry_assertion NDEBUG self1 j m → entry_assertion NDEBUG self2 j m.
Proof.
  intros (Hn & _ & Hs & _ & Hb) H HN.
  destruct (H HN) as (site & samples & ? & Hget & ?).
  exists site, samples. split_and!; try done.
  by rewrite (get_consistent_samples_ext self2 self1).
Qed.

Lemma update_descriptor_total self i f d :
  descriptors self !! i = Some d →
  update_descriptor self i f
  = Ok (set_descriptors self (<[i := f d]> (descriptors self))).
Proof. unfold update_descriptor. by intros ->. Qed.

(** One entry: the call succeeds, takes one request from the arena and
    as many descriptors as the entry lists sites. *)
Lemma finalise_entry_total NDEBUG self j m :
  entry_ok m → (1 ≤ pm_num_sites m)%nat →
  (num_ancestors self + pm_num_sites m ≤ length (descriptors self))%nat →
  chunk_ok (allocator self) (requests (allocator self)) = true →
  entry_assertion NDEBUG self j m →
  ∃ self',
    finalise_entry NDEBUG self j m = Ok self' ∧
    chunk_ok (allocator self') = chunk_ok (allocator self) ∧
    requests (allocator self') = S (requests (allocator self)) ∧
    length (descriptors self') = length (descriptors self).
Proof.
  intros Hm HN Hcap Hchunk Hassert. unfold finalise_entry.
  destruct (lookup_lt_is_Some_2 (descriptors self) (num_ancestors self)) as [d Hd];
    [lia|].
  apply lookup_lt_Some in Hd as Hlt.
  cbv zeta. rewrite (update_descriptor_total _ _ _ d) by exact Hd.
  cbn -[Nat.ltb Nat.eqb fill_focal_sites split_descriptors
        ancestor_builder_get_consistent_samples update_descriptor].
  rewrite Hchunk.
  cbn -[Nat.ltb Nat.eqb fill_focal_sites split_descriptors
        ancestor_builder_get_consistent_samples update_descriptor].
  erewrite update_descriptor_total
    by (cbn; apply list_lookup_insert_eq; exact Hlt).
  cbn -[Nat.ltb Nat.eqb fill_focal_sites split_descriptors
        ancestor_builder_get_consistent_samples].
  unfold entry_ok in Hm.
  replace (Z.of_nat (pm_num_sites m) - 1)
    with (Z.of_nat (length (pm_sites m)) - 1) by (by rewrite Hm).
  rewrite fill_focal_sites_rev by (rewrite length_replicate; lia).
  cbn -[Nat.ltb Nat.eqb split_descriptors ancestor_builder_get_consistent_samples].
  rewrite drop_ge, app_nil_r by (rewrite length_replicate; lia).
  match goal with
  | |- ∃ _, (?check ≫= _) = _ ∧ _ => assert (check = Ok ()) as ->
  end.
  { destruct (1 <? pm_num_sites m)%nat eqn:E; [|done].
    apply Nat.ltb_lt in E. destruct (Hassert E) as (site & samples & Hsite & Hget & Hj).
    rewrite Hsite. cbn -[ancestor_builder_get_consistent_samples].
    erewrite get_consistent_samples_ext; [rewrite Hget| | |]; try done.
    cbn. unfold assert. destruct Hj as [-> | ->]; [done|].
    by rewrite Nat.eqb_refl, orb_true_r. }
  cbn -[Nat.eqb split_descriptors].
  replace (pm_num_sites m =? 0)%nat with false
    by (symmetry; apply Nat.eqb_neq; lia).
  match goal with
  | |- ∃ _, split_descriptors ?s _ _ ?p _ _ = _ ∧ _ =>
      destruct (split_descriptors_total (pm_num_sites m - 1) s j m p
                  (num_ancestors self) 0 (Z.of_nat (pm_num_sites m)))
        as (self' & Hsplit)
  end.
  { cbn. lia. }
  { lia. }
  { cbn. rewrite Nat.add_0_r. apply list_lookup_insert_eq.
    by rewrite length_insert. }
  { cbn. rewrite !length_insert. lia. }
  exists self'. split; [by rewrite Nat.add_0_r in Hsplit|].
  apply (split_descriptors_spec (pm_num_sites m - 1) _ j m _ (num_ancestors self) 0)
    in Hsplit as (_ & _ & Hdesc & _ & Ha).
  - rewrite Ha. cbn. split_and!; try done.
    rewrite Hdesc. unfold split_result.
    rewrite !length_app, length_take, length_drop, length_fmap, length_seq.
    cbn. rewrite !length_insert. lia.
  - cbn. lia.
  - lia.
  - cbn. rewrite Nat.add_0_r, list_lookup_insert_eq by (by rewrite length_insert).
    do 2 f_equal. lia.
Qed.

Lemma finalise_entries_total NDEBUG j tree : ∀ self,
  Forall entry_ok tree → Forall (λ m, (1 ≤ pm_num_sites m)%nat) tree →
  (num_ancestors self + listed_sites tree ≤ length (descriptors self))%nat →
  arena_serves (allocator self) →
  Forall (entry_assertion NDEBUG self j) tree →
  ∃ self',
    finalise_entries NDEBUG self j tree = Ok self' ∧
    arena_serves (allocator self') ∧
    length (descriptors self') = length (descriptors self) ∧
    num_ancestors self' = (num_ancestors self + listed_sites tree)%nat ∧
    same_data self self'.
Proof.
  induction tree as [|m next IH]; intros self Hok Hne Hcap Harena Hassert.
  - exists self. unfold listed_sites. cbn.
    split_and!; auto using same_data_refl with lia.
  - apply Forall_cons in Hok as [Hm Hok]. apply Forall_cons in Hne as [HN Hne].
    apply Forall_cons in Hassert as [Ha Hassert].
    unfold listed_sites in *. cbn [fmap list_fmap sum_list sum_list_with id] in *.
    destruct (finalise_entry_total NDEBUG self j m) as (s1 & E & Hc & Hr & Hl);
      [done|done|lia|by apply Harena|done|].
    destruct (finalise_entry_spec _ _ _ _ _ Hm E) as (_ & Hn & _ & _ & _ & Hs).
    destruct (IH s1) as (self' & E' & Harena' & Hl' & Hn' & Hs'); [done|done|lia| |..].
    + intros i Hi. rewrite Hc. apply Harena. lia.
    + eapply Forall_impl; [exact Hassert|].
      intros m'. by apply entry_assertion_ext.
    + exists self'. cbn [finalise_entries]. rewrite E. cbn.
      split_and!; [done|done|congruence|lia|eauto using same_data_trans].
Qed.

(** The number of descriptors that the frequencies [js] ask for. *)
Lemma finalise_frequencies_total NDEBUG js : ∀ self,
  maps_ok (frequency_map self) →
  Forall (Forall (λ m, (1 ≤ pm_num_sites m)%nat)) (frequency_map self) →
  Forall (λ j, (j < length (frequency_map self))%nat) js →
  (num_ancestors self
   + sum_list ((λ j, listed_sites (default [] (frequency_map self !! j))) <$> js)
   ≤ length (descriptors self))%nat →
  arena_serves (allocator self) →
  (∀ j tree, j ∈ js → frequency_map self !! j = Some tree →
     Forall (entry_assertion NDEBUG self j) tree) →
  ∃ self', finalise_frequencies NDEBUG self js = Ok self'.
Proof.
  induction js as [|j js IH]; intros self Hok Hne Hjs Hcap Harena Hassert.
  - by eexists.
  - apply Forall_cons in Hjs as [Hj Hjs].
    destruct (lookup_lt_is_Some_2 _ _ Hj) as [tree Htree].
    cbn [fmap list_fmap sum_list sum_list_with id] in Hcap. rewrite Htree in Hcap.
    cbn [default from_option] in Hcap. change (id tree) with tree in Hcap.
    destruct (finalise_entries_total NDEBUG j tree self)
      as (s1 & E & Harena1 & Hl & Hn & Hs).
    { unfold maps_ok in Hok. rewrite Forall_lookup in Hok. eauto. }
    { rewrite Forall_lookup in Hne. eauto. }
    { lia. }
    { done. }
    { apply Hassert; [left|done]. }
    assert (frequency_map s1 = frequency_map self) as Hfm by apply Hs.
    destruct (IH s1) as (self' & E'); rewrite ?Hfm; try done.
    + lia.
    + intros j' tree' Hj' Ht'.
      eapply Forall_impl; [apply (Hassert j' tree'); [by right|done]|].
      intros m'. by apply entry_assertion_ext.
    + exists self'. cbn [finalise_frequencies]. rewrite Htree. cbn. by rewrite E.
Qed.

(** Finalisation returns a builder when the scratch buffer and every
    arena request are served, no entry is empty, the descriptor array
    has room for every listed site and the assertion on shared entries
    holds. *)
Lemma finalise_total NDEBUG self :
  builder_inv self →
  Forall (Forall (λ m, (1 ≤ pm_num_sites m)%nat)) (frequency_map self) →
  (sum_list ((λ j, listed_sites (default [] (frequency_map self !! j)))
               <$> visited_frequencies self)
   ≤ length (descriptors self))%nat →
  arena_serves (allocator self) →
  (∀ j tree, j ∈ visited_frequencies self → frequency_map self !! j = Some tree →
     Forall (entry_assertion NDEBUG self j) tree) →
  ∃ self', ancestor_builder_finalise NDEBUG self true = Ok self'.
Proof.
  intros (Hlen & Hok & _) Hne Hcap Harena Hassert.
  unfold ancestor_builder_finalise. cbn [negb].
  apply finalise_frequencies_total; cbn; try done.
  - apply Forall_forall. intros j Hj.
    apply (elem_of_visited_frequencies self) in Hj. lia.
Qed.

(** The run [dedup_calls] meets these conditions. *)
Lemma finalise_total_dedup :
  ∃ self', ancestor_builder_finalise false dedup_filled true = Ok self'.
Proof.
  apply finalise_total.
  - split_and!; [reflexivity| |reflexivity].
    unfold maps_ok, entry_ok. vm_compute. repeat constructor.
  - vm_compute. repeat constructor.
  - vm_compute. lia.
  - intros i _. reflexivity.
  - intros j tree Hj Ht. apply elem_of_visited_frequencies in Hj.
    assert (j = 2 ∨ j = 3 ∨ j = 4)%nat as [-> | [-> | ->]]
      by (cbn in Hj; lia);
      injection Ht as <-; repeat constructor;
      intros H; cbn in H; try lia.
    eexists _, _. split_and!; [reflexivity|vm_compute; reflexivity|by right].
Qed.

(** ** The builder between calls *)

Lemma listing_inv_step self done c self' :
  listing_inv self done → call_site c ∉ (call_site <$> done) →
  add_site_effect self (call_site c) (call_frequency c) (call_genotypes c) self' →
  listing_inv self' (done ++ [c]).
Proof.
  intros Hinv Hnew (_ & _ & _ & _ & _ & old & Hold & Heff) f tree m Htree Hm.
  apply lookup_lt_Some in Hold as Hlt.
  assert (∀ f0 t0 m0, frequency_map self !! f0 = Some t0 → m0 ∈ t0 →
            (2 ≤ f0)%nat ∧ (1 ≤ pm_num_sites m0)%nat ∧
            ∀ l s', l ∈ pm_sites m0 →
              l ∈ (call_site <$> done ++ [c]) ∧
              <[call_site c := s']> (sites self) !! l
              = Some (mk_site f0 (Some (pm_genotypes m0)))) as Hkeep.
  { intros f0 t0 m0 Ht0 Hm0. destruct (Hinv _ _ _ Ht0 Hm0) as (H2 & H1 & Hl).
    split_and!; [done..|]. intros l s' Hin. destruct (Hl l Hin) as [Hd Hs].
    split; [rewrite fmap_app; apply elem_of_app; by left|].
    rewrite list_lookup_insert_ne; [done|]. by intros <-. }
  assert (call_site c ∈ (call_site <$> done ++ [c])) as Hc
    by (rewrite fmap_app; apply elem_of_app; right; cbn; left).
  destruct (1 <? call_frequency c)%nat eqn:Hf.
  - apply Nat.ltb_lt in Hf.
    destruct Heff as (t & t' & p & Ht & Hfm & Hsites & Hstep).
    rewrite Hfm in Htree. rewrite Hsites.
    destruct (decide (f = call_frequency c)) as [->|Hne].
    + rewrite list_lookup_insert_eq in Htree by (by eapply lookup_lt_Some).
      injection Htree as <-.
      assert (tree_hit self (call_site c) (call_genotypes c) t t' p ∨
              tree_miss self (call_site c) (call_genotypes c) t t' p) as Hs
        by (destruct Hstep as [[? _]|[? _]]; auto).
      destruct (tree_step_elem _ _ _ _ _ _ _ Hs Hm)
        as [Hm0|[(m0 & Hm0 & Hp & ->)| ->]].
      * destruct (Hkeep _ _ _ Ht Hm0) as (? & ? & Hl). split_and!; [done..|].
        intros l Hin. by apply Hl.
      * destruct (Hkeep _ _ _ Ht Hm0) as (? & ? & Hl).
        split_and!; [done|cbn; lia|]. cbn [add_to_entry pm_sites pm_genotypes].
        intros l [-> | Hin]%elem_of_cons.
        -- split; [done|]. rewrite Hp. by apply list_lookup_insert_eq.
        -- by apply Hl.
      * split_and!; [lia|cbn; lia|]. cbn [pm_sites pm_genotypes].
        intros l ->%list_elem_of_singleton.
        split; [done|]. by apply list_lookup_insert_eq.
    + rewrite list_lookup_insert_ne in Htree by done.
      destruct (Hkeep _ _ _ Htree Hm) as (? & ? & Hl). split_and!; [done..|].
      intros l Hin. by apply Hl.
  - destruct Heff as (Hfm & Hsites & _). rewrite Hfm in Htree. rewrite Hsites.
    destruct (Hkeep _ _ _ Htree Hm) as (? & ? & Hl). split_and!; [done..|].
    intros l Hin. by apply Hl.
Qed.

Lemma listing_inv_add_sites NDEBUG self0 calls self :
  (∀ f tree m, frequency_map self0 !! f = Some tree → m ∉ tree) →
  add_sites NDEBUG self0 calls = Ok self →
  NoDup (call_site <$> calls) → listing_inv self calls.
Proof.
  intros Hempty Hrun. revert calls self Hrun.
  apply (add_sites_ind NDEBUG
           (λ self done, NoDup (call_site <$> done) → listing_inv self done)).
  - intros _ f tree m Htree Hm. by destruct (Hempty _ _ m Htree).
  - intros self done c self' _ IH _ Heff Hnd.
    rewrite fmap_app in Hnd. apply NoDup_app in Hnd as (Hnd & Hnew & _).
    apply listing_inv_step with self; [by apply IH| |done].
    intros Hin. apply (Hnew _ Hin). cbn. left.
Qed.

Lemma alloc_maps_empty NDEBUG ns nsites flags calloc_ok arena_ok oracle self0 :
  ancestor_builder_alloc NDEBUG ns nsites flags calloc_ok arena_ok oracle = Ok self0 →
  ∀ f tree m, frequency_map self0 !! f = Some tree → m ∉ tree.
Proof.
  intros ->%alloc_Ok f tree m [-> _]%lookup_replicate. apply not_elem_of_nil.
Qed.

Lemma derived_count_take ns g :
  derived_count ns (take ns g) = derived_count ns g.
Proof. unfold derived_count. by rewrite take_take, Nat.min_id. Qed.

(** After a run in which no site is added twice and every frequency is
    the number of ones of its genotypes, every entry is consistent. *)
Lemma state_consistent_run NDEBUG ns nsites flags calloc_ok arena_ok oracle calls
    self0 self :
  ancestor_builder_alloc NDEBUG ns nsites flags calloc_ok arena_ok oracle = Ok self0 →
  add_sites NDEBUG self0 calls = Ok self →
  NoDup (call_site <$> calls) →
  (∀ c, c ∈ calls → (2 ≤ call_frequency c)%nat → call_counted ns c) →
  state_consistent self.
Proof.
  intros Halloc Hrun Hnd Hcount f tree m _ Htree Hm.
  pose proof (builder_inv_add_sites _ _ _ _ (builder_inv_alloc _ _ _ _ _ _ _ _ Halloc)
                Hrun) as (_ & Hok & _).
  pose proof (dedup_inv_add_sites _ _ _ _ (dedup_inv_alloc _ _ _ _ _ _ _ _ Halloc)
                Hrun) as Hdedup.
  pose proof (listing_inv_add_sites _ _ _ _
                (alloc_maps_empty _ _ _ _ _ _ _ _ Halloc) Hrun Hnd) as Hlist.
  assert (num_samples self = ns) as Hns.
  { rewrite (num_samples_add_sites _ _ _ _ Hrun).
    by apply alloc_Ok in Halloc as ->. }
  destruct (Hlist _ _ _ Htree Hm) as (Hf & _ & Hsites).
  split_and!.
  - assert (pm_genotypes m ∈ pattern_buffers self f) as Hp.
    { unfold pattern_buffers. rewrite Htree. cbn. by apply list_elem_of_fmap_2. }
    destruct (dedup_canonical _ _ Hdedup _ _ Hp)
      as (k0 & c0 & Hk0 & Hf0 & Hbuf & Hlen & _).
    eexists. split; [exact Hbuf|]. rewrite Hns in *. split.
    + rewrite length_take. lia.
    + rewrite derived_count_take. symmetry. rewrite <- Hf0. apply Hcount.
      * by eapply list_elem_of_lookup_2.
      * lia.
  - unfold maps_ok in Hok. rewrite Forall_lookup in Hok.
    specialize (Hok _ _ Htree). rewrite Forall_forall in Hok.
    symmetry. by apply Hok.
  - intros l Hl. destruct (Hsites l Hl) as [_ Hs]. eauto.
Qed.
(** ** The descriptors of an entry *)

(** Only the pattern maps of the frequencies two and more hold entries. *)
Lemma entries_frequency_add_sites NDEBUG self0 calls self :
  (∀ f tree m, frequency_map self0 !! f = Some tree → m ∉ tree) →
  add_sites NDEBUG self0 calls = Ok self →
  ∀ f tree m, frequency_map self !! f = Some tree → m ∈ tree → (2 ≤ f)%nat.
Proof.
  intros Hempty. revert calls self.
  apply (add_sites_ind NDEBUG (λ self _,
           ∀ f tree m, frequency_map self !! f = Some tree → m ∈ tree →
             (2 ≤ f)%nat)).
  - intros f tree m Htree Hm. by destruct (Hempty _ _ m Htree).
  - intros self done c self' _ IH _ (_ & _ & _ & _ & _ & old & _ & Heff).
    destruct (1 <? call_frequency c)%nat eqn:E.
    + destruct Heff as (tree & tree' & p & _ & Hfm & _).
      intros f t m Ht Hm. rewrite Hfm in Ht.
      destruct (decide (f = call_frequency c)) as [->|Hne];
        [apply Nat.ltb_lt in E; lia|].
      rewrite list_lookup_insert_ne in Ht by done. eauto.
    + destruct Heff as (Hfm & _). rewrite Hfm. eauto.
Qed.

(** The descriptors that describe the emission of a pattern map fall
    into one block per entry. *)
Lemma tree_emission_blocks self j tree :
  Forall entry_ok tree →
  ∀ ds, Forall2 (describes self) ds (tree_emission j tree) →
  ∃ group, ds = concat group ∧
           Forall2 (λ block m, entry_block self j m block) group tree.
Proof.
  induction 1 as [|m tree Hm _ IH]; intros ds Hds.
  - apply Forall2_nil_inv_r in Hds as ->. by exists [].
  - unfold tree_emission in Hds. cbn [mbind list_bind] in Hds.
    apply Forall2_app_inv_r in Hds as (block & rest & Hblock & Hrest & ->).
    apply IH in Hrest as (group & -> & Hgroup).
    exists (block :: group). split; [done|]. constructor; [|done].
    unfold entry_emission in Hblock. rewrite Forall2_fmap_r in Hblock.
    split_and!; [|done|done].
    apply Forall2_length in Hblock. rewrite length_rev in Hblock.
    unfold entry_ok in Hm. congruence.
Qed.

(** The descriptors that describe the emission of the visited pattern
    maps fall into one group per map. *)
Lemma map_emission_groups self fm js :
  maps_ok fm →
  ∀ ds, Forall2 (describes self) ds (map_emission fm js) →
  ∃ groups, ds = concat (concat groups) ∧
    Forall2 (λ group j,
               Forall2 (λ block m, entry_block self j m block) group
                 (default [] (fm !! j)))
      groups js.
Proof.
  intros Hok. induction js as [|j js IH]; intros ds Hds.
  - apply Forall2_nil_inv_r in Hds as ->. by exists [].
  - unfold map_emission in Hds. cbn [mbind list_bind] in Hds.
    apply Forall2_app_inv_r in Hds as (d1 & d2 & H1 & H2 & ->).
    apply IH in H2 as (groups & -> & Hgroups).
    apply tree_emission_blocks in H1 as (group & -> & Hgroup).
    + exists (group :: groups). split; [|by constructor].
      cbn. by rewrite concat_app.
    + destruct (fm !! j) as [tree|] eqn:Htree; cbn; [|constructor].
      unfold maps_ok in Hok. rewrite Forall_lookup in Hok. eauto.
Qed.

(** C3. After finalisation every emitted descriptor has exactly one focal
    site, and the emitted descriptors are, in this order, one block per
    entry of the visited pattern maps and nothing else: there is one
    group of blocks for each frequency from [num_samples] down to 2, and
    in the group of frequency j one block for each entry of the pattern
    map of j, in the order of the map. The block of an entry whose list
    holds k sites has exactly k descriptors, all of frequency j, one per
    site of the list (in the reverse order of the list). No frequency is
    visited twice, and every entry of every pattern map belongs to a
    visited frequency, so that an entry shared by k sites yields exactly
    k descriptors. *)
Theorem finalise_one_focal_site_per_descriptor NDEBUG ns nsites flags calloc_ok
    arena_ok oracle calls malloc_ok self0 self self' :
  ancestor_builder_alloc NDEBUG ns nsites flags calloc_ok arena_ok oracle = Ok self0 →
  add_sites NDEBUG self0 calls = Ok self →
  ancestor_builder_finalise NDEBUG self malloc_ok = Ok self' →
  Forall (λ d, d_num_focal_sites d = 1) (emitted_descriptors self') ∧
  (∃ groups,
     emitted_descriptors self' = concat (concat groups) ∧
     Forall2 (λ group j,
                Forall2 (λ block m, entry_block self' j m block) group
                  (default [] (frequency_map self !! j)))
       groups (visited_frequencies self)) ∧
  NoDup (visited_frequencies self) ∧
  (∀ j tree m, frequency_map self !! j = Some tree → m ∈ tree →
     j ∈ visited_frequencies self) ∧
  num_ancestors self'
  = sum_list ((λ j, listed_sites (default [] (frequency_map self !! j)))
                <$> visited_frequencies self).
Proof.
  intros Halloc Hadd Hfin.
  destruct (finalised_emits _ _ _ _ _ _ _ _ _ _ _ _ Halloc Hadd Hfin)
    as (exp & Hexp & [Hem Hcap] & _ & _ & Hinv).
  destruct Hinv as (Hlen & Hok & _).
  pose proof Hem as Hgroups. rewrite Hexp in Hgroups.
  apply map_emission_groups in Hgroups as (groups & Hcat & Hgroups); [|done].
  split_and!.
  - eapply Forall2_Forall_l; [exact Hem|].
    apply Forall_forall. by intros x _ d (_ & ? & _).
  - by exists groups.
  - apply NoDup_visited_frequencies.
  - intros j tree m Htree Hm. apply elem_of_visited_frequencies. split.
    + eapply (entries_frequency_add_sites NDEBUG self0 calls self); eauto.
      by eapply alloc_maps_empty.
    + apply lookup_lt_Some in Htree. lia.
  - assert (length (emitted_descriptors self') = num_ancestors self') as <-
      by (unfold emitted_descriptors; rewrite length_take; lia).
    rewrite Hcat. clear -Hgroups.
    induction Hgroups as [|group j groups js Hgroup _ IH]; [done|].
    cbn. rewrite concat_app, length_app, IH. f_equal.
    clear -Hgroup. unfold listed_sites.
    induction Hgroup as [|block m group tree (Hb & _) _ IH]; [done|].
    cbn. rewrite length_app, IH. lia.
Qed.

Lemma finalise_one_focal_site_per_descriptor_witness :
  Forall (λ d, d_num_focal_sites d = 1) (emitted_descriptors dedup_finalised) ∧
  (∃ groups,
     emitted_descriptors dedup_finalised = concat (concat groups) ∧
     Forall2 (λ group j,
                Forall2 (λ block m, entry_block dedup_finalised j m block) group
                  (default [] (frequency_map dedup_filled !! j)))
       groups (visited_frequencies dedup_filled)) ∧
  NoDup (visited_frequencies dedup_filled) ∧
  (∀ j tree m, frequency_map dedup_filled !! j = Some tree → m ∈ tree →
     j ∈ visited_frequencies dedup_filled) ∧
  num_ancestors dedup_finalised
  = sum_list ((λ j, listed_sites (default [] (frequency_map dedup_filled !! j)))
                <$> visited_frequencies dedup_filled).
Proof.
  apply (finalise_one_focal_site_per_descriptor false 4 3 0 true true (λ _, true)
           dedup_calls true dedup_allocated dedup_filled dedup_finalised);
    reflexivity.
Defined.

(** ** The consistency check *)

Lemma count_derived_spec self p buf : ∀ n k count,
  genotype_bufs (allocator self) !! p = Some buf → (k + n ≤ length buf)%nat →
  count_derived self p k n count
  = Ok (count + length (filter (λ a, a = 1%Z) (take n (drop k buf))))%nat.
Proof.
  induction n as [|n IH]; intros k count Hbuf Hlen; cbn [count_derived].
  - rewrite take_0. cbn. f_equal. lia.
  - unfold load_genotypes. rewrite Hbuf. cbn [defined mbind outcome_bind].
    destruct (lookup_lt_is_Some_2 buf k) as [g Hg]; [lia|].
    rewrite Hg. cbn [defined mbind outcome_bind].
    rewrite IH by (done || lia).
    rewrite (drop_S _ g _ Hg). cbn [take]. rewrite filter_cons.
    destruct (Z.eqb_spec g 1).
    + rewrite decide_True by done. cbn [length]. f_equal. lia.
    + by rewrite decide_False by done.
Qed.

Lemma count_derived_Ok self p : ∀ n k count c,
  count_derived self p k n count = Ok c → (0 < n)%nat →
  ∃ buf, genotype_bufs (allocator self) !! p = Some buf ∧
         (k + n ≤ length buf)%nat.
Proof.
  induction n as [|n IH]; intros k count c H Hn; [lia|].
  cbn [count_derived] in H. bind_inv H as buf Hbuf. bind_inv H as g Hg.
  unfold load_genotypes in Hbuf. inv_Ok.
  apply lookup_lt_Some in Hg as Hlt.
  destruct n as [|n].
  - exists buf. split; [done|lia].
  - apply IH in H as (buf' & Hbuf' & Hlen); [|lia].
    exists buf. split; [done|]. rewrite Hbuf in Hbuf'. injection Hbuf' as <-. lia.
Qed.

Lemma check_site_list_NDEBUG self f m : ∀ s count,
  check_site_list true self f m s count = Ok (count + length s)%nat.
Proof.
  induction s as [|l s IH]; intros count; cbn [check_site_list length].
  - f_equal. lia.
  - cbn. rewrite IH. f_equal. lia.
Qed.

(** With assertions, the walk ends exactly when every listed site has
    the frequency and the buffer of the entry. *)
Lemma check_site_list_asserts self f m : ∀ s count c,
  check_site_list false self f m s count = Ok c ↔
  c = (count + length s)%nat ∧
  Forall (λ l, ∃ st, sites self !! l = Some st ∧ frequency st = f ∧
                     genotypes st = Some (pm_genotypes m)) s.
Proof.
  induction s as [|l s IH]; intros count c; cbn [check_site_list length].
  - split.
    + intros H. inv_Ok. split; [lia|constructor].
    + intros [-> _]. f_equal. lia.
  - unfold assert_read. cbn [orb].
    destruct (sites self !! l) as [st|] eqn:Hst; cbn [defined mbind outcome_bind].
    2:{ split; [done|]. intros [_ [(st & ? & _) _]%Forall_cons_1]. congruence. }
    unfold assert. cbn [orb].
    destruct (Nat.eqb_spec (frequency st) f) as [Hf|Hf];
      cbn [mbind outcome_bind].
    2:{ split; [done|]. intros [_ [(st' & ? & ? & _) _]%Forall_cons_1].
        congruence. }
    destruct (bool_decide_reflect (genotypes st = Some (pm_genotypes m)))
      as [Hg|Hg]; cbn [mbind outcome_bind].
    2:{ split; [done|]. intros [_ [(st' & ? & ? & ?) _]%Forall_cons_1].
        congruence. }
    rewrite IH. split.
    + intros [-> Hall]. split; [lia|]. constructor; eauto.
    + intros [-> [_ Hall]%Forall_cons_1]. split; [lia|done].
Qed.

Lemma check_entry_complete NDEBUG self f m :
  entry_consistent self f m → check_entry NDEBUG self f m = Ok ().
Proof.
  intros ((buf & Hbuf & Hlen & Hcount) & Hnum & Hsites). unfold check_entry.
  rewrite (count_derived_spec _ _ buf) by (done || lia).
  rewrite drop_0. cbn [mbind outcome_bind Nat.add].
  unfold derived_count in Hcount. rewrite Hcount.
  unfold assert. rewrite Nat.eqb_refl, orb_true_r. cbn [mbind outcome_bind].
  destruct NDEBUG.
  - rewrite check_site_list_NDEBUG. done.
  - assert (check_site_list false self f m (pm_sites m) 0
            = Ok (0 + length (pm_sites m))%nat) as ->.
    { apply check_site_list_asserts. split; [done|].
      apply Forall_forall. intros l Hl. by apply Hsites. }
    cbn [mbind outcome_bind Nat.add orb]. by rewrite Hnum, Nat.eqb_refl.
Qed.

Lemma check_entry_sound self f m :
  (0 < num_samples self)%nat →
  check_entry false self f m = Ok () → entry_consistent self f m.
Proof.
  intros Hns H. unfold check_entry in H.
  bind_inv H as count Hcount.
  destruct (count_derived_Ok _ _ _ _ _ _ Hcount Hns) as (buf & Hbuf & Hlen).
  rewrite (count_derived_spec _ _ buf) in Hcount by done.
  rewrite drop_0 in Hcount. injection Hcount as <-.
  unfold assert in H. cbn [orb Nat.add] in H.
  destruct (Nat.eqb_spec (length (filter (λ a, a = 1) (take (num_samples self) buf)))
              f) as [Hf|]; [|done].
  cbn [mbind outcome_bind] in H. bind_inv H as c Hc.
  apply check_site_list_asserts in Hc as [-> Hall].
  destruct (Nat.eqb_spec (pm_num_sites m) (0 + length (pm_sites m))) as [Hn|];
    [|done].
  split_and!.
  - exists buf. split_and!; [done|lia|done].
  - done.
  - intros l Hl. rewrite Forall_forall in Hall. by apply Hall.
Qed.

Lemma check_entries_complete NDEBUG self f tree :
  Forall (entry_consistent self f) tree → check_entries NDEBUG self f tree = Ok ().
Proof.
  induction 1 as [|m tree Hm _ IH]; cbn [check_entries]; [done|].
  by rewrite check_entry_complete.
Qed.

Lemma check_entries_sound self f tree :
  (0 < num_samples self)%nat →
  check_entries false self f tree = Ok () → Forall (entry_consistent self f) tree.
Proof.
  intros Hns. induction tree as [|m tree IH]; cbn [check_entries]; intros H.
  - constructor.
  - bind_inv H as u Hu. destruct u. constructor; [by apply check_entry_sound|auto].
Qed.

Lemma check_frequencies_complete NDEBUG self fs :
  Forall (λ f, ∃ tree, frequency_map self !! f = Some tree ∧
                       Forall (entry_consistent self f) tree) fs →
  check_frequencies NDEBUG self fs = Ok ().
Proof.
  induction 1 as [|f fs (tree & Htree & Hall) _ IH]; cbn [check_frequencies];
    [done|].
  rewrite Htree. cbn [defined mbind outcome_bind].
  by rewrite check_entries_complete.
Qed.

Lemma check_frequencies_sound self fs :
  (0 < num_samples self)%nat →
  check_frequencies false self fs = Ok () →
  Forall (λ f, ∃ tree, frequency_map self !! f = Some tree ∧
                       Forall (entry_consistent self f) tree) fs.
Proof.
  intros Hns. induction fs as [|f fs IH]; cbn [check_frequencies]; intros H.
  - constructor.
  - bind_inv H as tree Htree. bind_inv H as u Hu. inv_Ok.
    constructor; [|auto]. exists tree. split; [done|].
    destruct u. by apply check_entries_sound.
Qed.

(** ** [add_site] and the arena *)

Lemma bind_Fail {A B : Type} (m : outcome A) (f : A → outcome B) (e : error_code) :
  m ≫= f = Fail e → m = Fail e ∨ ∃ a, m = Ok a ∧ f a = Fail e.
Proof.
  destruct m as [a|e'|]; simpl; intros H; [right; exists a; by split|injection H as ->; by left|done].
Qed.

Lemma assert_no_Fail NDEBUG c e : assert NDEBUG c ≠ Fail e.
Proof. unfold assert. by destruct (NDEBUG || c). Qed.

Lemma defined_no_Fail {A : Type} (o : option A) e : defined o ≠ Fail e.
Proof. by destruct o. Qed.

Lemma set_site_no_Fail self l f e : set_site self l f ≠ Fail e.
Proof. unfold set_site. by destruct (sites self !! l). Qed.

Lemma update_map_elem_no_Fail self frequency i f e :
  update_map_elem self frequency i f ≠ Fail e.
Proof.
  unfold update_map_elem. destruct (frequency_map self !! frequency) as [t|]; [|done].
  cbn. by destruct (t !! i).
Qed.

Lemma memcmp_no_Fail n : ∀ a b e, memcmp a b n ≠ Fail e.
Proof.
  induction n as [|n IH]; intros a b e; cbn [memcmp]; [done|].
  destruct a as [|x a]; [done|]. destruct b as [|y b]; [done|].
  destruct (byte_of_allele x =? byte_of_allele y); [apply IH|done].
Qed.

Lemma avl_search_no_Fail self tree key n e : avl_search self tree key n ≠ Fail e.
Proof.
  induction tree as [|item rest IH]; cbn [avl_search]; [done|].
  intros H. apply bind_Fail in H as [H|(buf & _ & H)];
    [by apply defined_no_Fail in H|].
  apply bind_Fail in H as [H|(c & _ & H)]; [by apply memcmp_no_Fail in H|].
  destruct (c =? 0); [done|].
  apply bind_Fail in H as [H|(r & _ & H)]; done.
Qed.

Lemma avl_insert_node_no_Fail self tree node e :
  avl_insert_node self tree node ≠ Fail e.
Proof.
  induction tree as [|item rest IH]; cbn [avl_insert_node]; [done|].
  intros H. apply bind_Fail in H as [H|(gn & _ & H)];
    [by apply defined_no_Fail in H|].
  apply bind_Fail in H as [H|(gi & _ & H)]; [by apply defined_no_Fail in H|].
  apply bind_Fail in H as [H|(c & _ & H)]; [by apply memcmp_no_Fail in H|].
  destruct (c =? 0); [done|]. destruct (c <? 0); [done|].
  apply bind_Fail in H as [H|(r & _ & H)]; done.
Qed.

(** The search reads the genotype buffers only. *)
Lemma avl_search_ext self1 self2 tree key n :
  genotype_bufs (allocator self1) = genotype_bufs (allocator self2) →
  avl_search self1 tree key n = avl_search self2 tree key n.
Proof.
  intros Hb. induction tree as [|item rest IH]; cbn [avl_search]; [done|].
  unfold load_genotypes. by rewrite Hb, IH.
Qed.

(** The requests that a successful [add_site] makes. *)
Lemma add_site_requests NDEBUG self l f g self' :
  ancestor_builder_add_site NDEBUG self l f g = Ok self' →
  chunk_ok (allocator self') = chunk_ok (allocator self) ∧
  if (1 <? f)%nat then
    ∃ tree r, frequency_map self !! f = Some tree ∧
      avl_search self tree g (num_samples self) = Ok r ∧
      requests (allocator self')
      = (requests (allocator self) + if r is Some _ then 1 else 4)%nat ∧
      length (genotype_bufs (allocator self'))
      = (length (genotype_bufs (allocator self)) + if r is Some _ then 0 else 1)%nat ∧
      ∀ i, (i < if r is Some _ then 1 else 4)%nat →
        chunk_ok (allocator self) (requests (allocator self) + i) = true
  else allocator self' = allocator self.
Proof.
  intros H. unfold ancestor_builder_add_site in H.
  bind_inv H as u1 Ha1. bind_inv H as u2 Ha2. clear Ha1 Ha2 u1 u2.
  bind_inv H as self0 Hs0. apply set_site_Ok in Hs0 as (old & Hold & ->).
  destruct (1 <? f)%nat eqn:Hf.
  2:{ by inv_Ok. }
  bind_inv H as tree Htree. inv_Ok. cbn in Htree.
  bind_inv H as found Hsearch. bind_inv H as si Hsi.
  destruct si as [self1 i].
  bind_inv H as self2 Hs2.
  apply update_map_elem_Ok in Hs2 as (tree1 & m1 & Hfm1 & Hi1 & ->).
  cbn in H.
  destruct (chunk_ok (allocator self1) (requests (allocator self1))) eqn:Hlist;
    [|done].
  cbn in H. apply update_map_elem_Ok in H as (tree2 & m2 & Hfm2 & Hi2 & ->).
  cbn [allocator set_frequency_map set_allocator chunk_ok requests genotype_bufs].
  rewrite (avl_search_ext _ self) in Hsearch by done. cbn in Hsearch.
  destruct found as [j|].
  - bind_inv Hsi as m Hm. inv_Ok.
    bind_inv Hsi as self3 Hs3. apply set_site_Ok in Hs3 as (old' & Hold' & ->).
    inv_Ok. cbn in *. split; [done|].
    exists tree, (Some i). split_and!; [done|done|lia|lia|].
    intros k Hk. replace k with O by lia. by rewrite Nat.add_0_r.
  - cbn in Hsi.
    destruct (chunk_ok (allocator self) (requests (allocator self))) eqn:H0;
      [|done].
    destruct (chunk_ok (allocator self) (S (requests (allocator self)))) eqn:H1;
      [|done].
    destruct (chunk_ok (allocator self) (S (S (requests (allocator self)))))
      eqn:H2; [|done].
    cbn in Hsi. bind_inv Hsi as u Hu. clear Hu u.
    cbn in Hsi. bind_inv Hsi as self3 Hs3.
    apply set_site_Ok in Hs3 as (old' & Hold' & ->).
    cbn in *. bind_inv Hsi as r Hins.
    destruct r as [[i' tree']|]; [|done]. inv_Ok. cbn in *.
    split; [done|]. exists tree, None. split_and!; [done|done|lia| |].
    + rewrite length_app. cbn. lia.
    + intros k Hk.
      assert (k = 0 ∨ k = 1 ∨ k = 2 ∨ k = 3)%nat as [-> | [-> | [-> | ->]]] by lia.
      * by rewrite Nat.add_0_r.
      * by rewrite Nat.add_1_r.
      * by replace (requests (allocator self) + 2)%nat
          with (S (S (requests (allocator self)))) by lia.
      * by replace (requests (allocator self) + 3)%nat
          with (S (S (S (requests (allocator self))))) by lia.
Qed.

(** [add_site] reports an error only when the arena refuses one of the
    requests that the call makes. *)
Lemma add_site_Fail NDEBUG self l f g e :
  ancestor_builder_add_site NDEBUG self l f g = Fail e →
  (1 < f)%nat ∧
  ∃ tree r, frequency_map self !! f = Some tree ∧
    avl_search self tree g (num_samples self) = Ok r ∧
    ∃ i, (i < if r is Some _ then 1 else 4)%nat ∧
         chunk_ok (allocator self) (requests (allocator self) + i) = false.
Proof.
  intros H. unfold ancestor_builder_add_site in H.
  apply bind_Fail in H as [H|(u1 & _ & H)]; [by apply assert_no_Fail in H|].
  apply bind_Fail in H as [H|(u2 & _ & H)]; [by apply assert_no_Fail in H|].
  apply bind_Fail in H as [H|(self0 & Hs0 & H)]; [by apply set_site_no_Fail in H|].
  apply set_site_Ok in Hs0 as (old & Hold & ->).
  destruct (1 <? f)%nat eqn:Hf; [|done]. apply Nat.ltb_lt in Hf. split; [done|].
  apply bind_Fail in H as [H|(tree & Htree & H)]; [by apply defined_no_Fail in H|].
  inv_Ok. cbn in Htree.
  apply bind_Fail in H as [H|(found & Hsearch & H)];
    [by apply avl_search_no_Fail in H|].
  rewrite (avl_search_ext _ self) in Hsearch by done. cbn in Hsearch.
  exists tree, found. split_and!; [done..|].
  apply bind_Fail in H as [H|([self1 i] & Hsi & H)].
  - destruct found as [j|].
    + apply bind_Fail in H as [H|(m & _ & H)]; [by apply defined_no_Fail in H|].
      apply bind_Fail in H as [H|(s & _ & H)]; [by apply set_site_no_Fail in H|].
      done.
    + cbn in H.
      destruct (chunk_ok (allocator self) (requests (allocator self))) eqn:H0.
      2:{ exists 0%nat. split; [lia|]. by rewrite Nat.add_0_r. }
      destruct (chunk_ok (allocator self) (S (requests (allocator self)))) eqn:H1.
      2:{ exists 1%nat. split; [lia|]. by rewrite Nat.add_1_r. }
      destruct (chunk_ok (allocator self) (S (S (requests (allocator self)))))
        eqn:H2.
      2:{ exists 2%nat. split; [lia|].
          by replace (requests (allocator self) + 2)%nat
            with (S (S (requests (allocator self)))) by lia. }
      cbn in H.
      apply bind_Fail in H as [H|(u & _ & H)];
        [by destruct (num_samples self <=? length g)%nat|].
      cbn in H.
      apply bind_Fail in H as [H|(s & _ & H)]; [by apply set_site_no_Fail in H|].
      apply bind_Fail in H as [H|(r & _ & H)];
        [by apply avl_insert_node_no_Fail in H|].
      by destruct r as [[? ?]|].
  - apply bind_Fail in H as [H|(self2 & Hs2 & H)];
      [by apply update_map_elem_no_Fail in H|].
    apply update_map_elem_Ok in Hs2 as (tree1 & m1 & _ & _ & ->).
    cbn in H.
    destruct (chunk_ok (allocator self1) (requests (allocator self1))) eqn:Hlist.
    { cbn in H. by apply update_map_elem_no_Fail in H. }
    destruct found as [j|].
    + bind_inv Hsi as m Hm. bind_inv Hsi as self3 Hs3.
      apply set_site_Ok in Hs3 as (old' & _ & ->). inv_Ok. cbn in Hlist.
      exists 0%nat. split; [lia|]. by rewrite Nat.add_0_r.
    + cbn in Hsi.
      destruct (chunk_ok (allocator self) (requests (allocator self))); [|done].
      destruct (chunk_ok (allocator self) (S (requests (allocator self))));
        [|done].
      destruct (chunk_ok (allocator self) (S (S (requests (allocator self)))));
        [|done].
      cbn in Hsi. bind_inv Hsi as u Hu. cbn in Hsi. bind_inv Hsi as self3 Hs3.
      apply set_site_Ok in Hs3 as (old' & _ & ->).
      bind_inv Hsi as r Hins. destruct r as [[i' tree']|]; [|done]. inv_Ok.
      cbn in Hlist. exists 3%nat. split; [lia|].
      by replace (requests (allocator self) + 3)%nat
        with (S (S (S (requests (allocator self))))) by lia.
Qed.

(** *** When [add_site] returns *)

Lemma memcmp_total n : ∀ a b,
  (n ≤ length a)%nat → (n ≤ length b)%nat → ∃ c, memcmp a b n = Ok c.
Proof.
  induction n as [|n IH]; intros a b Ha Hb; cbn [memcmp]; [by eexists|].
  destruct a as [|x a]; [cbn in Ha; lia|]. destruct b as [|y b]; [cbn in Hb; lia|].
  cbn in Ha, Hb. destruct (byte_of_allele x =? byte_of_allele y); [|by eexists].
  apply IH; lia.
Qed.

Lemma memcmp_take_l n : ∀ a b, memcmp (take n a) b n = memcmp a b n.
Proof.
  induction n as [|n IH]; intros a b; cbn [memcmp]; [done|].
  destruct a as [|x a]; [done|]. cbn [take]. destruct b as [|y b]; [done|].
  by rewrite IH.
Qed.

Lemma avl_search_total self tree key n :
  (n ≤ length key)%nat →
  Forall (λ m, ∃ buf, genotype_bufs (allocator self) !! pm_genotypes m = Some buf ∧
                      (n ≤ length buf)%nat) tree →
  ∃ r, avl_search self tree key n = Ok r.
Proof.
  intros Hkey. induction 1 as [|item rest (buf & Hbuf & Hlen) _ [r IH]];
    cbn [avl_search]; [by eexists|].
  unfold load_genotypes. rewrite Hbuf. cbn [defined mbind outcome_bind].
  unfold cmp_pattern_map. rewrite Nat.mul_1_r.
  destruct (memcmp_total n key buf) as [c ->]; [done..|].
  cbn [mbind outcome_bind]. destruct (c =? 0); [by eexists|].
  rewrite IH. by eexists.
Qed.

(** After a search that found no equal key, the insertion links the
    node in. *)
Lemma avl_insert_node_total self tree node gn :
  genotype_bufs (allocator self) !! pm_genotypes node = Some gn →
  Forall (λ m, ∃ buf c, genotype_bufs (allocator self) !! pm_genotypes m = Some buf ∧
                        memcmp gn buf (pm_num_samples node) = Ok c ∧ c ≠ 0) tree →
  ∃ i tree', avl_insert_node self tree node = Ok (Some (i, tree')).
Proof.
  intros Hgn. induction 1 as [|item rest (buf & c & Hbuf & Hc & Hne) _ (i & t & IH)];
    cbn [avl_insert_node]; [by eexists _, _|].
  unfold load_genotypes. rewrite Hgn, Hbuf. cbn [defined mbind outcome_bind].
  unfold cmp_pattern_map. rewrite Nat.mul_1_r, Hc. cbn [mbind outcome_bind].
  destruct (Z.eqb_spec c 0); [done|]. destruct (c <? 0); [by eexists _, _|].
  rewrite IH. by eexists _, _.
Qed.

Lemma set_site_total self l f old :
  sites self !! l = Some old →
  set_site self l f = Ok (set_sites self (<[l := f old]> (sites self))).
Proof. unfold set_site. by intros ->. Qed.

Lemma update_map_elem_total self frequency i f tree m :
  frequency_map self !! frequency = Some tree → tree !! i = Some m →
  update_map_elem self frequency i f
  = Ok (set_frequency_map self
          (<[frequency := <[i := f m]> tree]> (frequency_map self))).
Proof.
  unfold update_map_elem. intros H1 H2. rewrite H1. cbn. by rewrite H2.
Qed.

Lemma add_site_total NDEBUG self l f g :
  length (frequency_map self) = S (num_samples self) →
  length (sites self) = num_sites self →
  (∀ f q, q ∈ pattern_buffers self f →
     ∃ buf, genotype_bufs (allocator self) !! q = Some buf ∧
            length buf = num_samples self) →
  (l < num_sites self)%nat → (f ≤ num_samples self)%nat →
  (num_samples self ≤ length g)%nat →
  (∀ i, (i < 4)%nat →
     chunk_ok (allocator self) (requests (allocator self) + i) = true) →
  ∃ self', ancestor_builder_add_site NDEBUG self l f g = Ok self'.
Proof.
  intros Hfm Hsites Hbufs Hl Hf Hg Harena. unfold ancestor_builder_add_site.
  replace (f <=? num_samples self)%nat with true by (symmetry; by apply Nat.leb_le).
  replace (l <? num_sites self)%nat with true by (symmetry; by apply Nat.ltb_lt).
  rewrite assert_true. cbn [mbind outcome_bind].
  destruct (lookup_lt_is_Some_2 (sites self) l) as [old Hold]; [lia|].
  rewrite (set_site_total _ _ _ old) by done. cbn [mbind outcome_bind].
  destruct (1 <? f)%nat eqn:H1f; [|by eexists].
  destruct (lookup_lt_is_Some_2 (frequency_map self) f) as [tree Htree]; [lia|].
  cbn [frequency_map set_sites]. rewrite Htree. cbn [defined mbind outcome_bind].
  assert (Forall (λ m, ∃ buf,
            genotype_bufs (allocator self) !! pm_genotypes m = Some buf ∧
            (num_samples self ≤ length buf)%nat) tree) as Htreebufs.
  { apply Forall_forall. intros m Hm.
    destruct (Hbufs f (pm_genotypes m)) as (buf & Hbuf & Hlen).
    - unfold pattern_buffers. rewrite Htree. by apply list_elem_of_fmap_2.
    - exists buf. split; [done|lia]. }
  destruct (avl_search_total self tree g (num_samples self) Hg Htreebufs)
    as [found Hsearch].
  rewrite (avl_search_ext _ self) by done. cbn [num_samples set_sites].
  rewrite Hsearch. cbn [mbind outcome_bind].
  pose proof (Harena 0%nat ltac:(lia)) as H0. rewrite Nat.add_0_r in H0.
  destruct found as [i|].
  - apply avl_search_Some in Hsearch as (m & buf & Hm & _ & _).
    rewrite Hm. cbn [defined mbind outcome_bind].
    erewrite set_site_total
      by (cbn [sites set_sites]; apply list_lookup_insert_eq;
          by eapply lookup_lt_Some).
    cbn [mbind outcome_bind].
    erewrite update_map_elem_total by (cbn [frequency_map set_sites]; eassumption).
    cbn [mbind outcome_bind].
    cbn [allocator set_frequency_map set_sites block_allocator_get].
    rewrite H0. cbn [negb].
    erewrite update_map_elem_total; [by eexists| |].
    + cbn [frequency_map set_allocator set_frequency_map set_sites].
      apply list_lookup_insert_eq. by eapply lookup_lt_Some.
    + apply list_lookup_insert_eq. by eapply lookup_lt_Some.
  - pose proof (avl_search_None _ _ _ _ Hsearch) as Hnone.
    pose proof (Harena 1%nat ltac:(lia)) as H1. rewrite Nat.add_1_r in H1.
    pose proof (Harena 2%nat ltac:(lia)) as H2.
    replace (requests (allocator self) + 2)%nat
      with (S (S (requests (allocator self)))) in H2 by lia.
    pose proof (Harena 3%nat ltac:(lia)) as H3.
    replace (requests (allocator self) + 3)%nat
      with (S (S (S (requests (allocator self))))) in H3 by lia.
    cbn [allocator set_sites block_allocator_get chunk_ok requests].
    rewrite H0, H1, H2. cbn [andb negb].
    replace (num_samples self <=? length g)%nat with true
      by (symmetry; by apply Nat.leb_le).
    cbn [mbind outcome_bind store_genotypes genotype_bufs chunk_ok requests
         site_arrays].
    erewrite set_site_total
      by (cbn [sites set_sites set_allocator]; apply list_lookup_insert_eq;
          by eapply lookup_lt_Some).
    cbn [mbind outcome_bind].
    match goal with
    | |- ∃ _, (avl_insert_node ?s tree ?node ≫= _) ≫= _ = _ =>
        destruct (avl_insert_node_total s tree node (take (num_samples self) g))
          as (i & tree' & Hins)
    end.
    { cbn. by rewrite lookup_app_r, Nat.sub_diag. }
    { apply Forall_forall. intros m Hm.
      apply list_elem_of_lookup_1 in Hm as [k Hk].
      destruct (Hnone k m Hk) as (buf & c & Hbuf & Hc & Hne).
      exists buf, c. cbn. split_and!; [|by rewrite memcmp_take_l|done].
      rewrite lookup_app_l; [done|]. by eapply lookup_lt_Some. }
    rewrite Hins. cbn [mbind outcome_bind].
    apply avl_insert_node_Some in Hins as [Hi ->].
    erewrite update_map_elem_total.
    2:{ cbn [frequency_map set_frequency_map set_sites set_allocator].
        apply list_lookup_insert_eq. lia. }
    2:{ rewrite lookup_app_r by (rewrite length_take; lia).
        rewrite length_take_le, Nat.sub_diag by lia. done. }
    cbn [mbind outcome_bind].
    cbn [allocator set_frequency_map set_sites set_allocator block_allocator_get
         chunk_ok requests].
    rewrite H3. cbn [negb].
    erewrite update_map_elem_total; [by eexists| |].
    + cbn [frequency_map set_allocator set_frequency_map set_sites].
      apply list_lookup_insert_eq. rewrite length_insert. lia.
    + apply list_lookup_insert_eq. rewrite length_app, length_take. cbn. lia.
Qed.

(** ** Runs that succeed *)

Lemma arena_add_sites NDEBUG self0 calls self :
  add_sites NDEBUG self0 calls = Ok self →
  chunk_ok (allocator self) = chunk_ok (allocator self0) ∧
  (requests (allocator self) ≤ requests (allocator self0) + 4 * length calls)%nat.
Proof.
  revert calls self.
  apply (add_sites_ind NDEBUG (λ self done,
           chunk_ok (allocator self) = chunk_ok (allocator self0) ∧
           (requests (allocator self)
            ≤ requests (allocator self0) + 4 * length done)%nat)).
  - split; [done|cbn; lia].
  - intros self done c self' _ [Hc Hr] Hadd _.
    apply add_site_requests in Hadd as [Hc' Hreq]. rewrite length_app. cbn.
    split; [congruence|].
    destruct (1 <? call_frequency c)%nat.
    + destruct Hreq as (tree & r & _ & _ & Hr' & _). rewrite Hr'.
      destruct r; lia.
    + rewrite Hreq. lia.
Qed.

Lemma descriptors_add_sites NDEBUG self0 calls self :
  add_sites NDEBUG self0 calls = Ok self → descriptors self = descriptors self0.
Proof.
  revert calls self.
  apply (add_sites_ind NDEBUG (λ self _, descriptors self = descriptors self0)).
  - done.
  - intros self done c self' _ IH _ (_ & _ & Hd & _). congruence.
Qed.

(** A run from a fresh builder goes through when every call names a site
    of the builder, a frequency of at most [num_samples] and at least
    [num_samples] genotypes, and the arena serves four requests per
    call. *)
Lemma add_sites_total NDEBUG ns nsites flags calloc_ok arena_ok oracle self0 calls :
  ancestor_builder_alloc NDEBUG ns nsites flags calloc_ok arena_ok oracle = Ok self0 →
  Forall (call_ok ns nsites) calls →
  (∀ i, (i < 4 * length calls)%nat → oracle i = true) →
  ∃ self, add_sites NDEBUG self0 calls = Ok self.
Proof.
  intros Halloc. induction calls as [|c calls IH] using rev_ind; intros Hok Harena.
  - by eexists.
  - apply Forall_app in Hok as [Hok [Hc _]%Forall_cons_1].
    rewrite length_app in Harena. cbn in Harena.
    destruct IH as [self Hrun]; [done|intros i Hi; apply Harena; lia|].
    pose proof (builder_inv_add_sites _ _ _ _
                  (builder_inv_alloc _ _ _ _ _ _ _ _ Halloc) Hrun) as (Hlen & _ & _).
    pose proof (dedup_inv_add_sites _ _ _ _
                  (dedup_inv_alloc _ _ _ _ _ _ _ _ Halloc) Hrun) as Hdedup.
    destruct (genotypes_ok_run _ _ _ _ _ _ _ _ _ _ Halloc Hrun)
      as ([Hsites _] & Hnsites & Hns & _).
    destruct (arena_add_sites _ _ _ _ Hrun) as [Hchunk Hreq].
    assert (chunk_ok (allocator self0) = oracle ∧ requests (allocator self0) = O)
      as [Hor Hr0] by (by apply alloc_Ok in Halloc as ->).
    destruct Hc as (Hl & Hf & Hg).
    destruct (add_site_total NDEBUG self (call_site c) (call_frequency c)
                (call_genotypes c)) as [self' Hadd]; try (done || lia).
    + intros f q Hq. by eapply dedup_buffer_length.
    + intros i Hi. rewrite Hchunk, Hor. apply Harena. lia.
    + exists self'. apply add_sites_snoc. eauto.
Qed.

Lemma length_tree_emission j tree :
  Forall entry_ok tree → length (tree_emission j tree) = listed_sites tree.
Proof.
  unfold tree_emission, listed_sites.
  induction 1 as [|m tree Hm _ IH]; [done|].
  rewrite bind_cons, length_app, IH. cbn [fmap list_fmap sum_list sum_list_with].
  unfold entry_emission. rewrite length_fmap, length_rev. unfold entry_ok in Hm.
  by rewrite Hm.
Qed.

Lemma length_map_emission fm js :
  maps_ok fm →
  length (map_emission fm js)
  = sum_list ((λ j, listed_sites (default [] (fm !! j))) <$> js).
Proof.
  intros Hok. unfold map_emission. induction js as [|j js IH]; [done|].
  rewrite bind_cons, length_app, IH. cbn [fmap list_fmap sum_list sum_list_with].
  rewrite length_tree_emission; [done|].
  destruct (fm !! j) as [tree|] eqn:Htree; cbn; [|constructor].
  unfold maps_ok in Hok. rewrite Forall_lookup in Hok. eauto.
Qed.

Lemma NoDup_bounded_length (l : list nat) (n : nat) :
  NoDup l → Forall (λ x, (x < n)%nat) l → (length l ≤ n)%nat.
Proof.
  intros Hnd Hall. rewrite <- (length_seq n 0). apply submseteq_length.
  apply NoDup_submseteq; [done|]. intros x Hx. rewrite Forall_forall in Hall.
  apply elem_of_seq. specialize (Hall x Hx). lia.
Qed.

Lemma length_mapped_calls calls : (length (mapped_calls calls) ≤ length calls)%nat.
Proof. unfold mapped_calls. rewrite length_fmap. apply length_filter. Qed.

(** Finalisation goes through after a run in which no site is added
    twice, when the arena serves every request; in a build with
    assertions the frequencies must be the numbers of ones. *)
Lemma run_finalise_total NDEBUG ns nsites flags calloc_ok arena_ok oracle self0
    calls self :
  ancestor_builder_alloc NDEBUG ns nsites flags calloc_ok arena_ok oracle = Ok self0 →
  add_sites NDEBUG self0 calls = Ok self →
  NoDup (call_site <$> calls) →
  (NDEBUG = true ∨
   Forall (λ c, (2 ≤ call_frequency c)%nat → call_counted ns c) calls) →
  (∀ i, oracle i = true) →
  ∃ self', ancestor_builder_finalise NDEBUG self true = Ok self'.
Proof.
  intros Halloc Hrun Hnd Hcount Harena.
  pose proof (builder_inv_add_sites _ _ _ _
                (builder_inv_alloc _ _ _ _ _ _ _ _ Halloc) Hrun) as Hinv.
  pose proof (dedup_inv_add_sites _ _ _ _
                (dedup_inv_alloc _ _ _ _ _ _ _ _ Halloc) Hrun) as Hdedup.
  pose proof (listing_inv_add_sites _ _ _ _
                (alloc_maps_empty _ _ _ _ _ _ _ _ Halloc) Hrun Hnd) as Hlist.
  destruct (genotypes_ok_run _ _ _ _ _ _ _ _ _ _ Halloc Hrun)
    as ([Hsites _] & Hnsites & Hns & Hbound).
  destruct (arena_add_sites _ _ _ _ Hrun) as [Hchunk _].
  apply finalise_total; [done| | | |].
  - apply Forall_forall. intros tree Htree. apply Forall_forall. intros m Hm.
    apply list_elem_of_lookup_1 in Htree as [f Hf].
    by destruct (Hlist _ _ _ Hf Hm) as (_ & ? & _).
  - rewrite <- length_map_emission by apply Hinv.
    rewrite (emission_add_sites _ _ _ _
               (builder_inv_alloc _ _ _ _ _ _ _ _ Halloc) Hrun).
    rewrite (descriptors_add_sites _ _ _ _ Hrun).
    apply alloc_Ok in Halloc as ->. cbn [frequency_map descriptors].
    rewrite map_emission_empty, app_nil_l, length_replicate.
    etrans; [apply length_mapped_calls|].
    rewrite <- (length_fmap call_site). apply NoDup_bounded_length; [done|].
    apply Forall_fmap, Forall_forall. intros c Hc. cbn.
    specialize (Hbound c Hc). rewrite Hsites, Hnsites in Hbound. done.
  - intros i _. rewrite Hchunk. apply alloc_Ok in Halloc as ->. apply Harena.
  - intros j tree Hj Htree. apply Forall_forall. intros m Hm Hmany.
    destruct (Hlist _ _ _ Htree Hm) as (_ & _ & Hlisted).
    destruct Hinv as (_ & Hok & _).
    assert (entry_ok m) as Hentry.
    { unfold maps_ok in Hok. rewrite Forall_lookup in Hok.
      specialize (Hok _ _ Htree). rewrite Forall_forall in Hok. auto. }
    unfold entry_ok in Hentry.
    destruct (lookup_lt_is_Some_2 (rev (pm_sites m)) 0) as [site Hsite];
      [rewrite length_rev; lia|].
    assert (site ∈ pm_sites m) as Hin.
    { apply list_elem_of_lookup_2 in Hsite.
      by rewrite list_elem_of_In, <- in_rev, <- list_elem_of_In in Hsite. }
    destruct (Hlisted site Hin) as [_ Hs].
    assert (pm_genotypes m ∈ pattern_buffers self j) as Hp.
    { unfold pattern_buffers. rewrite Htree. cbn. by apply list_elem_of_fmap_2. }
    destruct (dedup_buffer_length _ _ _ _ Hdedup Hp) as (buf & Hbuf & Hlen).
    assert (site_genotypes self site = Ok buf) as Hg.
    { unfold site_genotypes, load_genotypes. rewrite Hs. cbn. by rewrite Hbuf. }
    destruct (get_consistent_samples_spec _ _ _ Hg Hlen)
      as (samples & Hget & _ & Hsamples).
    exists site, samples. split_and!; [done..|].
    destruct Hcount as [-> | Hcount]; [by left|right].
    rewrite Hsamples.
    assert (state_consistent self) as Hstate.
    { eapply state_consistent_run; eauto. rewrite Forall_forall in Hcount. auto. }
    destruct (Hstate j tree m) as ((buf' & Hbuf' & _ & Hd) & _); [|done..|].
    + apply elem_of_visited_frequencies in Hj. lia.
    + congruence.
Qed.

(** ** More on finalisation *)

Lemma finalise_frequencies_empty NDEBUG self js :
  Forall (λ j, frequency_map self !! j = Some []) js →
  finalise_frequencies NDEBUG self js = Ok self.
Proof.
  induction 1 as [|j js Hj _ IH]; cbn [finalise_frequencies]; [done|].
  rewrite Hj. cbn. exact IH.
Qed.

(** *** What [make_ancestor] reads *)

Lemma bind_ext {A B : Type} (m : outcome A) (f g : A → outcome B) :
  (∀ a, f a = g a) → m ≫= f = m ≫= g.
Proof. intros H. destruct m; cbn; auto. Qed.

Lemma site_genotypes_ext self1 self2 l :
  sites self1 = sites self2 →
  genotype_bufs (allocator self1) = genotype_bufs (allocator self2) →
  site_genotypes self1 l = site_genotypes self2 l.
Proof.
  intros Hs Hb. unfold site_genotypes, load_genotypes. by rewrite Hs, Hb.
Qed.

Lemma collect_older_sites_ext self1 self2 f ls :
  sites self1 = sites self2 →
  collect_older_sites self1 f ls = collect_older_sites self2 f ls.
Proof.
  intros Hs. induction ls as [|l ls IH]; cbn [collect_older_sites]; [done|].
  by rewrite Hs, IH.
Qed.

Lemma fill_younger_sites_ext self1 self2 f ls : ∀ ancestor,
  sites self1 = sites self2 →
  fill_younger_sites self1 f ancestor ls = fill_younger_sites self2 f ancestor ls.
Proof.
  intros ancestor Hs. revert ancestor.
  induction ls as [|l ls IH]; intros ancestor; cbn [fill_younger_sites]; [done|].
  rewrite Hs. apply bind_ext. intros site. apply bind_ext. intros a. apply IH.
Qed.

Lemma older_sites_loop_ext self1 self2 min older_sites : ∀ st,
  sites self1 = sites self2 →
  genotype_bufs (allocator self1) = genotype_bufs (allocator self2) →
  older_sites_loop self1 min st older_sites
  = older_sites_loop self2 min st older_sites.
Proof.
  intros st Hs Hb. revert st.
  induction older_sites as [|l rest IH]; intros st; cbn [older_sites_loop]; [done|].
  unfold older_site_step. rewrite (site_genotypes_ext self1 self2) by done.
  apply bind_ext. intros [|st']; [done|apply IH].
Qed.

Lemma compute_older_sites_ext self1 self2 focal ancestor older_sites sample_set ok :
  same_data self1 self2 →
  ancestor_builder_compute_older_sites self2 focal ancestor older_sites sample_set ok
  = ancestor_builder_compute_older_sites self1 focal ancestor older_sites
      sample_set ok.
Proof.
  intros (Hns & _ & Hs & _ & Hb). unfold ancestor_builder_compute_older_sites.
  by rewrite Hns, (older_sites_loop_ext self2 self1).
Qed.

(** [make_ancestor] reads the sites, the genotype buffers and the two
    sizes only. *)
Lemma make_ancestor_ext NDEBUG self1 self2 focal_sites ancestor ok1 ok2 ok3 :
  same_data self1 self2 →
  ancestor_builder_make_ancestor NDEBUG self2 focal_sites ancestor ok1 ok2 ok3
  = ancestor_builder_make_ancestor NDEBUG self1 focal_sites ancestor ok1 ok2 ok3.
Proof.
  intros Hsame. pose proof Hsame as (Hns & Hnsites & Hs & _ & Hb).
  unfold ancestor_builder_make_ancestor. rewrite Hnsites, Hs.
  destruct (negb ok1); [done|].
  apply bind_ext. intros _. apply bind_ext. intros focal. apply bind_ext.
  intros site. apply bind_ext. intros a0. apply bind_ext. intros _.
  rewrite !(collect_older_sites_ext self2 self1) by done.
  rewrite !(get_consistent_samples_ext self2 self1) by done.
  apply bind_ext. intros older. apply bind_ext. intros samples.
  apply bind_ext. intros _.
  rewrite (compute_older_sites_ext self1 self2) by done.
  apply bind_ext. intros [a1 last1].
  rewrite (fill_younger_sites_ext self2 self1) by done.
  apply bind_ext. intros a2. apply bind_ext. intros older'.
  apply bind_ext. intros samples'. apply bind_ext. intros _.
  rewrite (compute_older_sites_ext self1 self2) by done.
  apply bind_ext. intros [a3 last2].
  by rewrite (fill_younger_sites_ext self2 self1) by done.
Qed.

(** ** Errors of finalisation *)

Lemma update_descriptor_no_Fail self i f e : update_descriptor self i f ≠ Fail e.
Proof. unfold update_descriptor. by destruct (descriptors self !! i). Qed.

Lemma fill_focal_sites_no_Fail s : ∀ focal_sites k e,
  fill_focal_sites focal_sites k s ≠ Fail e.
Proof.
  induction s as [|site next IH]; intros focal_sites k e; cbn [fill_focal_sites];
    [done|].
  destruct ((0 <=? k) && (Z.to_nat k <? length focal_sites)%nat); [apply IH|done].
Qed.

Lemma consistent_samples_loop_no_Fail g : ∀ count j e,
  consistent_samples_loop g j count ≠ Fail e.
Proof.
  induction count as [|count IH]; intros j e; cbn [consistent_samples_loop];
    [done|].
  intros H. apply bind_Fail in H as [H|(a & _ & H)];
    [by apply defined_no_Fail in H|].
  apply bind_Fail in H as [H|(r & _ & H)]; [by apply IH in H|done].
Qed.

Lemma get_consistent_samples_no_Fail self site e :
  ancestor_builder_get_consistent_samples self site ≠ Fail e.
Proof.
  unfold ancestor_builder_get_consistent_samples, site_genotypes, load_genotypes.
  intros H. apply bind_Fail in H as [H|(g & _ & H)].
  - apply bind_Fail in H as [H|(s & _ & H)]; [by apply defined_no_Fail in H|].
    apply bind_Fail in H as [H|(p & _ & H)]; by apply defined_no_Fail in H.
  - by apply consistent_samples_loop_no_Fail in H.
Qed.

Lemma split_descriptors_arena j m p ks : ∀ self descriptor,
  match split_descriptors self j m p descriptor ks with
  | Ok self' => allocator self' = allocator self
  | Fail _ => False
  | Undef => True
  end.
Proof.
  induction ks as [|k ks IH]; intros self descriptor; cbn [split_descriptors];
    [done|].
  destruct (descriptors self !! descriptor) as [cur|] eqn:Hcur; [|done].
  cbn [defined mbind outcome_bind].
  destruct (d_focal_sites cur) as [[q off]|]; [|done].
  cbn [defined mbind outcome_bind].
  rewrite (update_descriptor_total _ _ _ cur) by done. cbn [mbind outcome_bind].
  unfold update_descriptor.
  match goal with
  | |- context [defined (?l !! ?i)] => destruct (l !! i) as [d'|]; [|done]
  end.
  cbn [defined mbind outcome_bind].
  match goal with
  | |- context [split_descriptors ?s j m p ?d ks] => specialize (IH s d)
  end.
  destruct (split_descriptors _ j m p _ ks); [|done..]. by rewrite IH.
Qed.

(** An entry is finalised with one arena request; only its refusal
    makes the call report an error. *)
Lemma finalise_entry_arena NDEBUG self j m :
  match finalise_entry NDEBUG self j m with
  | Ok self' =>
      chunk_ok (allocator self') = chunk_ok (allocator self) ∧
      requests (allocator self') = S (requests (allocator self))
  | Fail _ => chunk_ok (allocator self) (requests (allocator self)) = false
  | Undef => True
  end.
Proof.
  unfold finalise_entry. cbv zeta.
  destruct (descriptors self !! num_ancestors self) as [d|] eqn:Hd.
  2:{ unfold update_descriptor. cbn. by rewrite Hd. }
  rewrite (update_descriptor_total _ _ _ d) by done.
  cbn [mbind outcome_bind allocator set_descriptors set_num_ancestors
       block_allocator_get].
  destruct (chunk_ok (allocator self) (requests (allocator self))) eqn:Hchunk;
    [|done].
  cbn [negb store_site_array].
  erewrite update_descriptor_total
    by (cbn; apply list_lookup_insert_eq; by eapply lookup_lt_Some).
  cbn [mbind outcome_bind].
  destruct (fill_focal_sites _ _ (pm_sites m)) as [focal_sites|e|] eqn:Hfill;
    [|by apply fill_focal_sites_no_Fail in Hfill|done].
  cbn [mbind outcome_bind].
  match goal with
  | |- match (?check ≫= _) with _ => _ end =>
      destruct check as [u|e|] eqn:Hcheck
  end; [|exfalso|done].
  2:{ destruct (1 <? pm_num_sites m)%nat; [|done].
      apply bind_Fail in Hcheck as [H|(s & _ & H)];
        [by apply defined_no_Fail in H|].
      apply bind_Fail in H as [H|(c & _ & H)];
        [by apply get_consistent_samples_no_Fail in H|].
      by apply assert_no_Fail in H. }
  cbn [mbind outcome_bind].
  destruct (pm_num_sites m =? 0)%nat; [done|].
  match goal with
  | |- match split_descriptors ?s j m ?p ?d ?ks with _ => _ end =>
      pose proof (split_descriptors_arena j m p ks s d) as Hsplit;
      destruct (split_descriptors s j m p d ks)
  end; [|done..].
  rewrite Hsplit. by cbn.
Qed.

Lemma finalise_entries_Fail NDEBUG j tree : ∀ self e,
  finalise_entries NDEBUG self j tree = Fail e →
  ∃ i, (requests (allocator self) ≤ i)%nat ∧ chunk_ok (allocator self) i = false.
Proof.
  induction tree as [|m next IH]; intros self e; cbn [finalise_entries]; [done|].
  pose proof (finalise_entry_arena NDEBUG self j m) as Harena.
  destruct (finalise_entry NDEBUG self j m) as [self1| |]; cbn; [|eauto|done].
  destruct Harena as [Hc Hr]. intros (i & Hi & Hfalse)%IH.
  exists i. rewrite <- Hc. split; [lia|done].
Qed.

Lemma finalise_entries_arena NDEBUG j tree : ∀ self self',
  finalise_entries NDEBUG self j tree = Ok self' →
  chunk_ok (allocator self') = chunk_ok (allocator self) ∧
  (requests (allocator self) ≤ requests (allocator self'))%nat.
Proof.
  induction tree as [|m next IH]; intros self self'; cbn [finalise_entries].
  - by intros [= <-].
  - pose proof (finalise_entry_arena NDEBUG self j m) as Harena.
    destruct (finalise_entry NDEBUG self j m) as [self1| |]; cbn; [|done..].
    destruct Harena as [Hc Hr]. intros [Hc' Hr']%IH. split; [congruence|lia].
Qed.

Lemma finalise_frequencies_Fail NDEBUG js : ∀ self e,
  finalise_frequencies NDEBUG self js = Fail e →
  ∃ i, (requests (allocator self) ≤ i)%nat ∧ chunk_ok (allocator self) i = false.
Proof.
  induction js as [|j js IH]; intros self e; cbn [finalise_frequencies]; [done|].
  destruct (frequency_map self !! j) as [tree|]; [|done].
  cbn [defined mbind outcome_bind].
  destruct (finalise_entries NDEBUG self j tree) as [self1|e'|] eqn:H1; cbn;
    [|intros _; by eapply finalise_entries_Fail|done].
  apply finalise_entries_arena in H1 as [Hc Hr].
  intros (i & Hi & Hfalse)%IH. exists i. rewrite <- Hc. split; [lia|done].
Qed.

(** *** The genotype buffers only grow *)

Lemma genotype_bufs_add_sites NDEBUG self0 calls self :
  add_sites NDEBUG self0 calls = Ok self →
  genotype_bufs (allocator self0) `prefix_of` genotype_bufs (allocator self).
Proof.
  revert calls self.
  apply (add_sites_ind NDEBUG (λ self _,
           genotype_bufs (allocator self0) `prefix_of`
           genotype_bufs (allocator self))).
  - done.
  - intros self done c self' _ IH _ (_ & _ & _ & _ & _ & old & _ & Heff).
    destruct (1 <? call_frequency c)%nat.
    + destruct Heff as (? & ? & ? & _ & _ & _ & [[_ ->]|[_ ->]]); [done|].
      by apply prefix_app_r.
    + by destruct Heff as (_ & _ & ->).
Qed.
(** ** The arena requests of finalisation *)

Lemma split_descriptors_frame j m p ks : ∀ self descriptor,
  match split_descriptors self j m p descriptor ks with
  | Ok self' =>
      allocator self' = allocator self ∧ frequency_map self' = frequency_map self
  | Fail _ => False
  | Undef => True
  end.
Proof.
  induction ks as [|k ks IH]; intros self descriptor; cbn [split_descriptors];
    [done|].
  destruct (descriptors self !! descriptor) as [cur|] eqn:Hcur; [|done].
  cbn [defined mbind outcome_bind].
  destruct (d_focal_sites cur) as [[q off]|]; [|done].
  cbn [defined mbind outcome_bind].
  rewrite (update_descriptor_total _ _ _ cur) by done. cbn [mbind outcome_bind].
  unfold update_descriptor.
  match goal with
  | |- context [defined (?l !! ?i)] => destruct (l !! i) as [d'|]; [|done]
  end.
  cbn [defined mbind outcome_bind].
  match goal with
  | |- context [split_descriptors ?s j m p ?d ks] => specialize (IH s d)
  end.
  destruct (split_descriptors _ j m p _ ks); [|done..].
  destruct IH as [-> ->]. done.
Qed.

(** An entry is finalised with one request to the arena: the call goes
    on when the request is served and reports [TSI_ERR_NO_MEMORY] when
    it is refused. *)
Lemma finalise_entry_requests NDEBUG self j m :
  match finalise_entry NDEBUG self j m with
  | Ok self' =>
      chunk_ok (allocator self) (requests (allocator self)) = true ∧
      chunk_ok (allocator self') = chunk_ok (allocator self) ∧
      requests (allocator self') = S (requests (allocator self)) ∧
      frequency_map self' = frequency_map self
  | Fail e =>
      e = TSI_ERR_NO_MEMORY ∧
      chunk_ok (allocator self) (requests (allocator self)) = false
  | Undef => True
  end.
Proof.
  unfold finalise_entry. cbv zeta.
  destruct (descriptors self !! num_ancestors self) as [d|] eqn:Hd.
  2:{ unfold update_descriptor. cbn. by rewrite Hd. }
  rewrite (update_descriptor_total _ _ _ d) by done.
  cbn [mbind outcome_bind allocator set_descriptors set_num_ancestors
       block_allocator_get].
  destruct (chunk_ok (allocator self) (requests (allocator self))) eqn:Hchunk;
    [|done].
  cbn [negb store_site_array].
  erewrite update_descriptor_total
    by (cbn; apply list_lookup_insert_eq; by eapply lookup_lt_Some).
  cbn [mbind outcome_bind].
  destruct (fill_focal_sites _ _ (pm_sites m)) as [focal_sites|e|] eqn:Hfill;
    [|by apply fill_focal_sites_no_Fail in Hfill|done].
  cbn [mbind outcome_bind].
  match goal with
  | |- match (?check ≫= _) with _ => _ end =>
      destruct check as [u|e|] eqn:Hcheck
  end; [|exfalso|done].
  2:{ destruct (1 <? pm_num_sites m)%nat; [|done].
      apply bind_Fail in Hcheck as [H|(s & _ & H)];
        [by apply defined_no_Fail in H|].
      apply bind_Fail in H as [H|(c & _ & H)];
        [by apply get_consistent_samples_no_Fail in H|].
      by apply assert_no_Fail in H. }
  cbn [mbind outcome_bind].
  destruct (pm_num_sites m =? 0)%nat; [done|].
  match goal with
  | |- match split_descriptors ?s j m ?p ?d ?ks with _ => _ end =>
      pose proof (split_descriptors_frame j m p ks s d) as Hsplit;
      destruct (split_descriptors s j m p d ks)
  end; [|done..].
  destruct Hsplit as [-> ->]. by cbn.
Qed.

(** The entries of a pattern map are finalised with one request each;
    the loop reports an error at the first request that is refused. *)
Lemma finalise_entries_requests NDEBUG j tree : ∀ self,
  match finalise_entries NDEBUG self j tree with
  | Ok self' =>
      (∀ i, (i < length tree)%nat →
         chunk_ok (allocator self) (requests (allocator self) + i) = true) ∧
      chunk_ok (allocator self') = chunk_ok (allocator self) ∧
      requests (allocator self') = (requests (allocator self) + length tree)%nat ∧
      frequency_map self' = frequency_map self
  | Fail e =>
      e = TSI_ERR_NO_MEMORY ∧
      ∃ i, (i < length tree)%nat ∧
        chunk_ok (allocator self) (requests (allocator self) + i) = false ∧
        ∀ i', (i' < i)%nat →
          chunk_ok (allocator self) (requests (allocator self) + i') = true
  | Undef => True
  end.
Proof.
  induction tree as [|m next IH]; intros self; cbn [finalise_entries].
  - cbn. split_and!; first [done | intros; lia].
  - pose proof (finalise_entry_requests NDEBUG self j m) as Hentry.
    destruct (finalise_entry NDEBUG self j m) as [self1|e|];
      cbn [mbind outcome_bind]; [| |done].
    + destruct Hentry as (Hserved & Hc & Hr & Hfm). specialize (IH self1).
      destruct (finalise_entries NDEBUG self1 j next) as [self'|e|]; [| |done].
      * destruct IH as (Hall & Hc' & Hr' & Hfm'). rewrite Hc, Hr in *.
        split_and!; [|done|cbn; lia|congruence].
        intros [|i] Hi; [by rewrite Nat.add_0_r|].
        cbn in Hi. replace (requests (allocator self) + S i)%nat
          with (S (requests (allocator self)) + i)%nat by lia.
        apply Hall. lia.
      * destruct IH as (-> & i & Hi & Hfalse & Hbefore). rewrite Hc, Hr in *.
        split; [done|]. exists (S i). cbn. split; [lia|].
        replace (requests (allocator self) + S i)%nat
          with (S (requests (allocator self)) + i)%nat by lia.
        split; [done|]. intros [|i'] Hi'; [by rewrite Nat.add_0_r|].
        replace (requests (allocator self) + S i')%nat
          with (S (requests (allocator self)) + i')%nat by lia.
        apply Hbefore. lia.
    + destruct Hentry as [-> Hrefused]. split; [done|].
      exists 0%nat. cbn. rewrite Nat.add_0_r. split_and!; [lia|done|intros; lia].
Qed.

(** The same over the pattern maps of the frequencies [js]. *)
Lemma finalise_frequencies_requests NDEBUG js : ∀ self,
  let entries := js ≫= λ j, default [] (frequency_map self !! j) in
  match finalise_frequencies NDEBUG self js with
  | Ok self' =>
      (∀ i, (i < length entries)%nat →
         chunk_ok (allocator self) (requests (allocator self) + i) = true) ∧
      chunk_ok (allocator self') = chunk_ok (allocator self) ∧
      requests (allocator self') = (requests (allocator self) + length entries)%nat ∧
      frequency_map self' = frequency_map self
  | Fail e =>
      e = TSI_ERR_NO_MEMORY ∧
      ∃ i, (i < length entries)%nat ∧
        chunk_ok (allocator self) (requests (allocator self) + i) = false ∧
        ∀ i', (i' < i)%nat →
          chunk_ok (allocator self) (requests (allocator self) + i') = true
  | Undef => True
  end.
Proof.
  induction js as [|j js IH]; intros self; cbv zeta; cbn [finalise_frequencies].
  - cbn. split_and!; first [done | intros; lia].
  - cbn [mbind list_bind]. rewrite length_app.
    destruct (frequency_map self !! j) as [tree|] eqn:Htree; [|done].
    cbn [defined mbind outcome_bind default from_option id].
    pose proof (finalise_entries_requests NDEBUG j tree self) as Htree'.
    destruct (finalise_entries NDEBUG self j tree) as [self1|e|];
      cbn [mbind outcome_bind]; [| |done].
    + destruct Htree' as (Hserved & Hc & Hr & Hfm). specialize (IH self1).
      cbv zeta in IH. rewrite Hfm in IH.
      destruct (finalise_frequencies NDEBUG self1 js) as [self'|e|]; [| |done].
      * destruct IH as (Hall & Hc' & Hr' & Hfm'). rewrite Hc, Hr in *.
        split_and!; [|done|lia|congruence].
        intros i Hi. destruct (decide (i < length tree)%nat); [by apply Hserved|].
        replace (requests (allocator self) + i)%nat
          with (requests (allocator self) + length tree + (i - length tree))%nat
          by lia.
        apply Hall. lia.
      * destruct IH as (-> & i & Hi & Hfalse & Hbefore). rewrite Hc, Hr in *.
        split; [done|]. exists (length tree + i)%nat. split; [lia|].
        rewrite Nat.add_assoc. split; [done|].
        intros i' Hi'. destruct (decide (i' < length tree)%nat);
          [by apply Hserved|].
        replace (requests (allocator self) + i')%nat
          with (requests (allocator self) + length tree + (i' - length tree))%nat
          by lia.
        apply Hbefore. lia.
    + destruct Htree' as (-> & i & Hi & Hfalse & Hbefore). split; [done|].
      exists i. split_and!; [lia|done..].
Qed.

(** ** The shape of an ancestor *)

(** The ancestor of a focal site of frequency two or more begins and
    ends at the focal site or at an older site, and holds 0 at every
    site in between that is not older than the focal site. *)
Lemma make_ancestor_shape NDEBUG self focal ancestor sf :
  genotypes_ok self → sites self !! focal = Some sf → (2 ≤ frequency sf)%nat →
  length ancestor = num_sites self →
  (NDEBUG = true ∨
   ∃ g, site_genotypes self focal = Ok g ∧
        derived_count (num_samples self) g = frequency sf) →
  ∃ start end_ a,
    ancestor_builder_make_ancestor NDEBUG self [focal] ancestor true true true
    = Ok (start, end_, a) ∧
    (start ≤ focal < end_)%nat ∧ (end_ ≤ num_sites self)%nat ∧
    length a = num_sites self ∧ a !! focal = Some 1 ∧
    (start = focal ∨ (frequency sf < site_frequency self start)%nat) ∧
    (end_ = (focal + 1)%nat ∨
     (frequency sf < site_frequency self (end_ - 1))%nat) ∧
    (∀ i, (i < num_sites self)%nat → ¬ (start ≤ i < end_)%nat →
       a !! i = Some UNKNOWN) ∧
    ∀ i, (start ≤ i < end_)%nat → i ≠ focal →
      (site_frequency self i ≤ frequency sf)%nat → a !! i = Some 0.
Proof.
  intros Hok Hsf Hf Hlen Hassert.
  pose proof Hok as [Hsites _].
  apply lookup_lt_Some in Hsf as Hfocal. rewrite Hsites in Hfocal.
  set (N := num_sites self) in *. set (f := frequency sf) in *.
  (* the genotypes of the focal site and of the older sites *)
  destruct (site_genotypes_ok self focal sf Hok Hsf Hf) as (gf & Hgf & Hgflen).
  destruct (get_consistent_samples_spec self focal gf Hgf Hgflen)
    as (samples & Hsamples & Hvalid & Hcount).
  assert (assert NDEBUG (length samples =? f)%nat = Ok ()) as Hassert'.
  { unfold assert. destruct Hassert as [->|(g & Hg & Hg')]; [done|].
    rewrite Hgf in Hg. injection Hg as <-. rewrite Hcount, Hg', Nat.eqb_refl.
    by rewrite orb_true_r. }
  assert (∀ l, (l < N)%nat → (f < site_frequency self l)%nat →
            ∃ g, site_genotypes self l = Ok g ∧ length g = num_samples self)
    as Holder.
  { intros l Hl Hfl. destruct (lookup_lt_is_Some_2 (sites self) l) as [s Hs];
      [by rewrite Hsites|].
    rewrite (site_frequency_lookup _ _ _ Hs) in Hfl.
    apply (site_genotypes_ok self l s Hok Hs). lia. }
  (* the ancestor before the passes *)
  set (a1 := <[focal := 1]> (replicate N (allele_of_byte 255))).
  assert (length a1 = N) as Hlen1
    by (unfold a1; by rewrite length_insert, length_replicate).
  (* the pass to the right *)
  set (LR := seq (focal + 1) (N - (focal + 1))).
  set (olderR := filter (λ l, (f < site_frequency self l)%nat) LR).
  assert (∀ x, x ∈ LR ↔ (focal < x < N)%nat) as HLR
    by (intros x; unfold LR; rewrite list_elem_of_In, in_seq; lia).
  destruct (compute_older_sites_spec self (num_samples self) focal a1 olderR samples)
    as (a2 & kR & HcomputeR & Hlen2 & HoutR & HinR); [|done|done|].
  { intros l [Hfl Hl%HLR]%elem_of_older_sites. split; [lia|]. apply Holder; lia. }
  set (lastR := default focal (last (take kR olderR))) in *.
  destruct (prefix_range_lt olderR kR focal) as (HlastR & HlastR' & HmemR).
  { eapply StronglySorted_sublist; [apply sublist_filter|apply seq_sorted]. }
  { intros x [_ Hx%HLR]%elem_of_older_sites. lia. }
  fold lastR in HlastR, HlastR', HmemR.
  assert (lastR < N)%nat as HlastRN.
  { destruct HlastR' as [->|[_ Hx%HLR]%elem_of_older_sites]; lia. }
  set (FR := seq (focal + 1) (lastR - (focal + 1))).
  destruct (fill_younger_sites_spec self f FR a2) as (a3 & HfillR & Hlen3 & HsetR & HkeepR).
  { apply Forall_forall. intros x Hx. unfold FR in Hx.
    rewrite list_elem_of_In, in_seq in Hx. lia. }
  (* the pass to the left *)
  set (LL := rev (seq 0 focal)).
  set (olderL := filter (λ l, (f < site_frequency self l)%nat) LL).
  assert (∀ x, x ∈ LL ↔ (x < focal)%nat) as HLL
    by (intros x; unfold LL; rewrite list_elem_of_In, <- in_rev, in_seq; lia).
  destruct (compute_older_sites_spec self (num_samples self) focal a3 olderL samples)
    as (a4 & kL & HcomputeL & Hlen4 & HoutL & HinL); [|done|done|].
  { intros l [Hfl Hl%HLL]%elem_of_older_sites. split; [lia|]. apply Holder; lia. }
  set (lastL := default focal (last (take kL olderL))) in *.
  destruct (prefix_range_gt olderL kL focal) as (HlastL & HlastL' & HmemL).
  { eapply StronglySorted_sublist; [apply sublist_filter|apply rev_seq_sorted]. }
  { intros x [_ Hx%HLL]%elem_of_older_sites. lia. }
  fold lastL in HlastL, HlastL', HmemL.
  set (FL := seq (lastL + 1) (focal - (lastL + 1))).
  destruct (fill_younger_sites_spec self f FL a4) as (a5 & HfillL & Hlen5 & HsetL & HkeepL).
  { apply Forall_forall. intros x Hx. unfold FL in Hx.
    rewrite list_elem_of_In, in_seq in Hx. lia. }
  exists lastL, (lastR + 1)%nat, a5.
  split.
  { unfold ancestor_builder_make_ancestor. cbn [negb length Nat.eqb].
    rewrite assert_true. cbn [mbind outcome_bind lookup list_lookup defined].
    rewrite Hsf. cbn [mbind outcome_bind defined].
    unfold memset_unknown. fold N. rewrite Hlen, Nat.leb_refl.
    cbn [mbind outcome_bind].
    rewrite drop_ge, app_nil_r by lia.
    rewrite (proj2 (lookup_replicate_2 N (allele_of_byte 255) focal Hfocal))
      || rewrite lookup_replicate_2 by done.
    cbn [mbind outcome_bind defined]. fold a1 f.
    rewrite !collect_older_sites_spec
      by (apply Forall_forall; intros x Hx; rewrite Hsites;
          first [apply HLR in Hx | apply HLL in Hx]; lia).
    cbn [mbind outcome_bind]. fold LR olderR. rewrite Hsamples.
    cbn [mbind outcome_bind]. rewrite Hassert'. cbn [mbind outcome_bind].
    rewrite HcomputeR. cbn [mbind outcome_bind]. fold FR. rewrite HfillR.
    cbn [mbind outcome_bind]. fold LL olderL. rewrite HcomputeL.
    cbn [mbind outcome_bind]. fold FL. rewrite HfillL. done. }
  (* where each pass writes *)
  assert (∀ x, x ∈ take kR olderR ↔
               (focal < x ≤ lastR)%nat ∧ (f < site_frequency self x)%nat) as HtakeR.
  { intros x. rewrite HmemR. unfold olderR. rewrite elem_of_older_sites, HLR. lia. }
  assert (∀ x, x ∈ FR ↔ (focal < x < lastR)%nat) as HFR
    by (intros x; unfold FR; rewrite list_elem_of_In, in_seq; lia).
  assert (∀ x, x ∈ take kL olderL ↔
               (lastL ≤ x < focal)%nat ∧ (f < site_frequency self x)%nat) as HtakeL.
  { intros x. rewrite HmemL. unfold olderL. rewrite elem_of_older_sites, HLL. lia. }
  assert (∀ x, x ∈ FL ↔ (lastL < x < focal)%nat) as HFL
    by (intros x; unfold FL; rewrite list_elem_of_In, in_seq; lia).
  assert (lastR = focal ∨ (f < site_frequency self lastR)%nat) as HfR.
  { destruct HlastR' as [?|[? _]%elem_of_older_sites]; auto. }
  assert (lastL = focal ∨ (f < site_frequency self lastL)%nat) as HfL.
  { destruct HlastL' as [?|[? _]%elem_of_older_sites]; auto. }
  assert (a1 !! focal = Some 1) as Ha1f
    by (unfold a1; apply list_lookup_insert_eq; by rewrite length_replicate).
  assert (∀ i, (i < N)%nat → i ≠ focal → a1 !! i = Some UNKNOWN) as Ha1.
  { intros i Hi Hne. unfold a1. rewrite list_lookup_insert_ne by done.
    by apply lookup_replicate_2. }
  (* the final ancestor, site by site *)
  assert (∀ i, (i < N)%nat →
            ((lastL ≤ i < lastR + 1)%nat → i ≠ focal →
             (site_frequency self i ≤ f)%nat → a5 !! i = Some 0) ∧
            (¬ (lastL ≤ i < lastR + 1)%nat → a5 !! i = Some UNKNOWN) ∧
            (i = focal → a5 !! i = Some 1)) as Hfinal.
  { intros i Hi.
    destruct (decide (i ∈ FL ∧ (site_frequency self i ≤ f)%nat)) as [[HiFL Hfi]|HnFL].
    { rewrite (HsetL i HiFL Hfi). apply HFL in HiFL. split_and!; [done|lia|lia]. }
    rewrite (HkeepL i HnFL). rewrite HFL in HnFL.
    destruct (decide (i ∈ take kL olderL)) as [HiL|HnL].
    { apply HtakeL in HiL. split_and!; lia. }
    rewrite (HoutL i HnL). rewrite HtakeL in HnL.
    destruct (decide (i ∈ FR ∧ (site_frequency self i ≤ f)%nat)) as [[HiFR Hfi]|HnFR].
    { rewrite (HsetR i HiFR Hfi). apply HFR in HiFR. split_and!; [done|lia|lia]. }
    rewrite (HkeepR i HnFR). rewrite HFR in HnFR.
    destruct (decide (i ∈ take kR olderR)) as [HiR|HnR].
    { apply HtakeR in HiR. split_and!; lia. }
    rewrite (HoutR i HnR). rewrite HtakeR in HnR.
    destruct (decide (i = focal)) as [->|Hne].
    { rewrite Ha1f. split_and!; [done|lia|done]. }
    rewrite (Ha1 i Hi Hne). split_and!; [|done|done].
    intros Hrange _ Hfi. exfalso.
    destruct (decide (i = lastR)) as [->|HneR];
      [destruct HfR as [?|?]; [done|]; lia|].
    destruct (decide (i = lastL)) as [->|HneL];
      [destruct HfL as [?|?]; [done|]; lia|].
    lia. }
  split_and!; [done|lia|lia|congruence|by apply Hfinal| | | |].
  - destruct HfL; auto.
  - destruct HfR as [->|HfR]; [by left|right].
    by replace (lastR + 1 - 1)%nat with lastR by lia.
  - intros i Hi. by apply Hfinal.
  - intros i Hi Hne Hfi. apply (Hfinal i); [lia|done..].
Qed.

(** *** Focal sites of a run *)


Lemma run_focal_ready NDEBUG ns nsites flags calloc_ok arena_ok oracle calls
    self0 self c :
  ancestor_builder_alloc NDEBUG ns nsites flags calloc_ok arena_ok oracle = Ok self0 →
  add_sites NDEBUG self0 calls = Ok self →
  NoDup (call_site <$> calls) →
  c ∈ calls → (2 ≤ call_frequency c)%nat →
  (NDEBUG = true ∨
   Forall (λ c, (2 ≤ call_frequency c)%nat → call_counted ns c) calls) →
  genotypes_ok self ∧ num_sites self = nsites ∧
  ∃ sf, sites self !! call_site c = Some sf ∧ frequency sf = call_frequency c ∧
    (NDEBUG = true ∨
     ∃ g, site_genotypes self (call_site c) = Ok g ∧
          derived_count (num_samples self) g = frequency sf).
Proof.
  intros Halloc Hrun Hnd Hc Hf Hcount.
  destruct (genotypes_ok_run _ _ _ _ _ _ _ _ _ _ Halloc Hrun)
    as (Hok & HN & Hns & _).
  split_and!; [done..|].
  pose proof (dedup_inv_add_sites _ _ _ _
                (dedup_inv_alloc _ _ _ _ _ _ _ _ Halloc) Hrun) as Hinv.
  apply list_elem_of_lookup in Hc as [k Hk].
  destruct (dedup_site _ _ Hinv k c Hk Hf (NoDup_last_call _ _ _ Hnd Hk))
    as (p & buf & Hs & Hp & Hbuf & _).
  eexists. split_and!; [exact Hs|done|].
  destruct Hcount as [?|Hcount]; [by left|right].
  destruct (dedup_canonical _ _ Hinv _ _ Hp)
    as (k0 & c0 & Hk0 & Hf0 & Hbuf0 & _ & _).
  rewrite Hbuf in Hbuf0. injection Hbuf0 as ->.
  eexists. split.
  - unfold site_genotypes, load_genotypes. rewrite Hs. cbn. by rewrite Hbuf.
  - cbn. rewrite derived_count_take, Hns, <- Hf0. symmetry.
    rewrite Forall_forall in Hcount. apply Hcount.
    + by eapply list_elem_of_lookup_2.
    + lia.
Qed.

(** ** Edge cases of [make_ancestor] *)

(** A site keeps its NULL genotypes pointer until a call with a
    frequency of two or more names it. *)
Lemma genotypes_null_run NDEBUG self0 calls self l :
  (∀ s, sites self0 !! l = Some s → genotypes s = None) →
  add_sites NDEBUG self0 calls = Ok self →
  Forall (λ c, call_site c = l → (call_frequency c ≤ 1)%nat) calls →
  ∀ s, sites self !! l = Some s → genotypes s = None.
Proof.
  intros Hnull. revert calls self.
  apply (add_sites_ind NDEBUG (λ self done,
           Forall (λ c, call_site c = l → (call_frequency c ≤ 1)%nat) done →
           ∀ s, sites self !! l = Some s → genotypes s = None)).
  - intros _. exact Hnull.
  - intros self done c self' _ IH _ (_ & _ & _ & _ & _ & old & Hold & Heff)
      [Hdone [Hc _]%Forall_cons_1]%Forall_app s Hs.
    specialize (IH Hdone). apply lookup_lt_Some in Hold as Hlt.
    destruct (decide (call_site c = l)) as [Hl|Hne].
    + specialize (Hc Hl).
      replace (1 <? call_frequency c)%nat with false in Heff
        by (symmetry; apply Nat.ltb_ge; lia).
      destruct Heff as (_ & Hsites & _). rewrite Hsites, Hl in Hs.
      rewrite Hl in Hold, Hlt.
      rewrite list_lookup_insert_eq in Hs by done. injection Hs as <-. cbn. eauto.
    + assert (sites self' !! l = sites self !! l) as Heq.
      { destruct (1 <? call_frequency c)%nat.
        - destruct Heff as (? & ? & ? & _ & _ & -> & _).
          by apply list_lookup_insert_ne.
        - destruct Heff as (_ & -> & _). by apply list_lookup_insert_ne. }
      rewrite Heq in Hs. eauto.
Qed.

Lemma memset_unknown_exact ancestor n :
  length ancestor = n → memset_unknown ancestor n = Ok (replicate n UNKNOWN).
Proof.
  intros <-. unfold memset_unknown. rewrite Nat.leb_refl, drop_all.
  by rewrite app_nil_r.
Qed.

(** *** The samples that carry the derived allele *)

Lemma consistent_samples_loop_filter g : ∀ count j,
  (j + count ≤ length g)%nat →
  consistent_samples_loop g j count
  = Ok (Z.of_nat <$> filter (λ k, g !! k = Some 1) (seq j count)).
Proof.
  induction count as [|count IH]; intros j Hlen; cbn [consistent_samples_loop seq];
    [done|].
  destruct (lookup_lt_is_Some_2 g j) as [a Ha]; [lia|].
  rewrite Ha. cbn [defined mbind outcome_bind]. rewrite IH by lia.
  cbn [mbind outcome_bind]. rewrite filter_cons, Ha.
  destruct (Z.eqb_spec a 1) as [->|Hne].
  - by rewrite decide_True.
  - rewrite decide_False; [done|]. congruence.
Qed.

(** ** The order of the pattern maps *)

Lemma memcmp_antisym n : ∀ a b c,
  memcmp a b n = Ok c → memcmp b a n = Ok (- c).
Proof.
  induction n as [|n IH]; intros a b c; cbn [memcmp].
  - by intros [= <-].
  - destruct a as [|x a]; [done|]. destruct b as [|y b]; [done|].
    rewrite (Z.eqb_sym (byte_of_allele y)).
    destruct (byte_of_allele x =? byte_of_allele y); [apply IH|].
    intros [= <-]. f_equal. lia.
Qed.

Lemma memcmp_trans n : ∀ a b d c1 c2,
  memcmp a b n = Ok c1 → memcmp b d n = Ok c2 → c1 ≤ 0 → c2 ≤ 0 →
  ∃ c3, memcmp a d n = Ok c3 ∧ c3 ≤ 0 ∧ (c1 < 0 ∨ c2 < 0 → c3 < 0).
Proof.
  induction n as [|n IH]; intros a b d c1 c2; cbn [memcmp].
  - intros [= <-] [= <-] _ _. exists 0. split_and!; [done|lia|lia].
  - destruct a as [|x a]; [done|]. destruct b as [|y b]; [done|].
    destruct d as [|z d]; [done|].
    destruct (Z.eqb_spec (byte_of_allele x) (byte_of_allele y)) as [Hxy|Hxy];
      destruct (Z.eqb_spec (byte_of_allele y) (byte_of_allele z)) as [Hyz|Hyz].
    + rewrite Hxy, Hyz, Z.eqb_refl. apply IH.
    + intros H1 [= <-] _ H2. rewrite Hxy.
      destruct (Z.eqb_spec (byte_of_allele y) (byte_of_allele z)); [done|].
      eexists. split_and!; [done|lia|lia].
    + intros [= <-] H2 H1 _. rewrite <- Hyz.
      destruct (Z.eqb_spec (byte_of_allele x) (byte_of_allele y)); [done|].
      eexists. split_and!; [done|lia|lia].
    + intros [= <-] [= <-] H1 H2.
      destruct (Z.eqb_spec (byte_of_allele x) (byte_of_allele z)); [lia|].
      eexists. split_and!; [done|lia|lia].
Qed.

(** ** The pattern maps stay sorted *)

Lemma avl_insert_node_ext self1 self2 tree node :
  genotype_bufs (allocator self1) = genotype_bufs (allocator self2) →
  avl_insert_node self1 tree node = avl_insert_node self2 tree node.
Proof.
  intros Hb. induction tree as [|item rest IH]; cbn [avl_insert_node]; [done|].
  unfold load_genotypes. by rewrite Hb, IH.
Qed.

Lemma buffer_lt_trans self p1 p2 p3 :
  buffer_lt self p1 p2 → buffer_lt self p2 p3 → buffer_lt self p1 p3.
Proof.
  intros (b1 & b2 & c1 & H1 & H2 & Hc1 & Hlt1) (b2' & b3 & c2 & H2' & H3 & Hc2 & Hlt2).
  rewrite H2 in H2'. injection H2' as <-.
  unfold cmp_pattern_map in *. rewrite Nat.mul_1_r in *.
  destruct (memcmp_trans _ _ _ _ _ _ Hc1 Hc2) as (c3 & Hc3 & _ & Hlt3); [lia..|].
  exists b1, b3, c3. unfold cmp_pattern_map. rewrite Nat.mul_1_r.
  split_and!; [done..|]. apply Hlt3. lia.
Qed.

(** The insertion keeps the keys of the tree in ascending order. *)
Lemma avl_insert_node_sorted self node : ∀ tree i tree',
  pm_num_samples node = num_samples self →
  avl_insert_node self tree node = Ok (Some (i, tree')) →
  StronglySorted (buffer_lt self) (pm_genotypes <$> tree) →
  StronglySorted (buffer_lt self) (pm_genotypes <$> tree').
Proof.
  intros tree i tree' Hns. revert i tree'.
  induction tree as [|item rest IH]; intros i tree' H Hsorted.
  - cbn in H. injection H as <- <-. cbn. repeat constructor.
  - cbn [avl_insert_node] in H.
    bind_inv H as gn Hgn. bind_inv H as gi Hgi. bind_inv H as c Hc.
    unfold load_genotypes in Hgn, Hgi. apply defined_Ok in Hgn, Hgi.
    rewrite Hns in Hc.
    destruct (Z.eqb_spec c 0) as [->|Hne]; [done|].
    cbn [fmap list_fmap] in Hsorted. apply StronglySorted_inv in Hsorted as [Hrest Hall].
    destruct (Z.ltb_spec c 0) as [Hlt|Hge].
    + injection H as <- <-. cbn [fmap list_fmap].
      assert (buffer_lt self (pm_genotypes node) (pm_genotypes item)) as Hni
        by (by exists gn, gi, c).
      constructor; [by constructor|]. constructor; [done|].
      eapply Forall_impl; [exact Hall|]. intros q Hq. by eapply buffer_lt_trans.
    + bind_inv H as r Hr. destruct r as [[i0 t0]|]; [|done].
      cbn in H. injection H as <- <-. cbn [fmap list_fmap].
      constructor; [by eapply IH|].
      apply avl_insert_node_Some in Hr as [_ ->].
      rewrite fmap_app, fmap_cons.
      rewrite <- (take_drop i0 rest), fmap_app in Hall.
      apply Forall_app in Hall as [Hl Hr]. apply Forall_app. split; [done|].
      constructor; [|done].
      unfold cmp_pattern_map in Hc. rewrite Nat.mul_1_r in Hc.
      exists gi, gn, (- c). unfold cmp_pattern_map. rewrite Nat.mul_1_r.
      split_and!; [done|done|by apply memcmp_antisym|lia].
Qed.

Lemma buffer_lt_grow self self' p1 p2 :
  num_samples self' = num_samples self →
  genotype_bufs (allocator self) `prefix_of` genotype_bufs (allocator self') →
  buffer_lt self p1 p2 → buffer_lt self' p1 p2.
Proof.
  intros Hns [extra Hb] (b1 & b2 & c & H1 & H2 & Hc & Hlt).
  exists b1, b2, c. rewrite Hns, Hb. split_and!; [| |done..];
    by apply lookup_app_l_Some.
Qed.

Lemma pattern_buffers_update (tree : avl_tree_t) i m m' :
  tree !! i = Some m → pm_genotypes m' = pm_genotypes m →
  pm_genotypes <$> <[i := m']> tree = pm_genotypes <$> tree.
Proof.
  intros Hi Hp. rewrite list_fmap_insert, Hp. apply list_insert_id.
  by rewrite list_lookup_fmap, Hi.
Qed.

(** Where [add_site] links a new entry. *)
Lemma add_site_insertion NDEBUG self l f g self' tree :
  ancestor_builder_add_site NDEBUG self l f g = Ok self' →
  (1 < f)%nat → frequency_map self !! f = Some tree →
  avl_search self tree g (num_samples self) = Ok None →
  ∃ i0 tree0,
    avl_insert_node self' tree
      (mk_pattern_map (length (genotype_bufs (allocator self))) (num_samples self)
         [] O)
    = Ok (Some (i0, tree0)) ∧
    pattern_buffers self' f = pm_genotypes <$> tree0.
Proof.
  intros H Hf Htree Hnone. unfold ancestor_builder_add_site in H.
  bind_inv H as u1 Ha1. bind_inv H as u2 Ha2. clear Ha1 Ha2 u1 u2.
  bind_inv H as self0 Hs0. apply set_site_Ok in Hs0 as (old & Hold & ->).
  replace (1 <? f)%nat with true in H by (symmetry; by apply Nat.ltb_lt).
  bind_inv H as tree' Htree'. inv_Ok. cbn in Htree'.
  rewrite Htree in Htree'. injection Htree' as <-.
  bind_inv H as found Hsearch.
  rewrite (avl_search_ext _ self) in Hsearch by done. cbn in Hsearch.
  rewrite Hnone in Hsearch. injection Hsearch as <-.
  bind_inv H as si Hsi. destruct si as [self1 i].
  bind_inv H as self2 Hs2.
  apply update_map_elem_Ok in Hs2 as (tree1 & m1 & Hfm1 & Hi1 & ->).
  cbn in H.
  destruct (chunk_ok (allocator self1) (requests (allocator self1))); [|done].
  cbn in H. apply update_map_elem_Ok in H as (tree2 & m2 & Hfm2 & Hi2 & ->).
  cbn in Hsi.
  destruct (chunk_ok (allocator self) (requests (allocator self))); [|done].
  destruct (chunk_ok (allocator self) (S (requests (allocator self)))); [|done].
  destruct (chunk_ok (allocator self) (S (S (requests (allocator self)))));
    [|done].
  cbn in Hsi. bind_inv Hsi as u Hu. clear Hu u.
  cbn in Hsi. bind_inv Hsi as self3 Hs3.
  apply set_site_Ok in Hs3 as (old' & Hold' & ->).
  bind_inv Hsi as r Hins.
  destruct r as [[i' tree0]|]; [|done]. inv_Ok.
  apply lookup_lt_Some in Htree as Hlt.
  cbn in Hfm1, Hfm2, Hins |- *.
  rewrite list_lookup_insert_eq in Hfm1 by done. injection Hfm1 as <-.
  rewrite list_lookup_insert_eq in Hfm2 by (by rewrite length_insert).
  injection Hfm2 as <-.
  apply lookup_lt_Some in Hi1 as Hlti.
  rewrite list_lookup_insert_eq in Hi2 by done. injection Hi2 as <-.
  exists i, tree0. split.
  - erewrite avl_insert_node_ext; [exact Hins|done].
  - unfold pattern_buffers. cbn.
    rewrite list_lookup_insert_eq by (by rewrite !length_insert). cbn.
    rewrite list_insert_insert_eq.
    by rewrite (pattern_buffers_update _ _ m1).
Qed.

Lemma StronglySorted_mono {A : Type} (R R' : relation A) (l : list A) :
  (∀ x y, R x y → R' x y) → StronglySorted R l → StronglySorted R' l.
Proof.
  intros Himpl. induction 1 as [|x l _ IH Hall]; constructor; [done|].
  eapply Forall_impl; [exact Hall|]. auto.
Qed.

Lemma add_site_sorted NDEBUG self l f g self' :
  ancestor_builder_add_site NDEBUG self l f g = Ok self' →
  maps_sorted self → maps_sorted self'.
Proof.
  intros Hadd Hsorted f'.
  pose proof (add_site_spec _ _ _ _ _ _ Hadd) as Heff.
  pose proof (add_site_requests _ _ _ _ _ _ Hadd) as [_ Hreq].
  pose proof (add_site_effect_buffers _ _ _ _ _ Heff) as [Hns Hbufs].
  assert (genotype_bufs (allocator self) `prefix_of`
          genotype_bufs (allocator self')) as Hprefix.
  { destruct (1 <? f)%nat.
    - destruct Hbufs as (p & _ & _ & _ & [(-> & _)|(-> & _)]); [done|].
      by apply prefix_app_r.
    - by destruct Hbufs as (_ & _ & ->). }
  assert (∀ l0, StronglySorted (buffer_lt self) l0 →
                StronglySorted (buffer_lt self') l0) as Hgrow.
  { intros l0. apply StronglySorted_mono. intros x y.
    by apply buffer_lt_grow. }
  destruct (1 <? f)%nat eqn:Hf.
  2:{ destruct Hbufs as (_ & -> & _). auto. }
  apply Nat.ltb_lt in Hf.
  destruct Hbufs as (p & _ & _ & Hother & _).
  destruct (decide (f' = f)) as [->|Hne]; [|rewrite Hother by done; auto].
  destruct Hreq as (tree & r & Htree & Hsearch & _).
  destruct Heff as (_ & _ & _ & _ & _ & old & _ & Heff).
  replace (1 <? f)%nat with true in Heff by (symmetry; by apply Nat.ltb_lt).
  destruct Heff as (t & t' & p' & Ht & Hfm & _ & Hstep).
  rewrite Htree in Ht. injection Ht as <-.
  apply lookup_lt_Some in Htree as Hlt.
  destruct r as [i|].
  - (* the entry exists: the keys of the map are as before *)
    destruct Hstep as [[(i0 & m & buf & Hi0 & _ & _ & _ & ->) _]|[(Hall & _) _]].
    + destruct (pattern_buffers_insert self self' f _ Hfm Hlt) as [-> _].
      rewrite (pattern_buffers_update _ _ m) by done.
      specialize (Hsorted f). unfold pattern_buffers in Hsorted.
      rewrite Htree in Hsorted. auto.
    + apply avl_search_Some in Hsearch as (m & buf & Hm & Hbuf & Hc).
      destruct (Hall _ _ Hm) as (buf' & c & Hbuf' & Hc' & Hne). congruence.
  - destruct (add_site_insertion _ _ _ _ _ _ _ Hadd Hf Htree Hsearch)
      as (i0 & tree0 & Hins & ->).
    eapply avl_insert_node_sorted; [|exact Hins|].
    + by cbn.
    + apply Hgrow. specialize (Hsorted f). unfold pattern_buffers in Hsorted.
      by rewrite Htree in Hsorted.
Qed.

Lemma maps_sorted_add_sites NDEBUG self0 calls self :
  maps_sorted self0 → add_sites NDEBUG self0 calls = Ok self → maps_sorted self.
Proof.
  intros H0. revert calls self.
  apply (add_sites_ind NDEBUG (λ self _, maps_sorted self)); [done|].
  intros self done c self' _ IH Hadd _. by eapply add_site_sorted.
Qed.

Lemma maps_sorted_alloc NDEBUG ns nsites flags calloc_ok arena_ok oracle self0 :
  ancestor_builder_alloc NDEBUG ns nsites flags calloc_ok arena_ok oracle = Ok self0 →
  maps_sorted self0.
Proof.
  intros ->%alloc_Ok f. unfold pattern_buffers. cbn.
  destruct (replicate (ns + 1) [] !! f) as [t|] eqn:Ht; cbn; [|constructor].
  apply lookup_replicate in Ht as [-> _]. constructor.
Qed.

(** *** The order of emission *)

Lemma memcmp_refl n : ∀ a, (n ≤ length a)%nat → memcmp a a n = Ok 0.
Proof.
  induction n as [|n IH]; intros a Ha; cbn [memcmp]; [done|].
  destruct a as [|x a]; [cbn in Ha; lia|]. rewrite Z.eqb_refl. apply IH.
  cbn in Ha. lia.
Qed.

Lemma StronglySorted_mono_in {A : Type} (R R' : relation A) (l : list A) :
  (∀ x y, x ∈ l → y ∈ l → R x y → R' x y) →
  StronglySorted R l → StronglySorted R' l.
Proof.
  intros Himpl Hs. induction Hs as [|x l _ IH Hall]; constructor.
  - apply IH. intros y z Hy Hz. apply Himpl; by right.
  - apply Forall_forall. intros y Hy. rewrite Forall_forall in Hall.
    apply Himpl; [left|by right|auto].
Qed.

Lemma StronglySorted_unfmap {A B : Type} (f : A → B) (R : relation B) (l : list A) :
  StronglySorted R (f <$> l) → StronglySorted (λ x y, R (f x) (f y)) l.
Proof.
  induction l as [|x l IH]; cbn [fmap list_fmap]; intros H; [constructor|].
  apply StronglySorted_inv in H as [Hl Hall]. constructor; [auto|].
  rewrite Forall_fmap in Hall. exact Hall.
Qed.

Lemma StronglySorted_all {A : Type} (R : relation A) (l : list A) :
  (∀ x y, x ∈ l → y ∈ l → R x y) → StronglySorted R l.
Proof.
  induction l as [|x l IH]; intros H; constructor.
  - apply IH. intros y z Hy Hz. apply H; by right.
  - apply Forall_forall. intros y Hy. apply H; [left|by right].
Qed.

Lemma StronglySorted_bind {A B : Type} (R : relation B) (f : A → list B)
    (l : list A) :
  (∀ a, a ∈ l → StronglySorted R (f a)) →
  StronglySorted (λ a a', ∀ b b', b ∈ f a → b' ∈ f a' → R b b') l →
  StronglySorted R (l ≫= f).
Proof.
  intros Hin Hs. induction Hs as [|a l _ IH Hall]; [constructor|].
  rewrite bind_cons. apply StronglySorted_app_2.
  - intros b b' Hb Hb'. apply list_elem_of_bind in Hb' as (a' & Hb' & Ha').
    rewrite Forall_forall in Hall. by apply (Hall a' Ha').
  - apply Hin. left.
  - apply IH. intros a' Ha'. apply Hin. by right.
Qed.

(** After a run in which no site is added twice, the pairs that
    finalisation emits are in emission order. *)
Lemma emission_sorted NDEBUG ns nsites flags calloc_ok arena_ok oracle calls
    self0 self :
  ancestor_builder_alloc NDEBUG ns nsites flags calloc_ok arena_ok oracle = Ok self0 →
  add_sites NDEBUG self0 calls = Ok self →
  NoDup (call_site <$> calls) →
  StronglySorted (emission_order self)
    (map_emission (frequency_map self) (visited_frequencies self)).
Proof.
  intros Halloc Hrun Hnd.
  pose proof (dedup_inv_add_sites _ _ _ _
                (dedup_inv_alloc _ _ _ _ _ _ _ _ Halloc) Hrun) as Hdedup.
  pose proof (listing_inv_add_sites _ _ _ _
                (alloc_maps_empty _ _ _ _ _ _ _ _ Halloc) Hrun Hnd) as Hlist.
  pose proof (maps_sorted_add_sites _ _ _ _
                (maps_sorted_alloc _ _ _ _ _ _ _ _ Halloc) Hrun) as Hsorted.
  (* the genotypes of a listed site are the buffer of its entry *)
  assert (∀ j tree m s, frequency_map self !! j = Some tree → m ∈ tree →
            s ∈ rev (pm_sites m) →
            ∃ buf, genotype_bufs (allocator self) !! pm_genotypes m = Some buf ∧
                   length buf = num_samples self ∧
                   site_genotypes self s = Ok buf) as Hsite.
  { intros j tree m s Htree Hm Hs.
    rewrite list_elem_of_In, <- in_rev, <- list_elem_of_In in Hs.
    destruct (Hlist _ _ _ Htree Hm) as (_ & _ & Hl). destruct (Hl s Hs) as [_ Hss].
    destruct (dedup_buffer_length self calls j (pm_genotypes m) Hdedup)
      as (buf & Hbuf & Hlen).
    { unfold pattern_buffers. rewrite Htree. by apply list_elem_of_fmap_2. }
    exists buf. split_and!; [done..|].
    unfold site_genotypes, load_genotypes. rewrite Hss. cbn. by rewrite Hbuf. }
  unfold map_emission. apply StronglySorted_bind.
  - intros j Hj. destruct (frequency_map self !! j) as [tree|] eqn:Htree;
      [|constructor].
    cbn [default from_option id]. unfold tree_emission. apply StronglySorted_bind.
    + intros m Hm. apply StronglySorted_all. unfold entry_emission.
      intros x y (s & -> & Hs)%list_elem_of_fmap (s' & -> & Hs')%list_elem_of_fmap.
      right. split; [done|]. cbn.
      destruct (Hsite _ _ _ _ Htree Hm Hs) as (buf & Hbuf & Hlen & Hg).
      destruct (Hsite _ _ _ _ Htree Hm Hs') as (buf' & Hbuf' & _ & Hg').
      rewrite Hbuf in Hbuf'. injection Hbuf' as <-.
      exists buf, buf, 0. split_and!; [done..| |lia].
      unfold cmp_pattern_map. rewrite Nat.mul_1_r. apply memcmp_refl. lia.
    + specialize (Hsorted j). unfold pattern_buffers in Hsorted.
      rewrite Htree in Hsorted. cbn in Hsorted.
      apply StronglySorted_unfmap in Hsorted.
      eapply StronglySorted_mono_in; [|exact Hsorted].
      intros m m' Hm Hm' (b1 & b2 & c & Hb1 & Hb2 & Hc & Hlt) x y.
      unfold entry_emission.
      intros (s & -> & Hs)%list_elem_of_fmap (s' & -> & Hs')%list_elem_of_fmap.
      right. split; [done|]. cbn.
      destruct (Hsite _ _ _ _ Htree Hm Hs) as (buf & Hbuf & _ & Hg).
      destruct (Hsite _ _ _ _ Htree Hm' Hs') as (buf' & Hbuf' & _ & Hg').
      rewrite Hb1 in Hbuf. injection Hbuf as <-.
      rewrite Hb2 in Hbuf'. injection Hbuf' as <-.
      exists b1, b2, c. split_and!; [done..|lia].
  - eapply StronglySorted_mono; [|apply visited_frequencies_sorted].
    intros j j' Hlt x y Hx Hy. left.
    assert (∀ k z, z ∈ tree_emission k (default [] (frequency_map self !! k)) →
              z.1 = k) as Hfst.
    { intros k z. unfold tree_emission, entry_emission.
      intros (m & (s & -> & _)%list_elem_of_fmap & _)%list_elem_of_bind. done. }
    rewrite (Hfst _ _ Hx), (Hfst _ _ Hy). done.
Qed.

(** * Further properties of the code *)

(** ** [ancestor_builder_check_state] *)

(** X1. After allocation and a sequence of successful [add_site] calls
    in which no site is added twice and every frequency of two or more
    is the number of ones among the [num_samples] genotypes supplied,
    every assertion of [ancestor_builder_check_state] holds and every
    read it makes is in bounds: the check returns. *)
Theorem check_state_accepts_run NDEBUG ns nsites flags calloc_ok arena_ok oracle
    calls self0 self :
  ancestor_builder_alloc NDEBUG ns nsites flags calloc_ok arena_ok oracle = Ok self0 →
  add_sites NDEBUG self0 calls = Ok self →
  NoDup (call_site <$> calls) →
  Forall (λ c, (2 ≤ call_frequency c)%nat → call_counted ns c) calls →
  ancestor_builder_check_state NDEBUG self = Ok ().
Proof.
  intros Halloc Hrun Hnd Hcount.
  assert (state_consistent self) as Hstate.
  { eapply state_consistent_run; eauto. rewrite Forall_forall in Hcount. auto. }
  pose proof (builder_inv_add_sites _ _ _ _ (builder_inv_alloc _ _ _ _ _ _ _ _ Halloc)
                Hrun) as (Hlen & _ & _).
  unfold ancestor_builder_check_state. apply check_frequencies_complete.
  apply Forall_forall. intros f Hf. apply elem_of_seq in Hf.
  destruct (lookup_lt_is_Some_2 (frequency_map self) f) as [tree Htree]; [lia|].
  exists tree. split; [done|]. apply Forall_forall. intros m Hm.
  apply (Hstate f tree m); [lia|done..].
Qed.

Lemma check_state_accepts_run_witness :
  ancestor_builder_check_state false dedup_filled = Ok ().
Proof.
  apply (check_state_accepts_run false 4 3 0 true true (λ _, true) dedup_calls
           dedup_allocated dedup_filled).
  - reflexivity.
  - reflexivity.
  - apply (bool_decide_unpack _). vm_compute. exact I.
  - repeat (constructor; [intros _; reflexivity|]). constructor.
Defined.

(** X2. In a build with assertions and for at least one sample,
    [ancestor_builder_check_state] returns exactly when the builder has
    a pattern map for every frequency up to [num_samples] and every
    entry of these maps is consistent: its buffer holds [num_samples]
    alleles of which as many are 1 as the frequency of its map says, its
    counter is the length of its site list, and every listed site has
    that frequency and points to the buffer of the entry. *)
Theorem check_state_characterised self :
  (0 < num_samples self)%nat →
  ancestor_builder_check_state false self = Ok () ↔
  (S (num_samples self) ≤ length (frequency_map self))%nat ∧ state_consistent self.
Proof.
  intros Hns. unfold ancestor_builder_check_state. split.
  - intros H. apply check_frequencies_sound in H; [|done].
    rewrite Forall_forall in H. split.
    + destruct (H (num_samples self)) as (tree & Htree & _).
      { apply elem_of_seq. lia. }
      apply lookup_lt_Some in Htree. lia.
    + intros f tree m Hf Htree Hm.
      destruct (H f) as (tree' & Htree' & Hall); [apply elem_of_seq; lia|].
      rewrite Htree in Htree'. injection Htree' as <-.
      rewrite Forall_forall in Hall. by apply Hall.
  - intros [Hlen Hstate]. apply check_frequencies_complete.
    apply Forall_forall. intros f Hf. apply elem_of_seq in Hf.
    destruct (lookup_lt_is_Some_2 (frequency_map self) f) as [tree Htree]; [lia|].
    exists tree. split; [done|]. apply Forall_forall. intros m Hm.
    apply (Hstate f tree m); [lia|done..].
Qed.

Lemma check_state_characterised_witness :
  (S (num_samples dedup_filled) ≤ length (frequency_map dedup_filled))%nat ∧
  state_consistent dedup_filled.
Proof.
  apply (check_state_characterised dedup_filled).
  - vm_compute. lia.
  - reflexivity.
Defined.

(** ** [ancestor_builder_add_site] and the arena *)

(** X3. A successful [add_site] with a frequency of at most one leaves
    the arena and the pattern maps as they were. With a frequency of two
    or more it makes one arena request (the list node) when the pattern
    map of that frequency holds an entry with the same [num_samples]
    bytes, and four (tree node, entry, genotype buffer, list node) when
    it holds none; only then is a genotype buffer stored. *)
Theorem add_site_arena_requests NDEBUG self l f g self' :
  ancestor_builder_add_site NDEBUG self l f g = Ok self' →
  if (1 <? f)%nat then
    ∃ tree r, frequency_map self !! f = Some tree ∧
      avl_search self tree g (num_samples self) = Ok r ∧
      requests (allocator self')
      = (requests (allocator self) + if r is Some _ then 1 else 4)%nat ∧
      length (genotype_bufs (allocator self'))
      = (length (genotype_bufs (allocator self)) + if r is Some _ then 0 else 1)%nat
  else allocator self' = allocator self ∧ frequency_map self' = frequency_map self.
Proof.
  intros H. pose proof (add_site_requests _ _ _ _ _ _ H) as [_ Hreq].
  apply add_site_spec in H as (_ & _ & _ & _ & _ & old & _ & Heff).
  destruct (1 <? f)%nat.
  - destruct Hreq as (tree & r & ? & ? & ? & ? & _). by exists tree, r.
  - by destruct Heff as (? & _).
Qed.

Lemma add_site_arena_requests_witness :
  ∃ tree r, frequency_map dedup_allocated !! 2%nat = Some tree ∧
    avl_search dedup_allocated tree [1; 1; 0; 0] (num_samples dedup_allocated) = Ok r ∧
    requests (allocator dedup_first)
    = (requests (allocator dedup_allocated) + if r is Some _ then 1 else 4)%nat ∧
    length (genotype_bufs (allocator dedup_first))
    = (length (genotype_bufs (allocator dedup_allocated))
       + if r is Some _ then 0 else 1)%nat.
Proof.
  apply (add_site_arena_requests false dedup_allocated 0 2 [1; 1; 0; 0] dedup_first).
  reflexivity.
Defined.

(** X4. [add_site] returns an error code only with a frequency of two
    or more and only when the arena refuses one of the requests of the
    call: the single request when the pattern is already in the map, one
    of the four otherwise. *)
Theorem add_site_error_is_refused_request NDEBUG self l f g e :
  ancestor_builder_add_site NDEBUG self l f g = Fail e →
  (1 < f)%nat ∧
  ∃ tree r, frequency_map self !! f = Some tree ∧
    avl_search self tree g (num_samples self) = Ok r ∧
    ∃ i, (i < if r is Some _ then 1 else 4)%nat ∧
         chunk_ok (allocator self) (requests (allocator self) + i) = false.
Proof. apply add_site_Fail. Qed.

Lemma add_site_error_is_refused_request_witness :
  ancestor_builder_add_site false starved_allocated 0 2 [1; 1; 0; 0]
  = Fail TSI_ERR_NO_MEMORY ∧
  ∃ tree r, frequency_map starved_allocated !! 2%nat = Some tree ∧
    avl_search starved_allocated tree [1; 1; 0; 0] (num_samples starved_allocated)
    = Ok r ∧
    ∃ i, (i < if r is Some _ then 1 else 4)%nat ∧
         chunk_ok (allocator starved_allocated)
           (requests (allocator starved_allocated) + i) = false.
Proof.
  split; [reflexivity|].
  apply (add_site_error_is_refused_request false starved_allocated 0 2
           [1; 1; 0; 0] TSI_ERR_NO_MEMORY).
  reflexivity.
Defined.

(** X5. From a freshly allocated builder, a sequence of [add_site] calls
    returns without error or undefined behaviour when every call names
    a site below [num_sites], a frequency of at most [num_samples] and
    at least [num_samples] genotypes, and the arena serves four requests
    per call. Sites may repeat and frequencies need not match the
    genotypes. *)
Theorem add_sites_accepted_calls_succeed NDEBUG ns nsites flags calloc_ok arena_ok
    oracle self0 calls :
  ancestor_builder_alloc NDEBUG ns nsites flags calloc_ok arena_ok oracle = Ok self0 →
  Forall (call_ok ns nsites) calls →
  (∀ i, (i < 4 * length calls)%nat → oracle i = true) →
  ∃ self, add_sites NDEBUG self0 calls = Ok self.
Proof. apply add_sites_total. Qed.

Lemma add_sites_accepted_calls_succeed_witness :
  ∃ self, add_sites false dedup_allocated dedup_calls = Ok self.
Proof.
  apply (add_sites_accepted_calls_succeed false 4 3 0 true true (λ _, true)).
  - reflexivity.
  - repeat (constructor; [repeat split; cbn; lia|]). constructor.
  - reflexivity.
Defined.

(** X6. Allocation, a sequence of [add_site] calls and finalisation all
    return without error when the builder has at least two samples,
    every call names a site below [num_sites], a frequency of at most
    [num_samples] and at least [num_samples] genotypes, no site is
    added twice and every allocation succeeds; in a build with
    assertions every frequency of two or more must be the number of
    ones among the genotypes supplied. *)
Theorem wellformed_run_finalises NDEBUG ns nsites flags oracle calls :
  (1 < ns)%nat →
  Forall (call_ok ns nsites) calls →
  NoDup (call_site <$> calls) →
  (NDEBUG = true ∨
   Forall (λ c, (2 ≤ call_frequency c)%nat → call_counted ns c) calls) →
  (∀ i, oracle i = true) →
  ∃ self0 self self',
    ancestor_builder_alloc NDEBUG ns nsites flags true true oracle = Ok self0 ∧
    add_sites NDEBUG self0 calls = Ok self ∧
    ancestor_builder_finalise NDEBUG self true = Ok self'.
Proof.
  intros Hns Hok Hnd Hcount Harena.
  assert (∃ self0,
    ancestor_builder_alloc NDEBUG ns nsites flags true true oracle = Ok self0)
    as [self0 Halloc].
  { unfold ancestor_builder_alloc.
    replace (1 <? ns)%nat with true by (symmetry; by apply Nat.ltb_lt).
    rewrite assert_true. by eexists. }
  destruct (add_sites_total _ _ _ _ _ _ _ _ calls Halloc Hok) as [self Hrun];
    [auto|].
  destruct (run_finalise_total _ _ _ _ _ _ _ _ _ _ Halloc Hrun Hnd Hcount Harena)
    as [self' Hfin].
  by exists self0, self, self'.
Qed.

Lemma wellformed_run_finalises_witness :
  ∃ self0 self self',
    ancestor_builder_alloc false 4 3 0 true true (λ _, true) = Ok self0 ∧
    add_sites false self0 dedup_calls = Ok self ∧
    ancestor_builder_finalise false self true = Ok self'.
Proof.
  apply (wellformed_run_finalises false 4 3 0 (λ _, true) dedup_calls).
  - lia.
  - repeat (constructor; [repeat split; cbn; lia|]). constructor.
  - apply (bool_decide_unpack _). vm_compute. exact I.
  - right. repeat (constructor; [intros _; reflexivity|]). constructor.
  - reflexivity.
Defined.

(** X7. A successful [add_site l frequency] records the frequency at
    site [l] and touches nothing else but the pattern map of that
    frequency: every other site, every other pattern map, the
    descriptors, [num_ancestors] and the two sizes are as before. *)
Theorem add_site_changes_one_site_one_map NDEBUG self l f g self' :
  ancestor_builder_add_site NDEBUG self l f g = Ok self' →
  site_frequency self' l = f ∧ (l < length (sites self))%nat ∧
  length (sites self') = length (sites self) ∧
  (∀ l', l' ≠ l → sites self' !! l' = sites self !! l') ∧
  (∀ f', f' ≠ f → frequency_map self' !! f' = frequency_map self !! f') ∧
  descriptors self' = descriptors self ∧
  num_ancestors self' = num_ancestors self ∧
  num_samples self' = num_samples self ∧ num_sites self' = num_sites self.
Proof.
  intros H. apply add_site_spec in H.
  pose proof (add_site_effect_sites _ _ _ _ _ H) as (s' & Hsites & Hf & Hlt).
  destruct H as (Hns & HN & Hd & Hna & _ & old & Hold & Heff).
  split_and!; try done.
  - unfold site_frequency. rewrite Hsites, list_lookup_insert_eq by done. done.
  - by rewrite Hsites, length_insert.
  - intros l' Hne. rewrite Hsites. by apply list_lookup_insert_ne.
  - intros f' Hne. destruct (1 <? f)%nat.
    + destruct Heff as (? & ? & ? & _ & -> & _). by apply list_lookup_insert_ne.
    + by destruct Heff as (-> & _).
Qed.

Lemma add_site_changes_one_site_one_map_witness :
  site_frequency dedup_first 0 = 2%nat ∧ (0 < length (sites dedup_allocated))%nat ∧
  length (sites dedup_first) = length (sites dedup_allocated) ∧
  (∀ l', l' ≠ 0%nat → sites dedup_first !! l' = sites dedup_allocated !! l') ∧
  (∀ f', f' ≠ 2%nat →
     frequency_map dedup_first !! f' = frequency_map dedup_allocated !! f') ∧
  descriptors dedup_first = descriptors dedup_allocated ∧
  num_ancestors dedup_first = num_ancestors dedup_allocated ∧
  num_samples dedup_first = num_samples dedup_allocated ∧
  num_sites dedup_first = num_sites dedup_allocated.
Proof.
  apply (add_site_changes_one_site_one_map false dedup_allocated 0 2 [1; 1; 0; 0]
           dedup_first).
  reflexivity.
Defined.

(** ** [ancestor_builder_finalise] *)

(** X8. Finalising a freshly allocated builder, to which no site was
    added, returns at once: it emits no descriptor, makes no arena
    request and leaves the builder as allocated, whatever the numbers
    of samples and sites (zero sites included). *)
Theorem finalise_fresh_builder NDEBUG ns nsites flags calloc_ok arena_ok oracle self0 :
  ancestor_builder_alloc NDEBUG ns nsites flags calloc_ok arena_ok oracle = Ok self0 →
  ancestor_builder_finalise NDEBUG self0 true = Ok self0 ∧
  emitted_descriptors self0 = [].
Proof.
  intros ->%alloc_Ok. split; [|done].
  unfold ancestor_builder_finalise. cbn [negb].
  apply finalise_frequencies_empty. apply Forall_forall. intros j Hj. cbn.
  apply lookup_replicate. split; [done|].
  rewrite list_elem_of_In, <- in_rev, in_seq in Hj. cbn in Hj. lia.
Qed.

Lemma finalise_fresh_builder_witness :
  ancestor_builder_finalise false dedup_allocated true = Ok dedup_allocated ∧
  emitted_descriptors dedup_allocated = [].
Proof.
  apply (finalise_fresh_builder false 4 3 0 true true (λ _, true)). reflexivity.
Defined.

(** X9. Finalisation emits exactly one descriptor for every [add_site]
    call that was made with a frequency of two or more, whether or not
    sites repeat: the (frequency, focal site) pairs of the emitted
    descriptors are, up to order, the (frequency, site) pairs of these
    calls, and [num_ancestors] is their number. Calls with a frequency
    of zero or one yield no descriptor. *)
Theorem finalise_one_descriptor_per_call NDEBUG ns nsites flags calloc_ok arena_ok
    oracle calls malloc_ok self0 self self' :
  ancestor_builder_alloc NDEBUG ns nsites flags calloc_ok arena_ok oracle = Ok self0 →
  add_sites NDEBUG self0 calls = Ok self →
  ancestor_builder_finalise NDEBUG self malloc_ok = Ok self' →
  num_ancestors self' = length (filter (λ c, (2 ≤ call_frequency c)%nat) calls) ∧
  ∃ exp, Forall2 (describes self') (emitted_descriptors self') exp ∧
         exp ≡ₚ mapped_calls calls.
Proof.
  intros Halloc Hrun Hfin.
  destruct (finalised_emits _ _ _ _ _ _ _ _ _ _ _ _ Halloc Hrun Hfin)
    as (exp & _ & [Hem Hle] & Hperm & _).
  split; [|by exists exp].
  apply Forall2_length in Hem. rewrite Hperm in Hem.
  unfold emitted_descriptors in Hem. rewrite length_take in Hem.
  unfold mapped_calls in Hem. rewrite length_fmap in Hem. lia.
Qed.

Lemma finalise_one_descriptor_per_call_witness :
  num_ancestors dedup_finalised
  = length (filter (λ c, (2 ≤ call_frequency c)%nat) dedup_calls) ∧
  ∃ exp, Forall2 (describes dedup_finalised) (emitted_descriptors dedup_finalised) exp ∧
         exp ≡ₚ mapped_calls dedup_calls.
Proof.
  apply (finalise_one_descriptor_per_call false 4 3 0 true true (λ _, true)
           dedup_calls true dedup_allocated dedup_filled dedup_finalised);
    reflexivity.
Defined.

(** X10. Finalisation changes nothing that [make_ancestor] reads (the
    sites, the genotype buffers, [num_sites] and [num_samples]):
    [make_ancestor] gives the same result, for every focal-site list
    and buffer, on the builder before and after finalisation. *)
Theorem finalise_leaves_make_ancestor NDEBUG ns nsites flags calloc_ok arena_ok
    oracle calls malloc_ok self0 self self' :
  ancestor_builder_alloc NDEBUG ns nsites flags calloc_ok arena_ok oracle = Ok self0 →
  add_sites NDEBUG self0 calls = Ok self →
  ancestor_builder_finalise NDEBUG self malloc_ok = Ok self' →
  sites self' = sites self ∧
  genotype_bufs (allocator self') = genotype_bufs (allocator self) ∧
  frequency_map self' = frequency_map self ∧
  ∀ focal_sites ancestor ok1 ok2 ok3,
    ancestor_builder_make_ancestor NDEBUG self' focal_sites ancestor ok1 ok2 ok3
    = ancestor_builder_make_ancestor NDEBUG self focal_sites ancestor ok1 ok2 ok3.
Proof.
  intros Halloc Hrun Hfin.
  destruct (finalised_emits _ _ _ _ _ _ _ _ _ _ _ _ Halloc Hrun Hfin)
    as (exp & _ & _ & _ & Hsame & _).
  pose proof Hsame as (_ & _ & Hs & Hfm & Hb). split_and!; [done..|].
  intros. by apply make_ancestor_ext.
Qed.

Lemma finalise_leaves_make_ancestor_witness :
  ancestor_builder_make_ancestor false eviction_filled [0%nat] [7; 7; 7; 7]
    true true true
  = Ok (0%nat, 4%nat, [1; 1; 1; 1]) ∧
  sites eviction_finalised = sites eviction_filled ∧
  genotype_bufs (allocator eviction_finalised)
  = genotype_bufs (allocator eviction_filled) ∧
  frequency_map eviction_finalised = frequency_map eviction_filled ∧
  ∀ focal_sites ancestor ok1 ok2 ok3,
    ancestor_builder_make_ancestor false eviction_finalised focal_sites ancestor
      ok1 ok2 ok3
    = ancestor_builder_make_ancestor false eviction_filled focal_sites ancestor
        ok1 ok2 ok3.
Proof.
  split; [reflexivity|].
  apply (finalise_leaves_make_ancestor false 5 4 0 true true (λ _, true)
           eviction_calls true eviction_allocated eviction_filled
           eviction_finalised);
    reflexivity.
Defined.

(** X11. Finalising a second time emits the same descriptors again:
    position by position the same frequency and the same single focal
    site, and the same [num_ancestors]. The focal-site arrays are not
    reused: the second pass materialises every array once more, so the
    arena then holds each of them twice. *)
Theorem finalise_twice NDEBUG ns nsites flags calloc_ok arena_ok oracle calls
    malloc_ok malloc_ok' self0 self self1 self2 :
  ancestor_builder_alloc NDEBUG ns nsites flags calloc_ok arena_ok oracle = Ok self0 →
  add_sites NDEBUG self0 calls = Ok self →
  ancestor_builder_finalise NDEBUG self malloc_ok = Ok self1 →
  ancestor_builder_finalise NDEBUG self1 malloc_ok' = Ok self2 →
  num_ancestors self2 = num_ancestors self1 ∧
  Forall2 (λ d1 d2, ∃ x, describes self1 d1 x ∧ describes self2 d2 x)
    (emitted_descriptors self1) (emitted_descriptors self2) ∧
  site_arrays (allocator self2)
  = site_arrays (allocator self1) ++ site_arrays (allocator self1).
Proof.
  intros Halloc Hrun Hfin1 Hfin2.
  destruct (finalised_emits _ _ _ _ _ _ _ _ _ _ _ _ Halloc Hrun Hfin1)
    as (exp & -> & [Hem1 Hle1] & _ & Hsame & (_ & Hok & Harr)).
  pose proof Hsame as (Hns & _ & _ & Hfm & _).
  assert (maps_ok (frequency_map self1)) as Hok1 by (by rewrite Hfm).
  pose proof (finalise_emits _ _ _ _ Hok1 Hfin2) as [[Hem2 Hle2] _].
  assert (visited_frequencies self1 = visited_frequencies self) as Hv
    by (unfold visited_frequencies; by rewrite Hns).
  rewrite Hfm, Hv in Hem2.
  assert (Forall2 (λ d1 d2, ∃ x, describes self1 d1 x ∧ describes self2 d2 x)
            (emitted_descriptors self1) (emitted_descriptors self2)) as Hboth.
  { eapply (Forall2_trans _ (flip (describes self2))); [|exact Hem1|].
    - intros d1 x d2 H1 H2. by exists x.
    - by apply Forall2_flip. }
  split_and!; [|done|].
  - apply Forall2_length in Hboth. unfold emitted_descriptors in Hboth.
    rewrite !length_take in Hboth. lia.
  - unfold ancestor_builder_finalise in Hfin1, Hfin2.
    destruct malloc_ok; [|done]. destruct malloc_ok'; [|done]. cbn [negb] in *.
    apply finalise_frequencies_arrays in Hfin1 as [Ha1 _]; [|done].
    apply finalise_frequencies_arrays in Hfin2 as [Ha2 _]; [|done].
    cbn in Ha1, Ha2. rewrite Harr in Ha1. cbn in Ha1.
    rewrite Ha2, Hfm, Hns. by rewrite Ha1.
Qed.

Lemma finalise_twice_witness :
  ancestor_builder_finalise false dedup_finalised true = Ok dedup_refinalised ∧
  num_ancestors dedup_refinalised = num_ancestors dedup_finalised ∧
  Forall2 (λ d1 d2, ∃ x, describes dedup_finalised d1 x ∧
                         describes dedup_refinalised d2 x)
    (emitted_descriptors dedup_finalised) (emitted_descriptors dedup_refinalised) ∧
  site_arrays (allocator dedup_refinalised)
  = site_arrays (allocator dedup_finalised)
    ++ site_arrays (allocator dedup_finalised).
Proof.
  split; [reflexivity|].
  apply (finalise_twice false 4 3 0 true true (λ _, true) dedup_calls true true
           dedup_allocated dedup_filled dedup_finalised dedup_refinalised);
    reflexivity.
Defined.

(** X12. [ancestor_builder_finalise] reports an error only when an
    allocation of its own fails, and the error is [TSI_ERR_NO_MEMORY]:
    either the scratch buffer of the call cannot be allocated, or the
    arena refuses one of the requests that the call makes. The call
    makes one request per visited entry of the pattern maps, in the
    order of the visit; it fails at the first one that is refused, so
    the requests for the entries before it were served. *)
Theorem finalise_error_is_refused_allocation NDEBUG self malloc_ok e :
  ancestor_builder_finalise NDEBUG self malloc_ok = Fail e →
  e = TSI_ERR_NO_MEMORY ∧
  (malloc_ok = false ∨
   ∃ i, (i < length (visited_entries self))%nat ∧
     chunk_ok (allocator self) (requests (allocator self) + i) = false ∧
     ∀ i', (i' < i)%nat →
       chunk_ok (allocator self) (requests (allocator self) + i') = true).
Proof.
  unfold ancestor_builder_finalise. destruct malloc_ok; cbn [negb].
  2:{ intros [= <-]. split; [done|by left]. }
  intros H.
  pose proof (finalise_frequencies_requests NDEBUG
                (rev (seq 2 (num_samples (set_num_ancestors self 0) - 1)))
                (set_num_ancestors self 0)) as Hreq.
  cbv zeta in Hreq. rewrite H in Hreq. destruct Hreq as [-> Hreq].
  split; [done|]. right. exact Hreq.
Qed.

Lemma finalise_error_is_refused_allocation_witness :
  ancestor_builder_finalise false tight_filled true = Fail TSI_ERR_NO_MEMORY ∧
  TSI_ERR_NO_MEMORY = TSI_ERR_NO_MEMORY ∧
  (true = false ∨
   ∃ i, (i < length (visited_entries tight_filled))%nat ∧
     chunk_ok (allocator tight_filled) (requests (allocator tight_filled) + i)
     = false ∧
     ∀ i', (i' < i)%nat →
       chunk_ok (allocator tight_filled) (requests (allocator tight_filled) + i')
       = true).
Proof.
  split; [reflexivity|].
  apply (finalise_error_is_refused_allocation false tight_filled true
           TSI_ERR_NO_MEMORY).
  reflexivity.
Defined.

(** X13. A genotype buffer, once stored in the arena, is never modified
    or moved: later [add_site] calls and finalisation leave every
    stored buffer at its place with its contents, so the pointers that
    sites and entries share stay valid. *)
Theorem stored_genotypes_never_change NDEBUG ns nsites flags calloc_ok arena_ok
    oracle calls1 calls2 malloc_ok self0 self1 self2 self3 :
  ancestor_builder_alloc NDEBUG ns nsites flags calloc_ok arena_ok oracle = Ok self0 →
  add_sites NDEBUG self0 calls1 = Ok self1 →
  add_sites NDEBUG self1 calls2 = Ok self2 →
  ancestor_builder_finalise NDEBUG self2 malloc_ok = Ok self3 →
  ∀ p buf, genotype_bufs (allocator self1) !! p = Some buf →
    genotype_bufs (allocator self2) !! p = Some buf ∧
    genotype_bufs (allocator self3) !! p = Some buf.
Proof.
  intros Halloc Hrun1 Hrun2 Hfin p buf Hbuf.
  pose proof (builder_inv_alloc _ _ _ _ _ _ _ _ Halloc) as Hinv0.
  pose proof (builder_inv_add_sites _ _ _ _ Hinv0 Hrun1) as Hinv1.
  pose proof (builder_inv_add_sites _ _ _ _ Hinv1 Hrun2) as (_ & Hok & _).
  apply finalise_emits in Hfin as [_ (_ & _ & _ & _ & Hb)]; [|done].
  rewrite Hb.
  destruct (genotype_bufs_add_sites _ _ _ _ Hrun2) as [extra ->].
  split; by apply lookup_app_l_Some.
Qed.

Lemma stored_genotypes_never_change_witness :
  genotype_bufs (allocator dedup_first) = [[1; 1; 0; 0]] ∧
  ∀ p buf, genotype_bufs (allocator dedup_first) !! p = Some buf →
    genotype_bufs (allocator dedup_filled) !! p = Some buf ∧
    genotype_bufs (allocator dedup_finalised) !! p = Some buf.
Proof.
  split; [reflexivity|].
  apply (stored_genotypes_never_change false 4 3 0 true true (λ _, true)
           [(0%nat, 2%nat, [1; 1; 0; 0])]
           [(1%nat, 2%nat, [1; 1; 0; 0]); (2%nat, 2%nat, [0; 1; 1; 0])]
           true dedup_allocated dedup_first dedup_filled dedup_finalised);
    reflexivity.
Defined.

(** ** [ancestor_builder_make_ancestor] *)

(** X14. For a focal site that was added with a frequency of two or
    more (no site added twice), the ancestor begins and ends at the
    focal site or at a site of higher frequency, and every site strictly
    within its bounds whose frequency is at most that of the focal site
    holds 0: only older sites carry a consensus. *)
Theorem make_ancestor_younger_sites_zero NDEBUG ns nsites flags calloc_ok arena_ok
    oracle calls self0 self c ancestor :
  ancestor_builder_alloc NDEBUG ns nsites flags calloc_ok arena_ok oracle = Ok self0 →
  add_sites NDEBUG self0 calls = Ok self →
  NoDup (call_site <$> calls) →
  c ∈ calls → (2 ≤ call_frequency c)%nat →
  (NDEBUG = true ∨
   Forall (λ c, (2 ≤ call_frequency c)%nat → call_counted ns c) calls) →
  length ancestor = nsites →
  ∃ start end_ a,
    ancestor_builder_make_ancestor NDEBUG self [call_site c] ancestor true true true
    = Ok (start, end_, a) ∧
    (start = call_site c ∨ (call_frequency c < site_frequency self start)%nat) ∧
    (end_ = (call_site c + 1)%nat ∨
     (call_frequency c < site_frequency self (end_ - 1))%nat) ∧
    ∀ i, (start ≤ i < end_)%nat → i ≠ call_site c →
      (site_frequency self i ≤ call_frequency c)%nat → a !! i = Some 0.
Proof.
  intros Halloc Hrun Hnd Hc Hf Hcount Hlen.
  destruct (run_focal_ready _ _ _ _ _ _ _ _ _ _ _ Halloc Hrun Hnd Hc Hf Hcount)
    as (Hok & HN & sf & Hsf & Hfsf & Hassert).
  destruct (make_ancestor_shape NDEBUG self (call_site c) ancestor sf)
    as (start & end_ & a & Hmake & _ & _ & _ & _ & Hstart & Hend & _ & Hzero);
    [done|done|lia|congruence|done|].
  rewrite Hfsf in *. by exists start, end_, a.
Qed.

Lemma make_ancestor_younger_sites_zero_witness :
  ∃ start end_ a,
    ancestor_builder_make_ancestor false eviction_filled [0%nat] [7; 7; 7; 7]
      true true true
    = Ok (start, end_, a) ∧
    (start = 0%nat ∨ (3 < site_frequency eviction_filled start)%nat) ∧
    (end_ = 1%nat ∨ (3 < site_frequency eviction_filled (end_ - 1))%nat) ∧
    ∀ i, (start ≤ i < end_)%nat → i ≠ 0%nat →
      (site_frequency eviction_filled i ≤ 3)%nat → a !! i = Some 0.
Proof.
  apply (make_ancestor_younger_sites_zero false 5 4 0 true true (λ _, true)
           eviction_calls eviction_allocated eviction_filled
           (0%nat, 3%nat, [1; 1; 1; 0; 0]) [7; 7; 7; 7]).
  - reflexivity.
  - reflexivity.
  - apply (bool_decide_unpack _). vm_compute. exact I.
  - left.
  - cbn. lia.
  - right. repeat (constructor; [intros _; reflexivity|]). constructor.
  - reflexivity.
Defined.



(** X16. [make_ancestor] is undefined (it reads through a NULL
    genotypes pointer) for a focal site that no call added with a
    frequency of two or more: such a site never receives a genotype
    buffer. Only sites taken from emitted descriptors are valid focal
    sites. *)
Theorem make_ancestor_undefined_without_genotypes NDEBUG ns nsites flags calloc_ok
    arena_ok oracle calls self0 self l ancestor ok2 ok3 :
  ancestor_builder_alloc NDEBUG ns nsites flags calloc_ok arena_ok oracle = Ok self0 →
  add_sites NDEBUG self0 calls = Ok self →
  (l < nsites)%nat → (0 < ns)%nat →
  Forall (λ c, call_site c = l → (call_frequency c ≤ 1)%nat) calls →
  length ancestor = nsites →
  ancestor_builder_make_ancestor NDEBUG self [l] ancestor true ok2 ok3 = Undef.
Proof.
  intros Halloc Hrun Hl Hns Hlow Hlen.
  destruct (genotypes_ok_run _ _ _ _ _ _ _ _ _ _ Halloc Hrun)
    as ([Hsites _] & HN & _ & _).
  destruct (lookup_lt_is_Some_2 (sites self) l) as [s Hs]; [lia|].
  assert (genotypes s = None) as Hnull.
  { eapply (genotypes_null_run NDEBUG self0 calls self l); [|done..].
    apply alloc_Ok in Halloc as ->. cbn. by intros ? [-> _]%lookup_replicate. }
  unfold ancestor_builder_make_ancestor. cbn [negb length Nat.eqb].
  rewrite assert_true. cbn [mbind outcome_bind lookup list_lookup defined].
  rewrite Hs. cbn [mbind outcome_bind defined].
  rewrite memset_unknown_exact by congruence. cbn [mbind outcome_bind].
  rewrite lookup_replicate_2 by lia. cbn [mbind outcome_bind defined].
  rewrite !collect_older_sites_spec
    by (apply Forall_forall; intros x Hx;
        first [rewrite list_elem_of_In, <- in_rev, in_seq in Hx
              |rewrite list_elem_of_In, in_seq in Hx]; lia).
  cbn [mbind outcome_bind].
  unfold ancestor_builder_get_consistent_samples, site_genotypes.
  rewrite Hs. cbn [defined mbind outcome_bind]. by rewrite Hnull.
Qed.

Lemma make_ancestor_undefined_without_genotypes_witness :
  ancestor_builder_make_ancestor false dedup_allocated [0%nat] [7; 7; 7]
    true true true = Undef.
Proof.
  apply (make_ancestor_undefined_without_genotypes false 4 3 0 true true (λ _, true)
           [] dedup_allocated dedup_allocated 0 [7; 7; 7] true true).
  - reflexivity.
  - reflexivity.
  - lia.
  - lia.
  - constructor.
  - reflexivity.
Defined.

(** ** [ancestor_builder_compute_older_sites] *)

(** X17. When the sites of its list have genotype buffers of
    [num_samples] alleles and lie within the ancestor, and the sample
    set holds valid sample identifiers, [compute_older_sites] returns
    without error; it writes 0 or 1 at the sites of a prefix of its list
    and changes no other entry of the ancestor, and the [last_site] it
    gives is the last site of that prefix, or the focal site when the
    loop stopped before writing anything. *)
Theorem compute_older_sites_writes_prefix self ns focal_site ancestor older_sites
    sample_set :
  (∀ l, l ∈ older_sites →
     (l < length ancestor)%nat ∧
     ∃ g, site_genotypes self l = Ok g ∧ length g = ns) →
  valid_samples ns sample_set → num_samples self = ns →
  ∃ ancestor' k,
    ancestor_builder_compute_older_sites self focal_site ancestor older_sites
      sample_set true
    = Ok (ancestor', default focal_site (last (take k older_sites))) ∧
    length ancestor' = length ancestor ∧
    (∀ i, i ∉ take k older_sites → ancestor' !! i = ancestor !! i) ∧
    (∀ i, i ∈ take k older_sites →
       ancestor' !! i = Some 0 ∨ ancestor' !! i = Some 1).
Proof. apply compute_older_sites_spec. Qed.

Lemma compute_older_sites_writes_prefix_witness :
  ∃ ancestor' k,
    ancestor_builder_compute_older_sites eviction_finalised 0 [1; -1; -1; -1]
      [1; 2; 3]%nat [0; 1; 2] true
    = Ok (ancestor', default 0%nat (last (take k [1; 2; 3]%nat))) ∧
    length ancestor' = 4%nat ∧
    (∀ i, i ∉ take k [1; 2; 3]%nat → ancestor' !! i = [1; -1; -1; -1] !! i) ∧
    (∀ i, i ∈ take k [1; 2; 3]%nat →
       ancestor' !! i = Some 0 ∨ ancestor' !! i = Some 1).
Proof.
  apply (compute_older_sites_writes_prefix eviction_finalised 5 0 [1; -1; -1; -1]
           [1; 2; 3]%nat [0; 1; 2]).
  - intros l Hl. apply list_elem_of_In in Hl. cbn in Hl.
    destruct Hl as [<- | [<- | [<- | []]]];
      (split; [cbn; lia|eexists; split; [reflexivity|reflexivity]]).
  - unfold valid_samples. repeat (constructor; [lia|]). constructor.
  - reflexivity.
Defined.

(** ** [ancestor_builder_get_consistent_samples] *)

(** X18. For a site whose genotype buffer holds at least [num_samples]
    alleles, [get_consistent_samples] returns, in increasing order,
    exactly the sample indices below [num_samples] whose allele is 1;
    alleles other than 1 (0, UNKNOWN or anything else) are skipped. *)
Theorem get_consistent_samples_are_the_ones self site g :
  site_genotypes self site = Ok g → (num_samples self ≤ length g)%nat →
  ancestor_builder_get_consistent_samples self site
  = Ok (Z.of_nat <$> filter (λ k, g !! k = Some 1) (seq 0 (num_samples self))).
Proof.
  intros Hg Hlen. unfold ancestor_builder_get_consistent_samples. rewrite Hg.
  cbn [mbind outcome_bind]. by apply consistent_samples_loop_filter.
Qed.

Lemma get_consistent_samples_are_the_ones_witness :
  ancestor_builder_get_consistent_samples eviction_finalised 3
  = Ok (Z.of_nat <$> filter (λ k, [0; 1; 1; 1; 1] !! k = Some 1)
                       (seq 0 (num_samples eviction_finalised))).
Proof.
  apply (get_consistent_samples_are_the_ones eviction_finalised 3 [0; 1; 1; 1; 1]).
  - reflexivity.
  - cbn. lia.
Defined.

(** ** [cmp_pattern_map] *)

(** X19. On two buffers that hold at least [num_samples] alleles,
    [cmp_pattern_map] is defined, returns 0 exactly when the first
    [num_samples] bytes of the two buffers are equal (alleles beyond
    [num_samples] are not looked at), and is antisymmetric: exchanging
    the two buffers exchanges negative and positive results. *)
Theorem cmp_pattern_map_zero_iff_equal ia_genotypes ib_genotypes n :
  (n ≤ length ia_genotypes)%nat → (n ≤ length ib_genotypes)%nat →
  ∃ c c', cmp_pattern_map ia_genotypes n ib_genotypes = Ok c ∧
          cmp_pattern_map ib_genotypes n ia_genotypes = Ok c' ∧
          (c = 0 ↔ bytes (take n ia_genotypes) = bytes (take n ib_genotypes)) ∧
          (c < 0 ↔ 0 < c') ∧ (0 < c ↔ c' < 0).
Proof.
  intros Ha Hb. unfold cmp_pattern_map. rewrite Nat.mul_1_r.
  destruct (memcmp_total n ia_genotypes ib_genotypes Ha Hb) as [c Hc].
  exists c, (- c).
  split_and!; [done|by apply memcmp_antisym|by eapply memcmp_zero|lia|lia].
Qed.

Lemma cmp_pattern_map_zero_iff_equal_witness :
  ∃ c c', cmp_pattern_map [1; 1; 0; 0; 1] 4 [1; 1; 0; 0; 0] = Ok c ∧
          cmp_pattern_map [1; 1; 0; 0; 0] 4 [1; 1; 0; 0; 1] = Ok c' ∧
          (c = 0 ↔ bytes (take 4 [1; 1; 0; 0; 1]) = bytes (take 4 [1; 1; 0; 0; 0])) ∧
          (c < 0 ↔ 0 < c') ∧ (0 < c ↔ c' < 0).
Proof.
  apply (cmp_pattern_map_zero_iff_equal [1; 1; 0; 0; 1] [1; 1; 0; 0; 0] 4);
    cbn; lia.
Defined.

(** X20. [cmp_pattern_map] orders buffers transitively: when neither of
    two successive comparisons is positive, the comparison of the first
    buffer with the last is not positive either, and it is negative as
    soon as one of the two is. With antisymmetry this makes it a total
    order on the byte vectors, as the search tree requires. *)
Theorem cmp_pattern_map_transitive a b d n c1 c2 :
  cmp_pattern_map a n b = Ok c1 → cmp_pattern_map b n d = Ok c2 →
  c1 ≤ 0 → c2 ≤ 0 →
  ∃ c3, cmp_pattern_map a n d = Ok c3 ∧ c3 ≤ 0 ∧ (c1 < 0 ∨ c2 < 0 → c3 < 0).
Proof. unfold cmp_pattern_map. rewrite Nat.mul_1_r. apply memcmp_trans. Qed.

Lemma cmp_pattern_map_transitive_witness :
  ∃ c3, cmp_pattern_map [0; 1; 1; 0] 4 [1; 1; 0; -1] = Ok c3 ∧ c3 ≤ 0 ∧
        (-1 < 0 ∨ -255 < 0 → c3 < 0).
Proof.
  apply (cmp_pattern_map_transitive [0; 1; 1; 0] [1; 1; 0; 0] [1; 1; 0; -1] 4
           (-1) (-255)); first [reflexivity | lia].
Defined.

(** ** The Python binding *)

(** X21. [ReferencePanel_init] returns 0 exactly when the arguments
    parse, the haplotype array has two dimensions whose sizes are both
    non-zero as [uint32_t], the positions array has one dimension of
    the number of sites, the panel can be allocated and
    [reference_panel_alloc] reports no error. The object then holds the
    sizes truncated to 32 bits, so an array with 2^32 + k columns is
    taken as one with k sites. *)
Theorem ReferencePanel_init_succeeds_iff self a :
  Binding.ir_ret (Binding.ReferencePanel_init self a) = 0 ↔
  Binding.pa_args_parsed a = true ∧
  ∃ s0 s1,
    Binding.pa_haplotypes_array a = Some [s0; s1] ∧
    1 ≤ Binding.uint32 s0 ∧ 1 ≤ Binding.uint32 s1 ∧
    Binding.pa_positions_array a = Some [Binding.uint32 s1] ∧
    Binding.pa_panel_allocated a = true ∧ Binding.pa_alloc_err a = 0 ∧
    Binding.ReferencePanel_init self a
    = Binding.mk_init_result 0 None
        (Binding.mk_panel true (Binding.pa_sequence_length a)
           (Binding.pa_alloc_num_haplotypes a) (Binding.uint32 s1)
           (Binding.uint32 s0)).
Proof.
  unfold Binding.ReferencePanel_init.
  destruct (Binding.pa_args_parsed a); cbn [negb].
  2:{ split; [done|]. by intros [? _]. }
  destruct (Binding.pa_haplotypes_array a) as [shape|].
  2:{ split; [done|]. by intros (_ & ? & ? & ? & _). }
  destruct shape as [|s0 [|s1 [|s2 shape]]]; cbn [length Nat.eqb negb nth];
    try (split; [done|]; by intros (_ & ? & ? & ? & _)).
  destruct (Z.ltb_spec (Binding.uint32 s0) 1) as [H0|H0].
  { split; [done|]. intros (_ & ? & ? & [= <- <-] & ? & _). lia. }
  destruct (Z.ltb_spec (Binding.uint32 s1) 1) as [H1|H1].
  { split; [done|]. intros (_ & ? & ? & [= <- <-] & ? & ? & _). lia. }
  destruct (Binding.pa_positions_array a) as [pshape|].
  2:{ split; [done|]. by intros (_ & ? & ? & ? & ? & ? & ? & _). }
  destruct pshape as [|p0 [|p1 pshape]]; cbn [length Nat.eqb negb nth];
    try (split; [done|]; by intros (_ & ? & ? & ? & ? & ? & ? & _)).
  destruct (Z.eqb_spec p0 (Binding.uint32 s1)) as [->|Hp]; cbn [negb].
  2:{ split; [done|]. intros (_ & ? & ? & [= <- <-] & ? & ? & [= ?] & _). done. }
  destruct (Binding.pa_panel_allocated a); cbn [negb].
  2:{ split; [done|]. by intros (_ & ? & ? & ? & ? & ? & ? & ? & _). }
  destruct (Z.eqb_spec (Binding.pa_alloc_err a) 0) as [He|He]; cbn [negb].
  2:{ split; [done|]. by intros (_ & ? & ? & ? & ? & ? & ? & ? & ? & _). }
  split; [|done]. intros _. split; [done|]. exists s0, s1. by split_and!.
Qed.

(** X22. After [ReferencePanel_init], [ReferencePanel_check_state]
    accepts the object exactly when the call returned 0 or failed in
    [reference_panel_alloc]: a failure of that call leaves the panel
    pointer set, so the object passes the state check although its
    initialisation failed, with [num_haplotypes] as it was before the
    call. Every other failure leaves the pointer NULL. *)
Theorem ReferencePanel_check_state_after_init self a :
  (Binding.ReferencePanel_check_state
     (Binding.ir_self (Binding.ReferencePanel_init self a))).1 = 0 ↔
  Binding.ir_ret (Binding.ReferencePanel_init self a) = 0 ∨
  (Binding.ir_ret (Binding.ReferencePanel_init self a) = -1 ∧
   Binding.ir_exception (Binding.ReferencePanel_init self a)
   = Some (Threader.TsinfLibraryError (Binding.pa_alloc_err a)) ∧
   Binding.pa_alloc_err a ≠ 0 ∧
   Binding.rp_num_haplotypes (Binding.ir_self (Binding.ReferencePanel_init self a))
   = Binding.rp_num_haplotypes self).
Proof.
  unfold Binding.ReferencePanel_init, Binding.ReferencePanel_check_state.
  destruct (Binding.pa_args_parsed a); cbn [negb];
    [|cbn; split; [done|intros [?|(_ & ? & _)]; done]].
  destruct (Binding.pa_haplotypes_array a) as [shape|];
    [|cbn; split; [done|intros [?|(_ & ? & _)]; done]].
  destruct (negb (length shape =? 2)%nat);
    [cbn; split; [done|intros [?|(_ & ? & _)]; done]|].
  destruct (Binding.uint32 (nth 0 shape 0) <? 1);
    [cbn; split; [done|intros [?|(_ & ? & _)]; done]|].
  destruct (Binding.uint32 (nth 1 shape 0) <? 1);
    [cbn; split; [done|intros [?|(_ & ? & _)]; done]|].
  destruct (Binding.pa_positions_array a) as [pshape|];
    [|cbn; split; [done|intros [?|(_ & ? & _)]; done]].
  destruct (negb (length pshape =? 1)%nat);
    [cbn; split; [done|intros [?|(_ & ? & _)]; done]|].
  destruct (negb (nth 0 pshape 0 =? Binding.uint32 (nth 1 shape 0)));
    [cbn; split; [done|intros [?|(_ & ? & _)]; done]|].
  destruct (Binding.pa_panel_allocated a); cbn [negb];
    [|cbn; split; [done|intros [?|(_ & ? & _)]; done]].
  destruct (Z.eqb_spec (Binding.pa_alloc_err a) 0) as [He|He]; cbn.
  - split; [by left|done].
  - split; [|done]. intros _. right. by split_and!.
Qed.

(** X23. [Threader_init] sets the panel pointer before it allocates the
    threader, so [Threader_check_state] is always defined on the object
    it leaves. The check accepts the object exactly when the call
    returned 0 or failed in [threader_alloc]: as for the panel, a
    failure of the library call leaves an object that passes the
    state check. *)
Theorem Threader_check_state_after_init self a :
  ∃ res,
    Binding.Threader_check_state (Binding.ir_self (Binding.Threader_init self a))
    = Ok res ∧
    (res.1 = 0 ↔
     Binding.ir_ret (Binding.Threader_init self a) = 0 ∨
     (Binding.ir_ret (Binding.Threader_init self a) = -1 ∧
      Binding.ir_exception (Binding.Threader_init self a)
      = Some (Threader.TsinfLibraryError (Binding.ta_alloc_err a)) ∧
      Binding.ta_alloc_err a ≠ 0)).
Proof.
  unfold Binding.Threader_init, Binding.Threader_check_state.
  destruct (Binding.ta_reference_panel a) as [panel|]; cbn.
  2:{ eexists. split; [done|]. cbn. split; [done|intros [?|(_ & ? & _)]; done]. }
  unfold Binding.ReferencePanel_check_state.
  destruct (Binding.rp_reference_panel panel) eqn:Hp; cbn.
  2:{ eexists. split; [done|]. cbn. split; [done|intros [?|(_ & ? & _)]; done]. }
  destruct (Binding.ta_threader_allocated a); cbn.
  2:{ eexists. split; [done|]. cbn. split; [done|intros [?|(_ & ? & _)]; done]. }
  destruct (Z.eqb_spec (Binding.ta_alloc_err a) 0) as [He|He]; cbn; rewrite Hp;
    eexists; (split; [done|]); cbn.
  - split; [by left|done].
  - split; [|done]. intros _. right. by split_and!.
Qed.

(** X24. [Threader_run] returns an array exactly when the state check
    and every validation pass, the mutations buffer and the result
    array can be allocated; the array then holds the first
    [num_mutations] entries of the buffer. In every other case it
    raises. *)
Theorem Threader_run_returns_iff (c : Threader.call) ms :
  Threader.Threader_run c = Threader.Returned ms ↔
  Threader.reaches_hmm c ∧ Threader.mutations_array_allocated c = true ∧
  ms = take (Threader.num_mutations c) (Threader.mutations c).
Proof.
  unfold Threader.Threader_run, Threader.reaches_hmm, Threader.Threader_run_hmm.
  destruct (Threader.Threader_check_state c) as [e|].
  { split; [done|]. by intros [[? _] _]. }
  destruct (Threader.args_parsed c); cbn [negb].
  2:{ split; [done|]. by intros [(_ & ? & _) _]. }
  destruct (Z.leb_spec (Threader.num_haplotypes c) (Threader.haplotype_index c)).
  { split; [done|]. intros [(_ & _ & ? & _) _]. lia. }
  destruct (Threader.path_array c) as [[ndim shape0]|].
  2:{ split; [done|]. by intros [(_ & _ & _ & (? & ? & _) & _) _]. }
  destruct (Z.eqb_spec ndim 1) as [->|Hn]; cbn [negb].
  2:{ split; [done|]. intros [(_ & _ & _ & (? & [= ? ?] & _) & _) _]. done. }
  destruct (Z.eqb_spec (shape0 `mod` 2 ^ 32) (Threader.num_sites c)) as [Hs|Hs];
    cbn [negb].
  2:{ split; [done|]. intros [(_ & _ & _ & (? & [= <-] & ?) & _) _]. done. }
  destruct (Threader.mutations_allocated c); cbn [negb].
  2:{ split; [done|]. by intros [(_ & _ & _ & _ & ?) _]. }
  cbn. destruct (Threader.mutations_array_allocated c); cbn.
  - split.
    + intros [= <-]. split_and!; try done. by exists shape0.
    + by intros (_ & _ & ->).
  - split; [done|]. by intros (_ & ? & _).
Qed.

Ltac events_in := apply (bool_decide_unpack _); vm_compute; exact I.

Ltac events_out H :=
  solve [apply (bool_decide_pack _) in H; vm_compute in H; destruct H].

Ltac not_leaked :=
  intros (Ha & Hr & Hh);
  first [events_out Ha
        |solve [exfalso; apply Hr; events_in]
        |solve [exfalso; apply Hh; events_in]].

(** X25. [Threader_run] never frees the mutations buffer that it
    allocates with [PyMem_Malloc]: whenever a call gets as far as the
    HMM, the buffer is still allocated when the call returns, whether
    it returns the array or raises. The reference to the path array is
    always released and the result array is handed to the caller. *)
Theorem Threader_run_leaks_mutations_buffer (c : Threader.call) :
  (Binding.Threader_run_traced c).1 = Threader.Threader_run c ∧
  (Binding.leaked (Binding.Threader_run_traced c).2 Binding.MutationsBuffer ↔
   Threader.reaches_hmm c) ∧
  ¬ Binding.leaked (Binding.Threader_run_traced c).2 Binding.PathArray ∧
  ¬ Binding.leaked (Binding.Threader_run_traced c).2 Binding.MutationsArray.
Proof.
  unfold Binding.Threader_run_traced, Threader.Threader_run, Threader.reaches_hmm,
    Threader.Threader_run_hmm, Binding.leaked.
  destruct (Threader.Threader_check_state c) as [e|]; cbn [fst snd].
  { split_and!; [done| |not_leaked..].
    split; [not_leaked|by intros [? _]]. }
  destruct (Threader.args_parsed c); cbn [negb fst snd].
  2:{ split_and!; [done| |not_leaked..].
      split; [not_leaked|by intros (_ & ? & _)]. }
  destruct (Z.leb_spec (Threader.num_haplotypes c) (Threader.haplotype_index c));
    cbn [fst snd].
  { split_and!; [done| |not_leaked..].
    split; [not_leaked|intros (_ & _ & ? & _); lia]. }
  destruct (Threader.path_array c) as [[ndim shape0]|]; cbn [fst snd].
  2:{ split_and!; [done| |not_leaked..].
      split; [not_leaked|by intros (_ & _ & _ & (? & ? & _) & _)]. }
  destruct (Z.eqb_spec ndim 1) as [->|Hn]; cbn [negb fst snd app].
  2:{ split_and!; [done| |not_leaked..].
      split; [not_leaked|intros (_ & _ & _ & (? & [= ? ?] & _) & _); done]. }
  destruct (Z.eqb_spec (shape0 `mod` 2 ^ 32) (Threader.num_sites c)) as [Hs|Hs];
    cbn [negb fst snd app].
  2:{ split_and!; [done| |not_leaked..].
      split; [not_leaked|intros (_ & _ & _ & (? & [= <-] & ?) & _); done]. }
  destruct (Threader.mutations_allocated c); cbn [negb fst snd app].
  2:{ split_and!; [done| |not_leaked..].
      split; [not_leaked|by intros (_ & _ & _ & _ & ?)]. }
  assert (∃ shape1, Some (1, shape0) = Some (1, shape1) ∧
                    shape1 `mod` 2 ^ 32 = Threader.num_sites c) as Hshape
    by (by exists shape0).
  destruct (Threader.mutations_array_allocated c); cbn [negb fst snd app].
  - split_and!; [done| |not_leaked..].
    split; [done|]. intros _.
    split_and!; [events_in|intros Hin; events_out Hin..].
  - split_and!; [done| |not_leaked..].
    split; [done|]. intros _.
    split_and!; [events_in|intros Hin; events_out Hin..].
Qed.

(** X26. [ReferencePanel_get_haplotypes] returns a
    [num_haplotypes] x [num_sites] array. The number of bytes it copies
    is the product [num_sites * num_haplotypes] taken in 32 bits: when
    the product is below 2^32 the array is the panel's haplotype
    matrix; when it is not, only the first (product mod 2^32) bytes are
    copied and the rest of the array is left as allocated. *)
Theorem get_haplotypes_copies_32_bit_product self haplotypes data :
  Binding.rp_reference_panel self = true →
  0 ≤ Binding.rp_num_haplotypes self → 0 ≤ Binding.rp_num_sites self →
  Z.of_nat (length data) = Binding.rp_num_haplotypes self * Binding.rp_num_sites self →
  (length data ≤ length haplotypes)%nat →
  ∃ result,
    Binding.ReferencePanel_get_haplotypes self haplotypes (Some data)
    = Ok (Binding.Array [Binding.rp_num_haplotypes self; Binding.rp_num_sites self]
            result) ∧
    length result = length data ∧
    (Binding.rp_num_haplotypes self * Binding.rp_num_sites self < 2 ^ 32 →
     result = take (length data) haplotypes) ∧
    (2 ^ 32 ≤ Binding.rp_num_haplotypes self * Binding.rp_num_sites self →
     ∃ n, (n < length data)%nat ∧
          Z.of_nat n
          = (Binding.rp_num_haplotypes self * Binding.rp_num_sites self) `mod` 2 ^ 32 ∧
          take n result = take n haplotypes ∧ drop n result = drop n data).
Proof.
  intros Hp HH HS Hlen Hhap.
  unfold Binding.ReferencePanel_get_haplotypes, Binding.ReferencePanel_check_state.
  rewrite Hp. cbn [negb Z.eqb]. unfold Binding.uint32. rewrite Z.mul_1_r.
  set (P := Binding.rp_num_haplotypes self * Binding.rp_num_sites self) in *.
  rewrite (Z.mul_comm (Binding.rp_num_sites self)). fold P.
  set (n := Z.to_nat (P `mod` 2 ^ 32)).
  assert (0 ≤ P `mod` 2 ^ 32 ≤ P) as Hmod.
  { split; [apply Z.mod_pos_bound; lia|apply Z.mod_le; lia]. }
  assert (n ≤ length data)%nat as Hn by lia.
  replace (n <=? length haplotypes)%nat with true
    by (symmetry; apply Nat.leb_le; lia).
  replace (n <=? length data)%nat with true by (symmetry; apply Nat.leb_le; lia).
  cbn [andb]. eexists. split; [done|]. split_and!.
  - rewrite length_app, length_take, length_drop. lia.
  - intros Hsmall. rewrite Z.mod_small in Hmod by lia.
    assert (n = length data) as -> by (unfold n; rewrite Z.mod_small by lia; lia).
    by rewrite drop_all, app_nil_r.
  - intros Hbig. exists n. split_and!.
    + assert (P `mod` 2 ^ 32 < 2 ^ 32) by (apply Z.mod_pos_bound; lia). lia.
    + unfold n. lia.
    + rewrite take_app_length'; [done|]. rewrite length_take. lia.
    + rewrite drop_app_length'; [done|]. rewrite length_take. lia.
Qed.

Lemma get_haplotypes_copies_32_bit_product_witness :
  ∃ result,
    Binding.ReferencePanel_get_haplotypes (Binding.mk_panel true 0 2 3 2)
      [0; 1; 1; 1; 0; 1; 9] (Some [7; 7; 7; 7; 7; 7])
    = Ok (Binding.Array [2; 3] result) ∧
    length result = 6%nat ∧
    (2 * 3 < 2 ^ 32 → result = take 6 [0; 1; 1; 1; 0; 1; 9]) ∧
    (2 ^ 32 ≤ 2 * 3 →
     ∃ n, (n < 6)%nat ∧ Z.of_nat n = (2 * 3) `mod` 2 ^ 32 ∧
          take n result = take n [0; 1; 1; 1; 0; 1; 9] ∧
          drop n result = drop n [7; 7; 7; 7; 7; 7]).
Proof.
  apply (get_haplotypes_copies_32_bit_product (Binding.mk_panel true 0 2 3 2)
           [0; 1; 1; 1; 0; 1; 9] [7; 7; 7; 7; 7; 7]);
    first [reflexivity | cbn; lia].
Defined.

(** ** The order of the pattern maps and of the descriptors *)

(** X27. With the tree of [avl.h] taken as an ordered map, every
    sequence of successful [add_site] calls keeps each pattern map in
    strictly ascending [cmp_pattern_map] order of the genotype buffers
    of its entries: a new entry is linked in at its place in the order,
    and an existing one keeps its place. *)
Theorem pattern_maps_stay_sorted NDEBUG ns nsites flags calloc_ok arena_ok oracle
    calls self0 self :
  ancestor_builder_alloc NDEBUG ns nsites flags calloc_ok arena_ok oracle = Ok self0 →
  add_sites NDEBUG self0 calls = Ok self →
  ∀ f, StronglySorted (buffer_lt self) (pattern_buffers self f).
Proof.
  intros Halloc Hrun.
  apply (maps_sorted_add_sites NDEBUG self0 calls self); [|done].
  by eapply maps_sorted_alloc.
Qed.

Lemma pattern_maps_stay_sorted_witness :
  pattern_buffers dedup_filled 2 = [1%nat; 0%nat] ∧
  ∀ f, StronglySorted (buffer_lt dedup_filled) (pattern_buffers dedup_filled f).
Proof.
  split; [reflexivity|].
  apply (pattern_maps_stay_sorted false 4 3 0 true true (λ _, true) dedup_calls
           dedup_allocated dedup_filled); reflexivity.
Defined.

(** X28. When no site is added twice, finalisation emits the
    descriptors by decreasing frequency and, among descriptors of one
    frequency, in ascending [cmp_pattern_map] order of the genotypes of
    their focal sites (sites with the same genotype bytes next to each
    other): for two descriptors, the earlier one has the higher
    frequency, or the same frequency and genotypes that do not compare
    above those of the later one. The tree of [avl.h] is taken as an
    ordered map that is traversed in key order. *)
Theorem finalise_emission_order NDEBUG ns nsites flags calloc_ok arena_ok oracle
    calls malloc_ok self0 self self' :
  ancestor_builder_alloc NDEBUG ns nsites flags calloc_ok arena_ok oracle = Ok self0 →
  add_sites NDEBUG self0 calls = Ok self →
  NoDup (call_site <$> calls) →
  ancestor_builder_finalise NDEBUG self malloc_ok = Ok self' →
  ∃ exp, Forall2 (describes self') (emitted_descriptors self') exp ∧
         StronglySorted (emission_order self') exp.
Proof.
  intros Halloc Hrun Hnd Hfin.
  destruct (finalised_emits _ _ _ _ _ _ _ _ _ _ _ _ Halloc Hrun Hfin)
    as (exp & -> & [Hem _] & _ & (Hns & _ & Hs & _ & Hb) & _).
  eexists. split; [exact Hem|].
  eapply StronglySorted_mono;
    [|by apply (emission_sorted _ _ _ _ _ _ _ _ _ _ Halloc Hrun Hnd)].
  intros x y [Hlt|[Heq (b1 & b2 & c & H1 & H2 & Hc & Hle)]]; [by left|right].
  split; [done|]. exists b1, b2, c. rewrite Hns.
  rewrite !(site_genotypes_ext self' self) by done. done.
Qed.

Lemma finalise_emission_order_witness :
  ∃ exp, Forall2 (describes dedup_finalised) (emitted_descriptors dedup_finalised) exp ∧
         StronglySorted (emission_order dedup_finalised) exp.
Proof.
  apply (finalise_emission_order false 4 3 0 true true (λ _, true)
           dedup_calls true dedup_allocated dedup_filled dedup_finalised).
  - reflexivity.
  - reflexivity.
  - apply (bool_decide_unpack _). vm_compute. exact I.
  - reflexivity.
Defined.
